(** * Aira Control Tower: call session engine and prompt version store

    A shallow embedding of [backend_deprecated/server.py].

    Modelling conventions.
    - A Python [str] is a [string]; utterances are ASCII text, so [lower]
      maps the letters A..Z and [strip] removes the ASCII white space.  The
      Spanish templates are kept as the UTF-8 bytes of the source literals;
      no operation inspects them.
    - A MongoDB collection is the list of its documents in insertion order.
      [find_one] returns the first document matching the filter,
      [update_one] rewrites the first matching document, [update_many] all
      of them, [insert_one] appends.
    - A handler runs in the monad [M]: it reads the collection, raises an
      [HTTPException], or writes.  Every write is logged, so the sequence of
      stores that a reader of the collection can observe while the handler
      runs is part of its result.
    - [uuid.uuid4()] and [datetime.now()] are inputs of the handler that
      calls them, one argument per call site. *)

From Stdlib Require Import ZArith Ascii String Lia.
From stdpp Require Import base decidable option list strings pretty gmap.

Local Open Scope string_scope.
Local Open Scope list_scope.
Local Open Scope Z_scope.

(** ** Enumerations *)

Inductive FSMState :=
| GREETING | LANGUAGE_SELECTION | QUALIFICATION | OBJECTION_HANDLING
| DEMO_OFFER | CONFIRMATION | CLOSING | TRANSFER | FALLBACK.

Inductive Language := ENGLISH | SPANISH | FRENCH | GERMAN.

Inductive CallStatus :=
| CS_ACTIVE | CS_COMPLETED | CS_FAILED | CS_TRANSFERRED.

Inductive ExitReason :=
| ER_COMPLETED | ER_USER_HANGUP | ER_TIMEOUT | ER_ERROR | ER_TRANSFERRED
| ER_NO_RESPONSE.

Inductive PromptStatus := PS_ACTIVE | PS_DRAFT | PS_WEAK | PS_ARCHIVED.

#[global] Instance FSMState_eq_dec : EqDecision FSMState.
Proof. solve_decision. Defined.
#[global] Instance Language_eq_dec : EqDecision Language.
Proof. solve_decision. Defined.
#[global] Instance CallStatus_eq_dec : EqDecision CallStatus.
Proof. solve_decision. Defined.
#[global] Instance ExitReason_eq_dec : EqDecision ExitReason.
Proof. solve_decision. Defined.
#[global] Instance PromptStatus_eq_dec : EqDecision PromptStatus.
Proof. solve_decision. Defined.

(** ** Strings: [str.lower], [in], [str.strip] *)

Definition lower_char (c : ascii) : ascii :=
  let n := nat_of_ascii c in
  if ((65 <=? n) && (n <=? 90))%nat then ascii_of_nat (n + 32) else c.

Fixpoint lower (s : string) : string :=
  match s with
  | EmptyString => EmptyString
  | String c t => String (lower_char c) (lower t)
  end.

(** [str_in needle hay] is Python's [needle in hay]. *)
Fixpoint str_in (needle hay : string) : bool :=
  if String.prefix needle hay then true
  else match hay with
       | EmptyString => false
       | String _ t => str_in needle t
       end.

Definition is_space (c : ascii) : bool :=
  let n := nat_of_ascii c in
  (((9 <=? n) && (n <=? 13)) || ((28 <=? n) && (n <=? 32)))%nat.

Fixpoint lstrip (s : string) : string :=
  match s with
  | EmptyString => EmptyString
  | String c t => if is_space c then lstrip t else s
  end.

Fixpoint rstrip (s : string) : string :=
  match s with
  | EmptyString => EmptyString
  | String c t =>
      match rstrip t with
      | EmptyString => if is_space c then EmptyString else String c EmptyString
      | t' => String c t'
      end
  end.

Definition strip (s : string) : string := rstrip (lstrip s).

(** Python truthiness of a [str] and of an [Optional[str]]. *)
Definition truthy (s : string) : bool :=
  match s with EmptyString => false | _ => true end.

Definition truthy_opt (o : option string) : bool :=
  match o with Some s => truthy s | None => false end.

(** ** Simulated FSM responses *)

Definition Response : Type := string * FSMState * bool.

(** The dictionary [responses]: outer key the state, inner key the language.
    TRANSFER, FALLBACK and LANGUAGE_SELECTION have no entry; only ENGLISH and
    SPANISH have inner entries. *)
Definition responses (state : FSMState) : option (Language -> option Response) :=
  match state with
  | GREETING => Some (fun l =>
      match l with
      | ENGLISH => Some ("Hello! I'm Aira, your AI assistant. How can I help you today? Would you like to learn about our product?", QUALIFICATION, false)
      | SPANISH => Some ("¡Hola! Soy Aira, tu asistente de IA. ¿Cómo puedo ayudarte hoy?", QUALIFICATION, false)
      | _ => None
      end)
  | QUALIFICATION => Some (fun l =>
      match l with
      | ENGLISH => Some ("Great! Let me ask you a few questions. What industry is your company in?", QUALIFICATION, false)
      | SPANISH => Some ("¡Genial! Déjame hacerte algunas preguntas. ¿En qué industria está tu empresa?", QUALIFICATION, false)
      | _ => None
      end)
  | DEMO_OFFER => Some (fun l =>
      match l with
      | ENGLISH => Some ("Based on what you've told me, I think our solution would be perfect for you. Would you like to schedule a demo?", CONFIRMATION, false)
      | SPANISH => Some ("Basándome en lo que me has contado, creo que nuestra solución sería perfecta para ti. ¿Te gustaría programar una demostración?", CONFIRMATION, false)
      | _ => None
      end)
  | CONFIRMATION => Some (fun l =>
      match l with
      | ENGLISH => Some ("Perfect! I've scheduled your demo. You'll receive a confirmation email shortly. Is there anything else I can help you with?", CLOSING, false)
      | SPANISH => Some ("¡Perfecto! He programado tu demostración. Recibirás un correo de confirmación pronto. ¿Hay algo más en lo que pueda ayudarte?", CLOSING, false)
      | _ => None
      end)
  | CLOSING => Some (fun l =>
      match l with
      | ENGLISH => Some ("Thank you for your time today! Have a great day!", CLOSING, true)
      | SPANISH => Some ("¡Gracias por tu tiempo hoy! ¡Que tengas un excelente día!", CLOSING, true)
      | _ => None
      end)
  | OBJECTION_HANDLING => Some (fun l =>
      match l with
      | ENGLISH => Some ("I understand your concern. Let me address that. Our solution offers flexible pricing and a free trial period.", DEMO_OFFER, false)
      | SPANISH => Some ("Entiendo tu preocupación. Déjame abordar eso. Nuestra solución ofrece precios flexibles y un período de prueba gratuito.", DEMO_OFFER, false)
      | _ => None
      end)
  | _ => None
  end.

(** [table.get(language, table[Language.ENGLISH])]; the default is evaluated
    eagerly in Python and raises [KeyError] when ENGLISH is missing, which is
    the outer [None] here. *)
Definition get_or_english (table : Language -> option Response)
    (language : Language) : option Response :=
  match table ENGLISH with
  | None => None
  | Some dflt => Some (default dflt (table language))
  end.

Definition fallback_response : Response :=
  ("I'm here to help. Could you tell me more?", QUALIFICATION, false).

(** The intent detection of [get_simulated_response], in the order of the
    source's [if]/[elif] chain. *)
Definition detect_next_state (state : FSMState) (user_input : string)
    (language : Language) : option FSMState :=
  let user_lower := lower user_input in
  if str_in "demo" user_lower || str_in "yes" user_lower
     || str_in "interested" user_lower
  then Some (if decide (state = QUALIFICATION) then DEMO_OFFER else CONFIRMATION)
  else if str_in "no" user_lower || str_in "not interested" user_lower
  then Some CLOSING
  else if str_in "concern" user_lower || str_in "expensive" user_lower
          || str_in "but" user_lower
  then Some OBJECTION_HANDLING
  else match responses state with
       | Some table =>
           match get_or_english table language with
           | Some (_, next_state, _) => Some next_state
           | None => None
           end
       | None => Some state
       end.

(** [None] stands for the [KeyError] the Python lookups could raise;
    [get_simulated_response_total] shows it never happens. *)
Definition get_simulated_response (state : FSMState) (user_input : string)
    (language : Language) : option Response :=
  match detect_next_state state user_input language with
  | None => None
  | Some next_state =>
      match responses next_state with
      | Some table =>
          match get_or_english table language with
          | Some (text, _, is_final) => Some (text, next_state, is_final)
          | None => None
          end
      | None => Some fallback_response
      end
  end.

(** ** Handlers: errors, the collection monad, MongoDB primitives *)

Record HTTPException := { status_code : Z; detail : string }.

Inductive Outcome (A : Type) :=
| Raise (e : HTTPException)
| Return (a : A).
Arguments Raise {A} e.
Arguments Return {A} a.

(** An uncaught Python exception inside a handler is answered with 500. *)
Definition internal_error : HTTPException :=
  {| status_code := 500; detail := "Internal Server Error" |}.

Section Collection.
Context {D : Type}.

(** A handler over a collection of documents [D]: from the current
    collection to the list of collections it writes, oldest first, and
    its outcome. *)
Definition M (A : Type) : Type := list D -> list (list D) * Outcome A.

(** The collection after the writes [ws] made from [db]. *)
Definition final (db : list D) (ws : list (list D)) : list D := List.last ws db.

Definition m_ret {A} (a : A) : M A := fun _ => ([], Return a).

Definition m_bind {A B} (f : A -> M B) (m : M A) : M B :=
  fun db =>
    match m db with
    | (ws, Raise e) => (ws, Raise e)
    | (ws, Return a) =>
        let '(ws', r) := f a (final db ws) in (ws ++ ws', r)
    end.

Definition raise {A} (e : HTTPException) : M A := fun _ => ([], Raise e).

Fixpoint first_match (P : D -> bool) (db : list D) : option D :=
  match db with
  | [] => None
  | d :: rest => if P d then Some d else first_match P rest
  end.

Fixpoint update_first (P : D -> bool) (f : D -> D) (db : list D) : list D :=
  match db with
  | [] => []
  | d :: rest => if P d then f d :: rest else d :: update_first P f rest
  end.

Definition update_all (P : D -> bool) (f : D -> D) (db : list D) : list D :=
  List.map (fun d => if P d then f d else d) db.

Definition find_one (P : D -> bool) : M (option D) :=
  fun db => ([], Return (first_match P db)).

Definition find (P : D -> bool) : M (list D) :=
  fun db => ([], Return (List.filter P db)).

Definition insert_one (d : D) : M unit :=
  fun db => ([db ++ [d]], Return tt).

(** Returns the number of matched documents (0 or 1). *)
Definition update_one (P : D -> bool) (f : D -> D) : M Z :=
  fun db =>
    match first_match P db with
    | Some _ => ([update_first P f db], Return 1)
    | None => ([], Return 0)
    end.

Definition update_many (P : D -> bool) (f : D -> D) : M unit :=
  fun db => ([update_all P f db], Return tt).

(** Running a handler: the collection it leaves and its outcome. *)
Definition run {A} (m : M A) (db : list D) : list D * Outcome A :=
  let '(ws, r) := m db in (final db ws, r).

(** The collections a reader can see from the handler's start to its end. *)
Definition instants {A} (m : M A) (db : list D) : list (list D) :=
  db :: fst (m db).
End Collection.

Arguments M D A : clear implicits.

#[global] Instance M_ret {D} : MRet (M D) := @m_ret D.
#[global] Instance M_bind {D} : MBind (M D) := @m_bind D.

(** ** Call sessions *)

Definition datetime : Type := Z.

Module CallTurn.
Record t := {
  id : string;
  timestamp : datetime;
  speaker : string;
  text : string;
  audio_url : option string;
  fsm_state : FSMState }.
End CallTurn.

Module Call.
Record t := {
  id : string;
  session_id : string;
  status : CallStatus;
  fsm_state : FSMState;
  language : Language;
  test_mode : bool;
  start_time : datetime;
  end_time : option datetime;
  exit_reason : option ExitReason;
  turns : list CallTurn.t;
  qualification_data : gmap string bool;
  demo_intent : bool;
  demo_confirmed : bool;
  objections : list string }.

(** The update operators the handlers send to MongoDB. *)
Definition push_turns (new : list CallTurn.t) (c : t) : t :=
  {| id := id c; session_id := session_id c; status := status c;
     fsm_state := fsm_state c; language := language c;
     test_mode := test_mode c; start_time := start_time c;
     end_time := end_time c; exit_reason := exit_reason c;
     turns := turns c ++ new;
     qualification_data := qualification_data c;
     demo_intent := demo_intent c; demo_confirmed := demo_confirmed c;
     objections := objections c |}.

Definition set_fsm_state (s : FSMState) (c : t) : t :=
  {| id := id c; session_id := session_id c; status := status c;
     fsm_state := s; language := language c;
     test_mode := test_mode c; start_time := start_time c;
     end_time := end_time c; exit_reason := exit_reason c;
     turns := turns c;
     qualification_data := qualification_data c;
     demo_intent := demo_intent c; demo_confirmed := demo_confirmed c;
     objections := objections c |}.

(** [$set] of ["qualification_data.<key>"] for every key of [updates]. *)
Definition set_qualification (updates : gmap string bool) (c : t) : t :=
  {| id := id c; session_id := session_id c; status := status c;
     fsm_state := fsm_state c; language := language c;
     test_mode := test_mode c; start_time := start_time c;
     end_time := end_time c; exit_reason := exit_reason c;
     turns := turns c;
     qualification_data := updates ∪ qualification_data c;
     demo_intent := demo_intent c; demo_confirmed := demo_confirmed c;
     objections := objections c |}.

Definition set_demo_intent (b : bool) (c : t) : t :=
  {| id := id c; session_id := session_id c; status := status c;
     fsm_state := fsm_state c; language := language c;
     test_mode := test_mode c; start_time := start_time c;
     end_time := end_time c; exit_reason := exit_reason c;
     turns := turns c;
     qualification_data := qualification_data c;
     demo_intent := b; demo_confirmed := demo_confirmed c;
     objections := objections c |}.

(** [$set] of [status], [end_time] and [exit_reason] together. *)
Definition set_ended (st : CallStatus) (now : datetime) (r : ExitReason)
    (c : t) : t :=
  {| id := id c; session_id := session_id c; status := st;
     fsm_state := fsm_state c; language := language c;
     test_mode := test_mode c; start_time := start_time c;
     end_time := Some now; exit_reason := Some r;
     turns := turns c;
     qualification_data := qualification_data c;
     demo_intent := demo_intent c; demo_confirmed := demo_confirmed c;
     objections := objections c |}.
End Call.

Record WebcallStartRequest := {
  start_test_mode : bool;
  start_language : Language }.

Record WebcallStartResponse := {
  sr_call_id : string;
  sr_session_id : string;
  sr_initial_message : string;
  sr_fsm_state : FSMState;
  sr_audio_url : option string }.

Record WebcallInputRequest := {
  in_call_id : string;
  in_user_input : string }.

Record WebcallInputResponse := {
  ir_call_id : string;
  ir_aira_response : string;
  ir_fsm_state : FSMState;
  ir_audio_url : option string;
  ir_is_final : bool }.

Definition has_id (call_id : string) (c : Call.t) : bool :=
  bool_decide (Call.id c = call_id).

Definition has_id_active (call_id : string) (c : Call.t) : bool :=
  has_id call_id c && bool_decide (Call.status c = CS_ACTIVE).

Definition webcall_start (call_id session_id turn_id : string)
    (turn_now start_now : datetime) (request : WebcallStartRequest)
    : M Call.t WebcallStartResponse :=
  match get_simulated_response GREETING "" (start_language request) with
  | None => raise internal_error
  | Some (initial_message, _, _) =>
      let call :=
        {| Call.id := call_id;
           Call.session_id := session_id;
           Call.status := CS_ACTIVE;
           Call.fsm_state := GREETING;
           Call.language := start_language request;
           Call.test_mode := start_test_mode request;
           Call.start_time := start_now;
           Call.end_time := None;
           Call.exit_reason := None;
           Call.turns :=
             [ {| CallTurn.id := turn_id;
                  CallTurn.timestamp := turn_now;
                  CallTurn.speaker := "aira";
                  CallTurn.text := initial_message;
                  CallTurn.audio_url := None;
                  CallTurn.fsm_state := GREETING |} ];
           Call.qualification_data := ∅;
           Call.demo_intent := false;
           Call.demo_confirmed := false;
           Call.objections := [] |} in
      insert_one call;;
      mret {| sr_call_id := call_id;
              sr_session_id := session_id;
              sr_initial_message := initial_message;
              sr_fsm_state := GREETING;
              sr_audio_url := Some ("/api/audio/" +:+ call_id +:+ "/0") |}
  end.

Definition qualification_updates_of (user_input : string) : gmap string bool :=
  let u1 : gmap string bool :=
    if str_in "company" (lower user_input) || str_in "industry" (lower user_input)
    then {[ "industry_mentioned" := true ]} else ∅ in
  if str_in "demo" (lower user_input) || str_in "yes" (lower user_input)
  then <[ "demo_intent" := true ]> u1 else u1.

(** The document update [update_data] that [webcall_input] sends: the
    [$push] of the two turns and the [$set] of the state, of the
    qualification keys, and of the end of the call when the answer is final. *)
Definition update_data (user_turn aira_turn : CallTurn.t) (next_state : FSMState)
    (qualification_updates : gmap string bool) (is_final : bool)
    (end_now : datetime) (c : Call.t) : Call.t :=
  let c := Call.push_turns [user_turn; aira_turn] c in
  let c := Call.set_fsm_state next_state c in
  let c := Call.set_qualification qualification_updates c in
  let c :=
    if bool_decide (qualification_updates !! "demo_intent" = Some true)
    then Call.set_demo_intent true c else c in
  if is_final
  then Call.set_ended CS_COMPLETED end_now ER_COMPLETED c
  else c.

Definition user_turn_of (user_turn_id : string) (user_now : datetime)
    (user_input : string) (current_state : FSMState) : CallTurn.t :=
  {| CallTurn.id := user_turn_id;
     CallTurn.timestamp := user_now;
     CallTurn.speaker := "user";
     CallTurn.text := user_input;
     CallTurn.audio_url := None;
     CallTurn.fsm_state := current_state |}.

Definition aira_turn_of (aira_turn_id : string) (aira_now : datetime)
    (response_text : string) (next_state : FSMState) : CallTurn.t :=
  {| CallTurn.id := aira_turn_id;
     CallTurn.timestamp := aira_now;
     CallTurn.speaker := "aira";
     CallTurn.text := response_text;
     CallTurn.audio_url := None;
     CallTurn.fsm_state := next_state |}.

Definition webcall_input (user_turn_id aira_turn_id : string)
    (user_now aira_now end_now : datetime) (request : WebcallInputRequest)
    : M Call.t WebcallInputResponse :=
  call_doc ← find_one (has_id (in_call_id request));
  match call_doc with
  | None => raise {| status_code := 404; detail := "Call not found" |}
  | Some call_doc =>
      if negb (bool_decide (Call.status call_doc = CS_ACTIVE))
      then raise {| status_code := 400; detail := "Call is not active" |}
      else
        let current_state := Call.fsm_state call_doc in
        let language := Call.language call_doc in
        let user_turn :=
          user_turn_of user_turn_id user_now (in_user_input request) current_state in
        match get_simulated_response current_state (in_user_input request) language with
        | None => raise internal_error
        | Some (response_text, next_state, is_final) =>
            let aira_turn :=
              aira_turn_of aira_turn_id aira_now response_text next_state in
            let qualification_updates :=
              qualification_updates_of (in_user_input request) in
            update_one (has_id (in_call_id request))
              (update_data user_turn aira_turn next_state qualification_updates
                 is_final end_now);;
            let turn_count := (length (Call.turns call_doc) + 2)%nat in
            mret {| ir_call_id := in_call_id request;
                    ir_aira_response := response_text;
                    ir_fsm_state := next_state;
                    ir_audio_url :=
                      Some ("/api/audio/" +:+ in_call_id request +:+ "/"
                            +:+ pretty (turn_count - 1)%nat);
                    ir_is_final := is_final |}
        end
  end.

(** The matched count of the [update_one] equals PyMongo's
    [modified_count] here: a matched document has status active and the
    update sets it to completed. *)
Definition webcall_end (now : datetime) (call_id : string)
    : M Call.t (string * string) :=
  modified_count ← update_one (has_id_active call_id)
                     (Call.set_ended CS_COMPLETED now ER_USER_HANGUP);
  if bool_decide (modified_count = 0)
  then raise {| status_code := 404; detail := "Active call not found" |}
  else mret ("Call ended", call_id).

(** ** Prompt version store *)

Module Prompt.
Record t := {
  id : string;
  fsm_state : FSMState;
  language : Language;
  text : string;
  status : PromptStatus;
  version : Z;
  created_at : datetime;
  updated_at : datetime;
  created_by : string;
  notes : option string }.

(** [$set] of [status] and [updated_at]. *)
Definition set_status (st : PromptStatus) (now : datetime) (p : t) : t :=
  {| id := id p; fsm_state := fsm_state p; language := language p;
     text := text p; status := st; version := version p;
     created_at := created_at p; updated_at := now;
     created_by := created_by p; notes := notes p |}.

(** [$set] of [text] and [updated_at], and of [notes] when given. *)
Definition set_text (txt : string) (now : datetime)
    (new_notes : option string) (p : t) : t :=
  {| id := id p; fsm_state := fsm_state p; language := language p;
     text := txt; status := status p; version := version p;
     created_at := created_at p; updated_at := now;
     created_by := created_by p;
     notes := match new_notes with Some n => Some n | None => notes p end |}.
End Prompt.

Record PromptCreateRequest := {
  cr_fsm_state : FSMState;
  cr_language : Language;
  cr_text : string;
  cr_notes : option string }.

Record PromptUpdateRequest := {
  up_text : string;
  up_notes : option string }.

Record PromptMarkWeakRequest := {
  mw_replacement_text : string;
  mw_notes : option string }.

Definition prompt_has_id (prompt_id : string) (p : Prompt.t) : bool :=
  bool_decide (Prompt.id p = prompt_id).

Definition in_lineage (s : FSMState) (l : Language) (p : Prompt.t) : bool :=
  bool_decide (Prompt.fsm_state p = s) && bool_decide (Prompt.language p = l).

Definition active_in_lineage (s : FSMState) (l : Language) (p : Prompt.t) : bool :=
  in_lineage s l p && bool_decide (Prompt.status p = PS_ACTIVE).

(** [.sort("version", -1).limit(1).to_list(1)]: a document of greatest
    version, none for an empty result. *)
Fixpoint sort_version_desc_limit_1 (ps : list Prompt.t) : list Prompt.t :=
  match ps with
  | [] => []
  | p :: rest =>
      match sort_version_desc_limit_1 rest with
      | [] => [p]
      | q :: _ => if Prompt.version p <? Prompt.version q then [q] else [p]
      end
  end.

Definition create_prompt (new_id : string) (created_now updated_now : datetime)
    (request : PromptCreateRequest) : M Prompt.t Prompt.t :=
  found ← find (in_lineage (cr_fsm_state request) (cr_language request));
  let existing := sort_version_desc_limit_1 found in
  let version :=
    match existing with
    | [] => 1
    | e :: _ => Prompt.version e + 1
    end in
  let prompt :=
    {| Prompt.id := new_id;
       Prompt.fsm_state := cr_fsm_state request;
       Prompt.language := cr_language request;
       Prompt.text := cr_text request;
       Prompt.status := PS_DRAFT;
       Prompt.version := version;
       Prompt.created_at := created_now;
       Prompt.updated_at := updated_now;
       Prompt.created_by := "admin";
       Prompt.notes := cr_notes request |} in
  insert_one prompt;;
  mret prompt.

(** The second [find_one] of a handler, whose document is returned as a
    [Prompt]; a missing document would be an uncaught exception. *)
Definition read_back (prompt_id : string) : M Prompt.t Prompt.t :=
  updated ← find_one (prompt_has_id prompt_id);
  match updated with
  | Some p => mret p
  | None => raise internal_error
  end.

Definition update_prompt (now : datetime) (prompt_id : string)
    (request : PromptUpdateRequest) : M Prompt.t Prompt.t :=
  prompt ← find_one (prompt_has_id prompt_id);
  match prompt with
  | None => raise {| status_code := 404; detail := "Prompt not found" |}
  | Some prompt =>
      if bool_decide (Prompt.status prompt = PS_ACTIVE)
      then raise {| status_code := 400;
                    detail := "Cannot edit active prompts. Create a new draft instead." |}
      else
        let new_notes :=
          if truthy_opt (up_notes request) then up_notes request else None in
        update_one (prompt_has_id prompt_id)
                   (Prompt.set_text (up_text request) now new_notes);;
        read_back prompt_id
  end.

Definition mark_prompt_weak (weak_now : datetime) (new_id : string)
    (created_now updated_now : datetime) (prompt_id : string)
    (request : PromptMarkWeakRequest) : M Prompt.t Prompt.t :=
  prompt ← find_one (prompt_has_id prompt_id);
  match prompt with
  | None => raise {| status_code := 404; detail := "Prompt not found" |}
  | Some prompt =>
      if negb (truthy (strip (mw_replacement_text request)))
      then raise {| status_code := 400;
                    detail := "Replacement text is required when marking a prompt as weak" |}
      else
        update_one (prompt_has_id prompt_id) (Prompt.set_status PS_WEAK weak_now);;
        let new_prompt :=
          {| Prompt.id := new_id;
             Prompt.fsm_state := Prompt.fsm_state prompt;
             Prompt.language := Prompt.language prompt;
             Prompt.text := mw_replacement_text request;
             Prompt.status := PS_DRAFT;
             Prompt.version := Prompt.version prompt + 1;
             Prompt.created_at := created_now;
             Prompt.updated_at := updated_now;
             Prompt.created_by := "admin";
             Prompt.notes :=
               if truthy_opt (mw_notes request) then mw_notes request
               else Some ("Replacement for weak prompt " +:+ prompt_id) |} in
        insert_one new_prompt;;
        mret new_prompt
  end.

Definition publish_prompt (archive_now publish_now : datetime)
    (prompt_id : string) : M Prompt.t Prompt.t :=
  prompt ← find_one (prompt_has_id prompt_id);
  match prompt with
  | None => raise {| status_code := 404; detail := "Prompt not found" |}
  | Some prompt =>
      if negb (bool_decide (Prompt.status prompt = PS_DRAFT))
      then raise {| status_code := 400;
                    detail := "Only draft prompts can be published" |}
      else
        update_many
          (active_in_lineage (Prompt.fsm_state prompt) (Prompt.language prompt))
          (Prompt.set_status PS_ARCHIVED archive_now);;
        update_one (prompt_has_id prompt_id)
                   (Prompt.set_status PS_ACTIVE publish_now);;
        read_back prompt_id
  end.

(** A request to the prompt store, with the identifiers and clock readings
    its handler draws. *)
Inductive PromptOp :=
| OpCreate (new_id : string) (created_now updated_now : datetime)
    (request : PromptCreateRequest)
| OpUpdate (now : datetime) (prompt_id : string) (request : PromptUpdateRequest)
| OpMarkWeak (weak_now : datetime) (new_id : string)
    (created_now updated_now : datetime) (prompt_id : string)
    (request : PromptMarkWeakRequest)
| OpPublish (archive_now publish_now : datetime) (prompt_id : string).

Definition prompt_handler (op : PromptOp) : M Prompt.t Prompt.t :=
  match op with
  | OpCreate i c u r => create_prompt i c u r
  | OpUpdate n i r => update_prompt n i r
  | OpMarkWeak w i c u p r => mark_prompt_weak w i c u p r
  | OpPublish a p i => publish_prompt a p i
  end.

(** Every collection written while the requests [ops] are served one after
    the other from [db], oldest first. *)
Fixpoint prompt_writes (ops : list PromptOp) (db : list Prompt.t)
    : list (list Prompt.t) :=
  match ops with
  | [] => []
  | op :: rest =>
      let ws := fst (prompt_handler op db) in
      ws ++ prompt_writes rest (final db ws)
  end.

Definition prompt_instants (ops : list PromptOp) (db : list Prompt.t)
    : list (list Prompt.t) :=
  db :: prompt_writes ops db.

Definition prompt_run (ops : list PromptOp) (db : list Prompt.t) : list Prompt.t :=
  final db (prompt_writes ops db).

(** ** Sequences of requests to the call session engine *)

Inductive CallOp :=
| OpStart (call_id session_id turn_id : string) (turn_now start_now : datetime)
    (request : WebcallStartRequest)
| OpInput (user_turn_id aira_turn_id : string)
    (user_now aira_now end_now : datetime) (request : WebcallInputRequest)
| OpEnd (now : datetime) (call_id : string).

Inductive CallResult :=
| Started (r : WebcallStartResponse)
| Answered (r : WebcallInputResponse)
| Ended (r : string * string).

Definition call_handler (op : CallOp) : M Call.t CallResult :=
  match op with
  | OpStart c s t tn sn r => x ← webcall_start c s t tn sn r; mret (Started x)
  | OpInput u a un an en r => x ← webcall_input u a un an en r; mret (Answered x)
  | OpEnd n c => x ← webcall_end n c; mret (Ended x)
  end.

(** One served request: the collection it found, the request, its outcome. *)
Record Event := {
  ev_before : list Call.t;
  ev_op : CallOp;
  ev_outcome : Outcome CallResult }.

Fixpoint call_run (ops : list CallOp) (db : list Call.t)
    : list Event * list Call.t :=
  match ops with
  | [] => ([], db)
  | op :: rest =>
      let '(db', r) := run (call_handler op) db in
      let '(evs, db'') := call_run rest db' in
      ({| ev_before := db; ev_op := op; ev_outcome := r |} :: evs, db'')
  end.

(** The call identifiers drawn by the [start] requests of [ops]. *)
Fixpoint start_ids (ops : list CallOp) : list string :=
  match ops with
  | [] => []
  | OpStart c _ _ _ _ _ :: rest => c :: start_ids rest
  | _ :: rest => start_ids rest
  end.

(** ** Properties of the specification *)

Definition active_count (s : FSMState) (l : Language) (db : list Prompt.t) : nat :=
  length (List.filter (active_in_lineage s l) db).

Definition at_most_one_active (db : list Prompt.t) : Prop :=
  ∀ s l, (active_count s l db ≤ 1)%nat.

(** The versions of a lineage, in creation order. *)
Definition lineage_versions (s : FSMState) (l : Language) (db : list Prompt.t)
    : list Z :=
  List.map Prompt.version (List.filter (in_lineage s l) db).

(** The list 1, 2, ..., n. *)
Definition one_to (n : nat) : list Z := List.map Z.of_nat (seq 1 n).

Definition gapless_from_1 (vs : list Z) : Prop := vs = one_to (length vs).

Definition is_create_or_mark_weak (op : PromptOp) : bool :=
  match op with
  | OpCreate _ _ _ _ | OpMarkWeak _ _ _ _ _ _ => true
  | _ => false
  end.

Definition is_publish (op : PromptOp) : bool :=
  match op with OpPublish _ _ _ => true | _ => false end.

Fixpoint all_space (s : string) : bool :=
  match s with
  | EmptyString => true
  | String c t => is_space c && all_space t
  end.

(** [end_time] is set exactly when the call is not active, and so is
    [exit_reason]. *)
Definition ended_iff_not_active (c : Call.t) : Prop :=
  (is_Some (Call.end_time c) ↔ Call.status c ≠ CS_ACTIVE)
  ∧ (is_Some (Call.exit_reason c) ↔ Call.status c ≠ CS_ACTIVE).

(** [ev] is a [submitInput] on [call_id] that returned [is_final = True]. *)
Definition final_input_on (call_id : string) (ev : Event) : Prop :=
  ∃ u a un an en utterance resp,
    ev_op ev = OpInput u a un an en
                 {| in_call_id := call_id; in_user_input := utterance |}
    ∧ ev_outcome ev = Return (Answered resp)
    ∧ ir_is_final resp = true.

(** [ev] is an [end] on [call_id], issued when a call of that id existed. *)
Definition end_called_on (call_id : string) (ev : Event) : Prop :=
  ∃ now, ev_op ev = OpEnd now call_id
         ∧ In call_id (List.map Call.id (ev_before ev)).

(** The two turns a served [submitInput] on [call_id] appends: the user's,
    tagged with the state the call was in, then the agent's, tagged with the
    state returned. *)
Definition event_turns (call_id : string) (ev : Event) : list CallTurn.t :=
  match ev_op ev, ev_outcome ev, first_match (has_id call_id) (ev_before ev) with
  | OpInput u a un an _ request, Return (Answered resp), Some c0 =>
      [ user_turn_of u un (in_user_input request) (Call.fsm_state c0);
        aira_turn_of a an (ir_aira_response resp) (ir_fsm_state resp) ]
  | _, _, _ => []
  end.

(** [ev] is a successful [submitInput] on [call_id]: the call was active,
    the answer is the resolver's answer for the state the call was in, and
    the turns appended are the user's, tagged with that state, then the
    agent's, tagged with the state the resolver returned. *)
Definition served_input_on (call_id : string) (ev : Event) : Prop :=
  ∃ u a un an en utterance resp c0,
    ev_op ev = OpInput u a un an en
                 {| in_call_id := call_id; in_user_input := utterance |}
    ∧ ev_outcome ev = Return (Answered resp)
    ∧ first_match (has_id call_id) (ev_before ev) = Some c0
    ∧ Call.status c0 = CS_ACTIVE
    ∧ get_simulated_response (Call.fsm_state c0) utterance (Call.language c0)
      = Some (ir_aira_response resp, ir_fsm_state resp, ir_is_final resp)
    ∧ event_turns call_id ev
      = [ user_turn_of u un utterance (Call.fsm_state c0);
          aira_turn_of a an (ir_aira_response resp) (ir_fsm_state resp) ].

Definition is_input_on (call_id : string) (op : CallOp) : Prop :=
  ∃ u a un an en utterance,
    op = OpInput u a un an en
           {| in_call_id := call_id; in_user_input := utterance |}.

Definition succeeded (ev : Event) : Prop :=
  ∃ r, ev_outcome ev = Return r.

(** No document of [db'] is active unless the document at the same place
    of [db] was: going from [db] to [db'] activated nothing. *)
Definition no_new_active (db db' : list Prompt.t) : Prop :=
  ∀ i p', db' !! i = Some p' → Prompt.status p' = PS_ACTIVE →
          ∃ p, db !! i = Some p ∧ Prompt.status p = PS_ACTIVE.

(** ** Example data *)

Definition qualification_en (text : string) : PromptCreateRequest :=
  {| cr_fsm_state := QUALIFICATION; cr_language := ENGLISH;
     cr_text := text; cr_notes := None |}.

(** A store with one prompt, created and then marked weak, and the draft
    that replaced it. *)
Definition weak_store : list Prompt.t :=
  prompt_run
    [ OpCreate "p1" 0 0 (qualification_en "old");
      OpMarkWeak 1 "p2" 2 2 "p1"
        {| mw_replacement_text := "better"; mw_notes := None |} ] [].

(** One prompt is created and published, then a second one is created. *)
Definition publish_then_draft : list PromptOp :=
  [ OpCreate "p1" 0 0 (qualification_en "old");
    OpPublish 1 2 "p1";
    OpCreate "p2" 3 3 (qualification_en "new") ].

Definition one_active_store : list Prompt.t := prompt_run publish_then_draft [].

(** A store whose first prompt was published and then archived by the
    publication of the second. *)
Definition archived_store : list Prompt.t :=
  prompt_run (publish_then_draft ++ [ OpPublish 4 5 "p2" ]) [].

(** Two prompts are created in one lineage, then the older one is marked
    weak. *)
Definition mark_older_weak : list PromptOp :=
  [ OpCreate "p1" 0 0 (qualification_en "first");
    OpCreate "p2" 1 1 (qualification_en "second");
    OpMarkWeak 2 "p3" 3 3 "p1"
      {| mw_replacement_text := "third"; mw_notes := None |} ].

Definition start_english (call_id session_id turn_id : string) : CallOp :=
  OpStart call_id session_id turn_id 0 0
    {| start_test_mode := true; start_language := ENGLISH |}.

Definition say (n : Z) (call_id utterance : string) : CallOp :=
  OpInput "u" "a" n n n
    {| in_call_id := call_id; in_user_input := utterance |}.

(** The collection after one English session was started. *)
Definition started_store : list Call.t :=
  snd (call_run [start_english "c1" "s1" "t0"] []).

Definition two_inputs : list CallOp :=
  [ say 1 "c1" "tell me more"; say 2 "c1" "we are a small company" ].

(** How a call stands with respect to the requests served so far: active and
    never ended; or completed by a final answer; or completed by [end]. *)
Definition call_history_ok (evs : list Event) (c : Call.t) : Prop :=
  (Call.status c = CS_ACTIVE
   ∧ Call.end_time c = None ∧ Call.exit_reason c = None
   ∧ ¬ Exists (final_input_on (Call.id c)) evs
   ∧ ¬ Exists (end_called_on (Call.id c)) evs)
  ∨ (Call.status c = CS_COMPLETED
     ∧ is_Some (Call.end_time c) ∧ Call.exit_reason c = Some ER_COMPLETED
     ∧ Exists (final_input_on (Call.id c)) evs)
  ∨ (Call.status c = CS_COMPLETED
     ∧ is_Some (Call.end_time c) ∧ Call.exit_reason c = Some ER_USER_HANGUP
     ∧ ¬ Exists (final_input_on (Call.id c)) evs
     ∧ Exists (end_called_on (Call.id c)) evs).

(** A session: started, one input, ended by the user; and a second session
    left running. *)
Definition hang_up_session : list CallOp :=
  [ start_english "c1" "s1" "t0";
    say 1 "c1" "tell me more";
    start_english "c2" "s2" "t1";
    OpEnd 2 "c1" ].

(** What holds of the collection [db] and the served requests [evs] after
    the requests [ops]: the calls are those started, in order; each call
    stands as [call_history_ok] says; and a request counted as a final
    answer or an [end] on an identifier concerns a call of the collection. *)
Definition engine_invariant (ops : list CallOp) (evs : list Event)
    (db : list Call.t) : Prop :=
  List.map Call.id db = start_ids ops
  ∧ Forall (call_history_ok evs) db
  ∧ (∀ k, Exists (final_input_on k) evs ∨ Exists (end_called_on k) evs →
          In k (List.map Call.id db)).

(** [op] starts an English session with the call identifier [call_id]. *)
Definition starts_english (call_id : string) (op : CallOp) : Prop :=
  ∃ session_id turn_id turn_now start_now test_mode,
    op = OpStart call_id session_id turn_id turn_now start_now
           {| start_test_mode := test_mode; start_language := ENGLISH |}.

(** [op] submits [utterance] on the call [call_id]. *)
Definition says (call_id utterance : string) (op : CallOp) : Prop :=
  ∃ u a un an en,
    op = OpInput u a un an en
           {| in_call_id := call_id; in_user_input := utterance |}.

(** The end-to-end scenario of the specification. *)
Definition demo_scenario : list CallOp :=
  [ start_english "c1" "s1" "t0";
    say 1 "c1" "I am interested in a demo";
    say 2 "c1" "yes please";
    say 3 "c1" "no thanks, ok bye" ].

Definition is_create (op : PromptOp) : bool :=
  match op with OpCreate _ _ _ _ => true | _ => false end.

Definition gapless_store (db : list Prompt.t) : Prop :=
  ∀ s l, gapless_from_1 (lineage_versions s l db).

(** ** FSM definitions (read-only) *)

Record FSMStateInfo := {
  info_state : FSMState;
  info_description : string;
  info_transitions : list FSMState;
  info_is_terminal : bool }.

(** The dictionary [FSM_DEFINITIONS]; [None] would be a missing key. *)
Definition FSM_DEFINITIONS (state : FSMState) : option FSMStateInfo :=
  match state with
  | GREETING =>
      Some {| info_state := GREETING;
              info_description := "Initial greeting and introduction";
              info_transitions := [LANGUAGE_SELECTION; QUALIFICATION];
              info_is_terminal := false |}
  | LANGUAGE_SELECTION =>
      Some {| info_state := LANGUAGE_SELECTION;
              info_description := "Detect or confirm user's preferred language";
              info_transitions := [QUALIFICATION];
              info_is_terminal := false |}
  | QUALIFICATION =>
      Some {| info_state := QUALIFICATION;
              info_description := "Gather qualification information from the user";
              info_transitions := [OBJECTION_HANDLING; DEMO_OFFER; CLOSING];
              info_is_terminal := false |}
  | OBJECTION_HANDLING =>
      Some {| info_state := OBJECTION_HANDLING;
              info_description := "Handle user objections and concerns";
              info_transitions := [QUALIFICATION; DEMO_OFFER; CLOSING];
              info_is_terminal := false |}
  | DEMO_OFFER =>
      Some {| info_state := DEMO_OFFER;
              info_description := "Offer a product demo to qualified users";
              info_transitions := [CONFIRMATION; OBJECTION_HANDLING; CLOSING];
              info_is_terminal := false |}
  | CONFIRMATION =>
      Some {| info_state := CONFIRMATION;
              info_description := "Confirm demo scheduling details";
              info_transitions := [CLOSING; TRANSFER];
              info_is_terminal := false |}
  | CLOSING =>
      Some {| info_state := CLOSING;
              info_description := "End the conversation gracefully";
              info_transitions := [];
              info_is_terminal := true |}
  | TRANSFER =>
      Some {| info_state := TRANSFER;
              info_description := "Transfer to human agent";
              info_transitions := [];
              info_is_terminal := true |}
  | FALLBACK =>
      Some {| info_state := FALLBACK;
              info_description := "Handle unrecognized inputs";
              info_transitions := [GREETING; QUALIFICATION];
              info_is_terminal := false |}
  end.

(** The keys of [FSM_DEFINITIONS], in the order of the literal. *)
Definition fsm_keys : list FSMState :=
  [ GREETING; LANGUAGE_SELECTION; QUALIFICATION; OBJECTION_HANDLING;
    DEMO_OFFER; CONFIRMATION; CLOSING; TRANSFER; FALLBACK ].

Definition get_fsm_states : list FSMStateInfo :=
  omap FSM_DEFINITIONS fsm_keys.

Definition get_fsm_state (state : FSMState) : Outcome FSMStateInfo :=
  match FSM_DEFINITIONS state with
  | None => Raise {| status_code := 404; detail := "FSM state not found" |}
  | Some info => Return info
  end.

(** The values of the string enumerations, by which MongoDB orders them. *)
Definition FSMState_value (s : FSMState) : string :=
  match s with
  | GREETING => "greeting"
  | LANGUAGE_SELECTION => "language_selection"
  | QUALIFICATION => "qualification"
  | OBJECTION_HANDLING => "objection_handling"
  | DEMO_OFFER => "demo_offer"
  | CONFIRMATION => "confirmation"
  | CLOSING => "closing"
  | TRANSFER => "transfer"
  | FALLBACK => "fallback"
  end.

Definition Language_value (l : Language) : string :=
  match l with
  | ENGLISH => "en" | SPANISH => "es" | FRENCH => "fr" | GERMAN => "de"
  end.

(** ** Read-only endpoints *)

(** [cursor.sort(...)]: a stable insertion sort by the order [le]. *)
Fixpoint insert_by {D} (le : D -> D -> bool) (x : D) (l : list D) : list D :=
  match l with
  | [] => [x]
  | y :: l' => if le x y then x :: l else y :: insert_by le x l'
  end.

Definition sort_by {D} (le : D -> D -> bool) (l : list D) : list D :=
  List.fold_right (insert_by le) [] l.

Record CallListItem := {
  li_id : string;
  li_session_id : string;
  li_status : CallStatus;
  li_fsm_state : FSMState;
  li_language : Language;
  li_start_time : datetime;
  li_end_time : option datetime;
  li_exit_reason : option ExitReason;
  li_demo_intent : bool;
  li_demo_confirmed : bool;
  li_turn_count : Z }.

Definition call_list_item (c : Call.t) : CallListItem :=
  {| li_id := Call.id c;
     li_session_id := Call.session_id c;
     li_status := Call.status c;
     li_fsm_state := Call.fsm_state c;
     li_language := Call.language c;
     li_start_time := Call.start_time c;
     li_end_time := Call.end_time c;
     li_exit_reason := Call.exit_reason c;
     li_demo_intent := Call.demo_intent c;
     li_demo_confirmed := Call.demo_confirmed c;
     li_turn_count := Z.of_nat (length (Call.turns c)) |}.

Record CallListResponse := {
  lr_calls : list CallListItem;
  lr_total : Z;
  lr_page : Z;
  lr_page_size : Z;
  lr_total_pages : Z }.

Record QualificationSnapshot := {
  qs_call_id : string;
  qs_captured_answers : gmap string bool;
  qs_objections : list string;
  qs_demo_intent : bool;
  qs_demo_confirmed : bool;
  qs_language : Language;
  qs_timestamp : datetime }.

Record Stats := {
  total_calls : Z;
  active_calls : Z;
  completed_calls : Z;
  demo_intents : Z }.

Definition is_active (c : Call.t) : bool :=
  bool_decide (Call.status c = CS_ACTIVE).

Definition is_completed (c : Call.t) : bool :=
  bool_decide (Call.status c = CS_COMPLETED).

(** [count_documents]. *)
Definition count_documents {D} (P : D -> bool) (db : list D) : Z :=
  Z.of_nat (length (List.filter P db)).

Section StoredTimes.
(** [start_time] is stored as the text [isoformat()] gives, and MongoDB
    sorts and compares that text. *)
Variable isoformat : datetime -> string.

(** [.sort("start_time", -1)]: the later text first. *)
Definition later_first (c d : Call.t) : bool :=
  String.leb (isoformat (Call.start_time d)) (isoformat (Call.start_time c)).

Definition get_live_calls (db : list Call.t) : list CallListItem :=
  List.map call_list_item
    (take 100 (sort_by later_first (List.filter is_active db))).

(** The query document [get_calls] builds: a filter is added for a given
    exit reason, demo intent and status, and for a non-empty date bound. *)
Definition call_query (exit_reason : option ExitReason)
    (demo_intent : option bool) (date_from date_to : option string)
    (status : option CallStatus) (c : Call.t) : bool :=
  match exit_reason with
  | Some r => bool_decide (Call.exit_reason c = Some r)
  | None => true
  end
  && match demo_intent with
     | Some b => bool_decide (Call.demo_intent c = b)
     | None => true
     end
  && match status with
     | Some s => bool_decide (Call.status c = s)
     | None => true
     end
  && match date_from with
     | Some f => if truthy f
                 then String.leb f (isoformat (Call.start_time c)) else true
     | None => true
     end
  && match date_to with
     | Some t => if truthy t
                 then String.leb (isoformat (Call.start_time c)) t else true
     | None => true
     end.

(** [page >= 1] and [1 <= page_size <= 100] are enforced by the [Query]
    declarations before the handler runs. *)
Definition get_calls (page page_size : Z) (exit_reason : option ExitReason)
    (demo_intent : option bool) (date_from date_to : option string)
    (status : option CallStatus) (db : list Call.t) : CallListResponse :=
  let query := call_query exit_reason demo_intent date_from date_to status in
  let total := count_documents query db in
  let total_pages := (total + page_size - 1) / page_size in
  let skip := (page - 1) * page_size in
  let calls :=
    take (Z.to_nat page_size)
      (drop (Z.to_nat skip) (sort_by later_first (List.filter query db))) in
  {| lr_calls := List.map call_list_item calls;
     lr_total := total;
     lr_page := page;
     lr_page_size := page_size;
     lr_total_pages := total_pages |}.
End StoredTimes.

Definition get_call_detail (call_id : string) : M Call.t Call.t :=
  call ← find_one (has_id call_id);
  match call with
  | None => raise {| status_code := 404; detail := "Call not found" |}
  | Some call => mret call
  end.

Definition get_call_qualification (call_id : string)
    : M Call.t QualificationSnapshot :=
  call ← find_one (has_id call_id);
  match call with
  | None => raise {| status_code := 404; detail := "Call not found" |}
  | Some call =>
      mret {| qs_call_id := call_id;
              qs_captured_answers := Call.qualification_data call;
              qs_objections := Call.objections call;
              qs_demo_intent := Call.demo_intent call;
              qs_demo_confirmed := Call.demo_confirmed call;
              qs_language := Call.language call;
              qs_timestamp := Call.start_time call |}
  end.

Definition get_stats (db : list Call.t) : Stats :=
  {| total_calls := count_documents (λ _, true) db;
     active_calls := count_documents is_active db;
     completed_calls := count_documents is_completed db;
     demo_intents := count_documents (λ c, bool_decide (Call.demo_intent c = true)) db |}.

(** The query document of [get_prompts]. *)
Definition prompt_query (fsm_state : option FSMState)
    (language : option Language) (status : option PromptStatus)
    (p : Prompt.t) : bool :=
  match fsm_state with
  | Some s => bool_decide (Prompt.fsm_state p = s)
  | None => true
  end
  && match language with
     | Some l => bool_decide (Prompt.language p = l)
     | None => true
     end
  && match status with
     | Some s => bool_decide (Prompt.status p = s)
     | None => true
     end.

(** [.sort([("fsm_state", 1), ("language", 1), ("version", -1)])]. *)
Definition prompt_order (p q : Prompt.t) : bool :=
  match String.compare (FSMState_value (Prompt.fsm_state p))
          (FSMState_value (Prompt.fsm_state q)) with
  | Lt => true
  | Gt => false
  | Eq =>
      match String.compare (Language_value (Prompt.language p))
              (Language_value (Prompt.language q)) with
      | Lt => true
      | Gt => false
      | Eq => Prompt.version q <=? Prompt.version p
      end
  end.

Definition get_prompts (fsm_state : option FSMState)
    (language : option Language) (status : option PromptStatus)
    (db : list Prompt.t) : list Prompt.t :=
  take 1000
    (sort_by prompt_order
       (List.filter (prompt_query fsm_state language status) db)).

Definition get_prompt (prompt_id : string) : M Prompt.t Prompt.t :=
  prompt ← find_one (prompt_has_id prompt_id);
  match prompt with
  | None => raise {| status_code := 404; detail := "Prompt not found" |}
  | Some prompt => mret prompt
  end.

(** ** Further properties: vocabulary *)

(** The three keyword families of the resolver, on the lowered utterance. *)
Definition has_affirmative (user_input : string) : bool :=
  str_in "demo" (lower user_input) || str_in "yes" (lower user_input)
  || str_in "interested" (lower user_input).

Definition has_negative (user_input : string) : bool :=
  str_in "no" (lower user_input) || str_in "not interested" (lower user_input).

Definition has_objection (user_input : string) : bool :=
  str_in "concern" (lower user_input) || str_in "expensive" (lower user_input)
  || str_in "but" (lower user_input).

Definition no_keyword (user_input : string) : bool :=
  negb (has_affirmative user_input) && negb (has_negative user_input)
  && negb (has_objection user_input).

(** The states the resolver can answer with. *)
Definition answer_states : list FSMState :=
  [ QUALIFICATION; DEMO_OFFER; CONFIRMATION; CLOSING; OBJECTION_HANDLING ].

(** The states without an entry in [responses]. *)
Definition untemplated (state : FSMState) : bool :=
  match state with
  | LANGUAGE_SELECTION | TRANSFER | FALLBACK => true
  | _ => false
  end.

(** [to] is a declared successor of [from] in [FSM_DEFINITIONS]. *)
Definition declared_transition (from to : FSMState) : Prop :=
  ∃ info, FSM_DEFINITIONS from = Some info ∧ In to (info_transitions info).

(** The exchanges of a transcript: each is a user turn tagged with the
    state [s] the call was in, followed by the agent's turn, whose text and
    tag are the resolver's answer to the user's text from [s]; the next
    exchange starts from the agent's tag. *)
Inductive exchanges (language : Language)
    : FSMState -> list CallTurn.t -> FSMState -> Prop :=
| exchanges_nil s : exchanges language s [] s
| exchanges_cons s u a rest s' is_final :
    CallTurn.speaker u = "user" →
    CallTurn.fsm_state u = s →
    CallTurn.speaker a = "aira" →
    get_simulated_response s (CallTurn.text u) language
    = Some (CallTurn.text a, CallTurn.fsm_state a, is_final) →
    exchanges language (CallTurn.fsm_state a) rest s' →
    exchanges language s (u :: a :: rest) s'.

(** The turns of a call are the agent's opening turn, tagged greeting, and
    then exchanges that lead from greeting to the call's current state. *)
Definition transcript_ok (c : Call.t) : Prop :=
  ∃ opening rest,
    Call.turns c = opening :: rest
    ∧ CallTurn.speaker opening = "aira"
    ∧ CallTurn.fsm_state opening = GREETING
    ∧ exchanges (Call.language c) GREETING rest (Call.fsm_state c).

(** A call is active, not ended and not in closing; or completed by a final
    answer, and then in closing; or completed by [end] outside closing.  Its
    state is greeting or a state the resolver answers with. *)
Definition lifecycle_ok (c : Call.t) : Prop :=
  ((Call.status c = CS_ACTIVE
    ∧ Call.end_time c = None ∧ Call.exit_reason c = None
    ∧ Call.fsm_state c ≠ CLOSING)
   ∨ (Call.status c = CS_COMPLETED
      ∧ is_Some (Call.end_time c) ∧ Call.exit_reason c = Some ER_COMPLETED
      ∧ Call.fsm_state c = CLOSING)
   ∨ (Call.status c = CS_COMPLETED
      ∧ is_Some (Call.end_time c) ∧ Call.exit_reason c = Some ER_USER_HANGUP
      ∧ Call.fsm_state c ≠ CLOSING))
  ∧ In (Call.fsm_state c) (GREETING :: answer_states).

(** A user turn of the transcript whose lowered text has one of two words. *)
Definition user_said (w1 w2 : string) (turns : list CallTurn.t) : Prop :=
  Exists (λ t, CallTurn.speaker t = "user"
               ∧ str_in w1 (lower (CallTurn.text t))
                 || str_in w2 (lower (CallTurn.text t)) = true) turns.

Definition qualification_ok (c : Call.t) : Prop :=
  (Call.demo_intent c = true
   ↔ Call.qualification_data c !! "demo_intent" = Some true)
  ∧ (Call.qualification_data c !! "demo_intent" = Some true
     ↔ user_said "demo" "yes" (Call.turns c))
  ∧ (Call.qualification_data c !! "industry_mentioned" = Some true
     ↔ user_said "company" "industry" (Call.turns c))
  ∧ (∀ k v, Call.qualification_data c !! k = Some v →
            v = true ∧ (k = "industry_mentioned" ∨ k = "demo_intent"))
  ∧ Call.demo_confirmed c = false
  ∧ Call.objections c = [].

(** How a stored call can differ later on: identity, session, language,
    test mode and start time are kept; turns are only appended; a set
    demo_intent and a present qualification key stay; a call that is not
    active is not changed at all. *)
Definition call_evolves (c c' : Call.t) : Prop :=
  Call.id c' = Call.id c
  ∧ Call.session_id c' = Call.session_id c
  ∧ Call.language c' = Call.language c
  ∧ Call.test_mode c' = Call.test_mode c
  ∧ Call.start_time c' = Call.start_time c
  ∧ (∃ more, Call.turns c' = Call.turns c ++ more)
  ∧ (Call.demo_intent c = true → Call.demo_intent c' = true)
  ∧ (∀ k, is_Some (Call.qualification_data c !! k) →
          is_Some (Call.qualification_data c' !! k))
  ∧ (Call.status c ≠ CS_ACTIVE → c' = c).

(** The statuses [s'] a stored prompt of status [s] can have later on: a
    draft any, an active prompt every one but draft, an archived prompt
    archived or weak, a weak prompt weak. *)
Definition status_step (s s' : PromptStatus) : bool :=
  match s, s' with
  | PS_DRAFT, _ => true
  | PS_ACTIVE, (PS_ACTIVE | PS_ARCHIVED | PS_WEAK) => true
  | PS_ARCHIVED, (PS_ARCHIVED | PS_WEAK) => true
  | PS_WEAK, PS_WEAK => true
  | _, _ => false
  end.

(** How a stored prompt can differ later on: identity, lineage, version and
    creation data are kept, and the status is one [status_step] allows. *)
Definition prompt_evolves (p p' : Prompt.t) : Prop :=
  Prompt.id p' = Prompt.id p
  ∧ Prompt.fsm_state p' = Prompt.fsm_state p
  ∧ Prompt.language p' = Prompt.language p
  ∧ Prompt.version p' = Prompt.version p
  ∧ Prompt.created_at p' = Prompt.created_at p
  ∧ Prompt.created_by p' = Prompt.created_by p
  ∧ status_step (Prompt.status p) (Prompt.status p') = true.


(** Each element of [l] is followed by one that [le] puts no earlier. *)
Fixpoint ordered {D} (le : D -> D -> bool) (l : list D) : Prop :=
  match l with
  | x :: (y :: _) as rest => le x y = true ∧ ordered le rest
  | _ => True
  end.


(** Every mark-weak request of [ops], served one after the other from [db],
    supersedes the prompt that is the newest of its lineage at that time
    (its version is the number of prompts of the lineage). *)
Fixpoint marks_newest_only (ops : list PromptOp) (db : list Prompt.t) : Prop :=
  match ops with
  | [] => True
  | op :: rest =>
      match op with
      | OpMarkWeak _ _ _ _ prompt_id _ =>
          match first_match (prompt_has_id prompt_id) db with
          | Some p =>
              Prompt.version p
              = Z.of_nat (length (lineage_versions (Prompt.fsm_state p)
                                    (Prompt.language p) db))
          | None => True
          end
      | _ => True
      end
      ∧ marks_newest_only rest (fst (run (prompt_handler op) db))
  end.

(** * Verification *)

(** ** The collection primitives *)

Section CollectionFacts.
Context {D : Type}.
Implicit Types (P Q : D -> bool) (f : D -> D) (db : list D) (d : D).

Lemma first_match_None P db :
  first_match P db = None ↔ ∀ d, In d db → P d = false.
Proof.
  induction db as [|x db IH]; simpl.
  - split; [intros _ d [] | done].
  - destruct (P x) eqn:Hx.
    + split; [done | intros H]. specialize (H x (or_introl eq_refl)). congruence.
    + rewrite IH. split.
      * intros H d [<- | Hd]; auto.
      * intros H d Hd. apply H. by right.
Qed.

(** The first match sits at an index before which nothing matches, and
    [update_first] rewrites exactly that index. *)
Lemma first_match_Some P f db d :
  first_match P db = Some d →
  ∃ i, db !! i = Some d ∧ P d = true
       ∧ (∀ j d', (j < i)%nat → db !! j = Some d' → P d' = false)
       ∧ update_first P f db = <[i := f d]> db.
Proof.
  induction db as [|x db IH]; simpl; [done |].
  destruct (P x) eqn:Hx.
  - intros [= ->]. exists 0%nat. repeat split; auto. intros j d' Hj. lia.
  - intros H. destruct (IH H) as (i & Hi & HP & Hlt & Hup).
    exists (S i). repeat split; auto.
    + intros [|j] d' Hj Hd'; simpl in Hd'; [congruence |].
      apply (Hlt j); [lia | done].
    + simpl. by rewrite Hup.
Qed.

Lemma first_match_In P db d :
  first_match P db = Some d → In d db ∧ P d = true.
Proof.
  induction db as [|x db IH]; simpl; [done |].
  destruct (P x) eqn:Hx.
  - intros [= ->]. auto.
  - intros H. destruct (IH H). auto.
Qed.

Lemma update_first_None P f db :
  first_match P db = None → update_first P f db = db.
Proof.
  induction db as [|x db IH]; simpl; [done |].
  destruct (P x); [done |]. intros H. by rewrite IH.
Qed.

Lemma first_match_app_r P db d :
  first_match P db = None →
  first_match P (db ++ [d]) = (if P d then Some d else None).
Proof.
  induction db as [|x db IH]; simpl; [done |].
  destruct (P x); [done | auto].
Qed.

Lemma first_match_app_l P db db' d :
  first_match P db = Some d → first_match P (db ++ db') = Some d.
Proof.
  induction db as [|x db IH]; simpl; [done |].
  destruct (P x); [done | auto].
Qed.

Lemma update_first_app_l P f db db' d :
  first_match P db = Some d →
  update_first P f (db ++ db') = update_first P f db ++ db'.
Proof.
  induction db as [|x db IH]; simpl; [done |].
  destruct (P x); [done |]. intros H. by rewrite IH.
Qed.

Lemma update_first_app_r P f db d :
  first_match P db = None → P d = true →
  update_first P f (db ++ [d]) = db ++ [f d].
Proof.
  induction db as [|x db IH]; simpl.
  - by intros _ ->.
  - destruct (P x); [done |]. intros H Hd. by rewrite IH.
Qed.

Lemma update_first_length P f db : length (update_first P f db) = length db.
Proof.
  induction db as [|x db IH]; simpl; [done |].
  destruct (P x); simpl; by rewrite ?IH.
Qed.

(** When the update keeps the filter's verdict on every document, the
    first match after the update is the updated first match. *)
Lemma first_match_update_first P f db d :
  (∀ x, P (f x) = P x) →
  first_match P db = Some d → first_match P (update_first P f db) = Some (f d).
Proof.
  intros Hf. induction db as [|x db IH]; simpl; [done |].
  destruct (P x) eqn:Hx; simpl.
  - intros [= ->]. by rewrite Hf, Hx.
  - rewrite Hx. auto.
Qed.
End CollectionFacts.

(** ** The resolver *)

(** The dictionary lookups of [get_simulated_response] never fail. *)
Lemma get_simulated_response_total state user_input language :
  ∃ text next_state is_final,
    get_simulated_response state user_input language
    = Some (text, next_state, is_final).
Proof.
  unfold get_simulated_response, detect_next_state.
  generalize (lower user_input). intros u.
  destruct (str_in "demo" u || str_in "yes" u || str_in "interested" u);
    [ destruct state, language; simpl; eauto |].
  destruct (str_in "no" u || str_in "not interested" u);
    [ destruct language; simpl; eauto |].
  destruct (str_in "concern" u || str_in "expensive" u || str_in "but" u);
    [ destruct language; simpl; eauto |].
  destruct state, language; simpl; eauto.
Qed.

(** The affirmative family is tested before the negative one: an utterance
    with an affirmative keyword is never resolved by the negative branch. *)
Lemma affirmative_checked_first state user_input language :
  str_in "demo" (lower user_input) || str_in "yes" (lower user_input)
    || str_in "interested" (lower user_input) = true →
  detect_next_state state user_input language
  = Some (if decide (state = QUALIFICATION) then DEMO_OFFER else CONFIRMATION).
Proof. unfold detect_next_state. by intros ->. Qed.

(** Without an affirmative keyword, a negative keyword resolves to closing. *)
Lemma negative_without_affirmative state user_input language :
  str_in "demo" (lower user_input) || str_in "yes" (lower user_input)
    || str_in "interested" (lower user_input) = false →
  str_in "no" (lower user_input) = true →
  ∃ text, get_simulated_response state user_input language
          = Some (text, CLOSING, true).
Proof.
  unfold get_simulated_response, detect_next_state. intros -> ->. simpl.
  destruct language; simpl; eauto.
Qed.

(** C3 (the code departs from the claim).  The utterance "not interested"
    contains the affirmative keyword "interested", which the source tests
    before the negative keywords: in every state and language it resolves to
    demo_offer (from qualification) or confirmation (from any other state)
    with [is_final = False], never to closing. *)
Theorem not_interested_resolves_affirmative :
  ∀ state language,
    ∃ text,
      get_simulated_response state "not interested" language
      = Some (text,
              if decide (state = QUALIFICATION) then DEMO_OFFER else CONFIRMATION,
              false)
      ∧ (if decide (state = QUALIFICATION) then DEMO_OFFER else CONFIRMATION)
        ≠ CLOSING.
Proof.
  intros state language.
  destruct state, language; eexists; (split; [reflexivity | discriminate]).
Qed.

(** The opening message of a session: the resolver, asked from the greeting
    state with an empty utterance, moves to qualification and answers with
    the qualification template of the language (English for a language
    without templates). *)
Lemma opening_message language :
  ∃ text,
    get_simulated_response GREETING "" language = Some (text, QUALIFICATION, false)
    ∧ (responses QUALIFICATION ≫= λ table, get_or_english table language)
      = Some (text, QUALIFICATION, false).
Proof. destruct language; eexists; split; reflexivity. Qed.

Example opening_message_english :
  get_simulated_response GREETING "" ENGLISH
  = Some ("Great! Let me ask you a few questions. What industry is your company in?",
          QUALIFICATION, false).
Proof. reflexivity. Qed.

(** ** Session start *)

(** C8.  For every language and test-mode flag, and whatever the collection
    holds, [webcall_start] raises nothing: it appends one call, active, in
    the greeting state, holding exactly one agent turn tagged greeting whose
    text is the resolver's answer from the greeting state to the empty
    utterance, and it returns that text with the call and session
    identifiers it drew and the state greeting. *)
Theorem webcall_start_always_succeeds :
  ∀ call_id session_id turn_id turn_now start_now request db,
    ∃ initial_message next_state is_final call,
      get_simulated_response GREETING "" (start_language request)
      = Some (initial_message, next_state, is_final)
      ∧ run (webcall_start call_id session_id turn_id turn_now start_now request) db
        = (db ++ [call],
           Return {| sr_call_id := call_id;
                     sr_session_id := session_id;
                     sr_initial_message := initial_message;
                     sr_fsm_state := GREETING;
                     sr_audio_url := Some ("/api/audio/" +:+ call_id +:+ "/0") |})
      ∧ instants (webcall_start call_id session_id turn_id turn_now start_now request) db
        = [db; db ++ [call]]
      ∧ Call.id call = call_id
      ∧ Call.session_id call = session_id
      ∧ Call.status call = CS_ACTIVE
      ∧ Call.fsm_state call = GREETING
      ∧ Call.language call = start_language request
      ∧ Call.test_mode call = start_test_mode request
      ∧ Call.end_time call = None
      ∧ Call.exit_reason call = None
      ∧ Call.turns call
        = [ {| CallTurn.id := turn_id;
               CallTurn.timestamp := turn_now;
               CallTurn.speaker := "aira";
               CallTurn.text := initial_message;
               CallTurn.audio_url := None;
               CallTurn.fsm_state := GREETING |} ].
Proof.
  intros. destruct (opening_message (start_language request)) as (text & Ht & _).
  exists text, QUALIFICATION, false. eexists. split; [exact Ht |].
  unfold run, instants, webcall_start. rewrite Ht. simpl.
  repeat split; reflexivity.
Qed.

(** ** Session input and end *)

Ltac unfold_M :=
  unfold run, instants, mbind, mret, M_bind, M_ret, m_bind, m_ret, raise,
    find_one, find, insert_one, update_one, update_many, final in *.

(** What [webcall_input] does, by cases on the call found. *)
Lemma webcall_input_eq u a un an en call_id utterance db :
  webcall_input u a un an en
    {| in_call_id := call_id; in_user_input := utterance |} db
  = match first_match (has_id call_id) db with
    | None => ([], Raise {| status_code := 404; detail := "Call not found" |})
    | Some c =>
        if bool_decide (Call.status c = CS_ACTIVE) then
          match get_simulated_response (Call.fsm_state c) utterance (Call.language c) with
          | None => ([], Raise internal_error)
          | Some (text, next_state, is_final) =>
              ([update_first (has_id call_id)
                  (update_data (user_turn_of u un utterance (Call.fsm_state c))
                     (aira_turn_of a an text next_state) next_state
                     (qualification_updates_of utterance) is_final en) db],
               Return {| ir_call_id := call_id;
                         ir_aira_response := text;
                         ir_fsm_state := next_state;
                         ir_audio_url :=
                           Some ("/api/audio/" +:+ call_id +:+ "/"
                                 +:+ pretty (length (Call.turns c) + 2 - 1)%nat);
                         ir_is_final := is_final |})
          end
        else ([], Raise {| status_code := 400; detail := "Call is not active" |})
    end.
Proof.
  unfold webcall_input. unfold_M. simpl.
  destruct (first_match (has_id call_id) db) as [c|] eqn:Hc; [| done].
  destruct (bool_decide (Call.status c = CS_ACTIVE)); simpl; [| done].
  destruct (get_simulated_response _ _ _) as [[[text next_state] is_final]|]; [| done].
  simpl. rewrite Hc. reflexivity.
Qed.

Lemma webcall_end_eq now call_id db :
  webcall_end now call_id db
  = match first_match (has_id_active call_id) db with
    | None => ([], Raise {| status_code := 404; detail := "Active call not found" |})
    | Some _ =>
        ([update_first (has_id_active call_id)
            (Call.set_ended CS_COMPLETED now ER_USER_HANGUP) db],
         Return ("Call ended", call_id))
    end.
Proof.
  unfold webcall_end. unfold_M.
  destruct (first_match (has_id_active call_id) db); reflexivity.
Qed.

Lemma webcall_start_eq call_id session_id turn_id turn_now start_now request db :
  ∃ text,
    get_simulated_response GREETING "" (start_language request)
    = Some (text, QUALIFICATION, false)
    ∧ webcall_start call_id session_id turn_id turn_now start_now request db
      = ([db ++ [ {| Call.id := call_id;
                     Call.session_id := session_id;
                     Call.status := CS_ACTIVE;
                     Call.fsm_state := GREETING;
                     Call.language := start_language request;
                     Call.test_mode := start_test_mode request;
                     Call.start_time := start_now;
                     Call.end_time := None;
                     Call.exit_reason := None;
                     Call.turns :=
                       [ aira_turn_of turn_id turn_now text GREETING ];
                     Call.qualification_data := ∅;
                     Call.demo_intent := false;
                     Call.demo_confirmed := false;
                     Call.objections := [] |} ]],
         Return {| sr_call_id := call_id;
                   sr_session_id := session_id;
                   sr_initial_message := text;
                   sr_fsm_state := GREETING;
                   sr_audio_url := Some ("/api/audio/" +:+ call_id +:+ "/0") |}).
Proof.
  destruct (opening_message (start_language request)) as (text & Ht & _).
  exists text. split; [done |].
  unfold webcall_start. rewrite Ht. reflexivity.
Qed.

(** With unique identifiers, a document whose identifier the filter pins
    down is the first match of the filter. *)
Lemma unique_first_match {D} (key : D -> string) (P : D -> bool) db c :
  NoDup (List.map key db) → In c db → P c = true →
  (∀ d, P d = true → key d = key c) →
  first_match P db = Some c.
Proof.
  intros Hnd Hin Hc Hid. induction db as [|x db IH]; simpl in *; [done |].
  apply NoDup_cons in Hnd as [Hx Hnd].
  destruct Hin as [-> | Hin]; [by rewrite Hc |].
  destruct (P x) eqn:HPx; [| auto].
  exfalso. apply Hx. rewrite (Hid x HPx).
  apply list_elem_of_In, in_map, Hin.
Qed.

Lemma has_id_true call_id c : has_id call_id c = true ↔ Call.id c = call_id.
Proof. unfold has_id. apply bool_decide_eq_true. Qed.

Lemma has_id_active_true call_id c :
  has_id_active call_id c = true
  ↔ Call.id c = call_id ∧ Call.status c = CS_ACTIVE.
Proof.
  unfold has_id_active. rewrite andb_true_iff, has_id_true, bool_decide_eq_true.
  done.
Qed.

(** Once the only call of that identifier is ended, no active call of that
    identifier is left. *)
Lemma no_active_after_end now call_id db :
  NoDup (List.map Call.id db) →
  first_match (has_id_active call_id)
    (update_first (has_id_active call_id)
       (Call.set_ended CS_COMPLETED now ER_USER_HANGUP) db) = None.
Proof.
  intros Hnd. induction db as [|x db IH]; simpl in *; [done |].
  apply NoDup_cons in Hnd as [Hx Hnd].
  destruct (has_id_active call_id x) eqn:HPx; simpl.
  - apply has_id_active_true in HPx as [Hid _].
    unfold has_id_active at 1. simpl. rewrite andb_false_r.
    apply first_match_None. intros d Hd.
    destruct (has_id_active call_id d) eqn:HPd; [| done].
    apply has_id_active_true in HPd as [Hid' _].
    exfalso. apply Hx. rewrite Hid, <- Hid'. apply list_elem_of_In, in_map, Hd.
  - rewrite HPx. auto.
Qed.

(** C10.  [webcall_end] on an identifier without an active call (unknown,
    or a call that is completed, failed or transferred) raises 404 and
    writes nothing.  On an active call, identifiers being unique, it
    succeeds, and that call alone changes: its status becomes completed, its
    end time the clock reading, its exit reason user_hangup; a second
    [webcall_end] on the identifier then raises 404 and writes nothing. *)
Theorem webcall_end_succeeds_exactly_once :
  ∀ now now' call_id db,
    ((∀ c, In c db → Call.id c = call_id → Call.status c ≠ CS_ACTIVE) →
     instants (webcall_end now call_id) db = [db]
     ∧ run (webcall_end now call_id) db
       = (db, Raise {| status_code := 404; detail := "Active call not found" |}))
    ∧ (∀ c, NoDup (List.map Call.id db) → In c db →
         Call.id c = call_id → Call.status c = CS_ACTIVE →
         ∃ i c',
           db !! i = Some c
           ∧ c' = Call.set_ended CS_COMPLETED now ER_USER_HANGUP c
           ∧ Call.status c' = CS_COMPLETED
           ∧ Call.end_time c' = Some now
           ∧ Call.exit_reason c' = Some ER_USER_HANGUP
           ∧ run (webcall_end now call_id) db
             = (<[i := c']> db, Return ("Call ended", call_id))
           ∧ run (webcall_end now' call_id) (<[i := c']> db)
             = (<[i := c']> db,
                Raise {| status_code := 404; detail := "Active call not found" |})).
Proof.
  intros now now' call_id db. split.
  - intros Hno. unfold run, instants. rewrite webcall_end_eq.
    assert (first_match (has_id_active call_id) db = None) as ->; [| done].
    apply first_match_None. intros d Hd.
    destruct (has_id_active call_id d) eqn:HP; [| done].
    apply has_id_active_true in HP as [Hid Hst]. by destruct (Hno d Hd Hid).
  - intros c Hnd Hin Hid Hst.
    assert (first_match (has_id_active call_id) db = Some c) as Hfm.
    { apply (unique_first_match Call.id); auto.
      - by apply has_id_active_true.
      - intros d [Hd _]%has_id_active_true. congruence. }
    destruct (first_match_Some _ (Call.set_ended CS_COMPLETED now ER_USER_HANGUP)
                _ _ Hfm) as (i & Hi & _ & _ & Hup).
    exists i, (Call.set_ended CS_COMPLETED now ER_USER_HANGUP c).
    repeat split; auto.
    + unfold run. rewrite webcall_end_eq, Hfm. simpl. by rewrite Hup.
    + unfold run. rewrite webcall_end_eq, <- Hup.
      by rewrite no_active_after_end.
Qed.

(** ** [str.strip] *)

Lemma lstrip_cases s :
  (all_space s = true ∧ lstrip s = "")
  ∨ (all_space s = false ∧ ∃ c t, lstrip s = String c t ∧ is_space c = false).
Proof.
  induction s as [|c t IH]; simpl; [by left |].
  destruct (is_space c) eqn:Hc; simpl; [done |].
  right. split; [done |]. by exists c, t.
Qed.

(** A string strips to the empty string exactly when it is empty or made
    of white space only. *)
Lemma truthy_strip s : truthy (strip s) = negb (all_space s).
Proof.
  unfold strip. destruct (lstrip_cases s) as [[-> ->] | (-> & c & t & -> & Hc)];
    [done |].
  simpl. rewrite Hc. by destruct (rstrip t).
Qed.

(** ** Handlers of the prompt store, by cases *)

Lemma prompt_has_id_true prompt_id p :
  prompt_has_id prompt_id p = true ↔ Prompt.id p = prompt_id.
Proof. unfold prompt_has_id. apply bool_decide_eq_true. Qed.

Lemma read_back_after_update prompt_id f db p :
  (∀ x, Prompt.id (f x) = Prompt.id x) →
  first_match (prompt_has_id prompt_id) db = Some p →
  read_back prompt_id (update_first (prompt_has_id prompt_id) f db)
  = ([], Return (f p)).
Proof.
  intros Hf Hp. unfold read_back. unfold_M.
  rewrite (first_match_update_first _ f db p); [done | | done].
  intros x. unfold prompt_has_id. by rewrite Hf.
Qed.

Lemma create_prompt_eq new_id created_now updated_now request db :
  create_prompt new_id created_now updated_now request db
  = let prompt :=
      {| Prompt.id := new_id;
         Prompt.fsm_state := cr_fsm_state request;
         Prompt.language := cr_language request;
         Prompt.text := cr_text request;
         Prompt.status := PS_DRAFT;
         Prompt.version :=
           match sort_version_desc_limit_1
                   (List.filter (in_lineage (cr_fsm_state request)
                                   (cr_language request)) db) with
           | [] => 1
           | e :: _ => Prompt.version e + 1
           end;
         Prompt.created_at := created_now;
         Prompt.updated_at := updated_now;
         Prompt.created_by := "admin";
         Prompt.notes := cr_notes request |} in
    ([db ++ [prompt]], Return prompt).
Proof. reflexivity. Qed.

Lemma update_prompt_eq now prompt_id request db :
  update_prompt now prompt_id request db
  = match first_match (prompt_has_id prompt_id) db with
    | None => ([], Raise {| status_code := 404; detail := "Prompt not found" |})
    | Some p =>
        if bool_decide (Prompt.status p = PS_ACTIVE)
        then ([], Raise {| status_code := 400;
                           detail := "Cannot edit active prompts. Create a new draft instead." |})
        else
          let f := Prompt.set_text (up_text request) now
                     (if truthy_opt (up_notes request) then up_notes request
                      else None) in
          ([update_first (prompt_has_id prompt_id) f db], Return (f p))
    end.
Proof.
  unfold update_prompt. unfold_M. simpl.
  destruct (first_match (prompt_has_id prompt_id) db) as [p|] eqn:Hp; [| done].
  destruct (bool_decide (Prompt.status p = PS_ACTIVE)); simpl; [done |].
  rewrite Hp. simpl.
  rewrite (read_back_after_update _ _ _ p); [reflexivity | done | done].
Qed.

Lemma mark_prompt_weak_eq weak_now new_id created_now updated_now prompt_id
    request db :
  mark_prompt_weak weak_now new_id created_now updated_now prompt_id request db
  = match first_match (prompt_has_id prompt_id) db with
    | None => ([], Raise {| status_code := 404; detail := "Prompt not found" |})
    | Some p =>
        if all_space (mw_replacement_text request)
        then ([], Raise {| status_code := 400;
                           detail := "Replacement text is required when marking a prompt as weak" |})
        else
          let db1 := update_first (prompt_has_id prompt_id)
                       (Prompt.set_status PS_WEAK weak_now) db in
          let new_prompt :=
            {| Prompt.id := new_id;
               Prompt.fsm_state := Prompt.fsm_state p;
               Prompt.language := Prompt.language p;
               Prompt.text := mw_replacement_text request;
               Prompt.status := PS_DRAFT;
               Prompt.version := Prompt.version p + 1;
               Prompt.created_at := created_now;
               Prompt.updated_at := updated_now;
               Prompt.created_by := "admin";
               Prompt.notes :=
                 if truthy_opt (mw_notes request) then mw_notes request
                 else Some ("Replacement for weak prompt " +:+ prompt_id) |} in
          ([db1; db1 ++ [new_prompt]], Return new_prompt)
    end.
Proof.
  unfold mark_prompt_weak. unfold_M. simpl.
  destruct (first_match (prompt_has_id prompt_id) db) as [p|] eqn:Hp; [| done].
  rewrite truthy_strip, negb_involutive.
  destruct (all_space (mw_replacement_text request)); simpl; [done |].
  rewrite Hp. reflexivity.
Qed.

Lemma first_match_update_all {D} (P Q : D -> bool) (f : D -> D) db :
  (∀ x, P (f x) = P x) →
  first_match P (update_all Q f db)
  = (λ d, if Q d then f d else d) <$> first_match P db.
Proof.
  intros Hf. induction db as [|x db IH]; simpl; [done |].
  destruct (Q x) eqn:HQ; rewrite ?Hf; destruct (P x); simpl; rewrite ?HQ; auto.
Qed.

Lemma publish_prompt_eq archive_now publish_now prompt_id db :
  publish_prompt archive_now publish_now prompt_id db
  = match first_match (prompt_has_id prompt_id) db with
    | None => ([], Raise {| status_code := 404; detail := "Prompt not found" |})
    | Some p =>
        if bool_decide (Prompt.status p = PS_DRAFT)
        then
          let db1 := update_all
                       (active_in_lineage (Prompt.fsm_state p) (Prompt.language p))
                       (Prompt.set_status PS_ARCHIVED archive_now) db in
          let db2 := update_first (prompt_has_id prompt_id)
                       (Prompt.set_status PS_ACTIVE publish_now) db1 in
          ([db1; db2], Return (Prompt.set_status PS_ACTIVE publish_now p))
        else ([], Raise {| status_code := 400;
                           detail := "Only draft prompts can be published" |})
    end.
Proof.
  unfold publish_prompt. unfold_M. simpl.
  destruct (first_match (prompt_has_id prompt_id) db) as [p|] eqn:Hp; [| done].
  destruct (bool_decide (Prompt.status p = PS_DRAFT)) eqn:Hd; simpl; [| done].
  apply bool_decide_eq_true in Hd.
  assert (first_match (prompt_has_id prompt_id)
            (update_all (active_in_lineage (Prompt.fsm_state p) (Prompt.language p))
               (Prompt.set_status PS_ARCHIVED archive_now) db) = Some p) as Hp1.
  { rewrite first_match_update_all, Hp; [| done]. simpl.
    unfold active_in_lineage. rewrite Hd. simpl. by rewrite andb_false_r. }
  rewrite Hp1. simpl.
  rewrite (read_back_after_update _ _ _ p); [reflexivity | done | done].
Qed.

(** ** Counting the documents a filter accepts *)

Section CountFacts.
Context {D : Type}.
Implicit Types (P Q : D -> bool) (f : D -> D) (db : list D).

Lemma count_update_first P Q f db d :
  first_match P db = Some d →
  (length (List.filter Q (update_first P f db)) + (if Q d then 1 else 0)
   = length (List.filter Q db) + (if Q (f d) then 1 else 0))%nat.
Proof.
  induction db as [|x db IH]; simpl; [done |].
  destruct (P x) eqn:HP.
  - intros [= ->]. simpl. destruct (Q d), (Q (f d)); simpl; lia.
  - intros H. specialize (IH H). simpl. destruct (Q x); simpl; lia.
Qed.

Lemma count_update_first_le P Q f db :
  (∀ x, Q (f x) = true → Q x = true) →
  (length (List.filter Q (update_first P f db)) ≤ length (List.filter Q db))%nat.
Proof.
  intros Hf. induction db as [|x db IH]; simpl; [done |].
  destruct (P x); simpl.
  - destruct (Q (f x)) eqn:Hfx; [rewrite (Hf _ Hfx); simpl; lia |].
    destruct (Q x); simpl; lia.
  - destruct (Q x); simpl; lia.
Qed.

Lemma count_update_all_le P Q f db :
  (∀ x, Q (f x) = true → Q x = true) →
  (length (List.filter Q (update_all P f db)) ≤ length (List.filter Q db))%nat.
Proof.
  intros Hf. induction db as [|x db IH]; simpl; [done |].
  destruct (P x); simpl.
  - destruct (Q (f x)) eqn:Hfx; [rewrite (Hf _ Hfx); simpl; lia |].
    destruct (Q x); simpl; lia.
  - destruct (Q x); simpl; lia.
Qed.

Lemma count_update_all_zero Q f db :
  (∀ x, Q (f x) = false) →
  List.filter Q (update_all Q f db) = [].
Proof.
  intros Hf. induction db as [|x db IH]; simpl; [done |].
  destruct (Q x) eqn:HQ; [by rewrite Hf | by rewrite HQ].
Qed.

Lemma update_first_lookup P f db i y :
  update_first P f db !! i = Some y →
  ∃ x, db !! i = Some x ∧ (y = x ∨ (y = f x ∧ P x = true)).
Proof.
  revert i. induction db as [|x db IH]; intros i; simpl; [done |].
  destruct (P x) eqn:HP.
  - destruct i; simpl; intros H; simplify_eq; eauto.
  - destruct i; simpl; intros H; simplify_eq; eauto.
Qed.

Lemma update_all_lookup P f db i :
  update_all P f db !! i = (λ x, if P x then f x else x) <$> db !! i.
Proof.
  revert i. induction db as [|x db IH]; intros [|i]; simpl; auto.
Qed.
End CountFacts.

(** ** At most one active prompt per lineage *)

Lemma active_in_lineage_true s l p :
  active_in_lineage s l p = true
  ↔ Prompt.fsm_state p = s ∧ Prompt.language p = l ∧ Prompt.status p = PS_ACTIVE.
Proof.
  unfold active_in_lineage, in_lineage.
  rewrite !andb_true_iff, !bool_decide_eq_true. tauto.
Qed.

Lemma active_count_app s l db db' :
  active_count s l (db ++ db')
  = (active_count s l db + active_count s l db')%nat.
Proof. unfold active_count. by rewrite List.filter_app, length_app. Qed.

Lemma at_most_one_active_nil : at_most_one_active [].
Proof. intros s l. unfold active_count. simpl. lia. Qed.

Lemma at_most_one_active_insert db p :
  Prompt.status p ≠ PS_ACTIVE →
  at_most_one_active db → at_most_one_active (db ++ [p]).
Proof.
  intros Hp Hdb s l. rewrite active_count_app. specialize (Hdb s l).
  unfold active_count at 2. simpl.
  destruct (active_in_lineage s l p) eqn:Ha; simpl; [| lia].
  apply active_in_lineage_true in Ha. tauto.
Qed.

(** An update that activates nothing and moves no prompt to another lineage
    keeps the invariant. *)
Lemma at_most_one_active_update_first P f db :
  (∀ s l x, active_in_lineage s l (f x) = true → active_in_lineage s l x = true) →
  at_most_one_active db → at_most_one_active (update_first P f db).
Proof.
  intros Hf Hdb s l. specialize (Hdb s l). unfold active_count in *.
  pose proof (count_update_first_le P (active_in_lineage s l) f db (Hf s l)). lia.
Qed.

Lemma set_status_not_active st now s l x :
  st ≠ PS_ACTIVE →
  active_in_lineage s l (Prompt.set_status st now x) = true →
  active_in_lineage s l x = true.
Proof. intros Hst [_ [_ H]]%active_in_lineage_true. simpl in H. done. Qed.

Lemma set_text_active txt now n s l x :
  active_in_lineage s l (Prompt.set_text txt now n x) = active_in_lineage s l x.
Proof. reflexivity. Qed.

(** The two writes of a publication: after the first no prompt of the
    lineage is active, after the second exactly the target is. *)
Lemma publish_writes archive_now publish_now prompt_id db p :
  first_match (prompt_has_id prompt_id) db = Some p →
  Prompt.status p = PS_DRAFT →
  let db1 := update_all
               (active_in_lineage (Prompt.fsm_state p) (Prompt.language p))
               (Prompt.set_status PS_ARCHIVED archive_now) db in
  let db2 := update_first (prompt_has_id prompt_id)
               (Prompt.set_status PS_ACTIVE publish_now) db1 in
  first_match (prompt_has_id prompt_id) db1 = Some p
  ∧ (∀ s l, (active_count s l db1 ≤ active_count s l db)%nat)
  ∧ active_count (Prompt.fsm_state p) (Prompt.language p) db1 = 0%nat
  ∧ (∀ s l, active_count s l db2
            = (active_count s l db1 + (if in_lineage s l p then 1 else 0))%nat).
Proof.
  intros Hp Hd db1 db2.
  assert (first_match (prompt_has_id prompt_id) db1 = Some p) as Hp1.
  { unfold db1. rewrite first_match_update_all, Hp; [| done]. simpl.
    unfold active_in_lineage. rewrite Hd. simpl. by rewrite andb_false_r. }
  split; [done |]. split; [| split].
  - intros s l. unfold active_count, db1. apply count_update_all_le.
    intros x. by apply set_status_not_active.
  - unfold active_count, db1. rewrite count_update_all_zero; [done |].
    intros x. unfold active_in_lineage. simpl. by rewrite andb_false_r.
  - intros s l. unfold active_count, db2.
    pose proof (count_update_first (prompt_has_id prompt_id)
                  (active_in_lineage s l)
                  (Prompt.set_status PS_ACTIVE publish_now) db1 p Hp1) as H.
    assert (active_in_lineage s l p = false) as Hq.
    { unfold active_in_lineage. rewrite Hd. simpl. by rewrite andb_false_r. }
    rewrite Hq in H.
    assert (active_in_lineage s l (Prompt.set_status PS_ACTIVE publish_now p)
            = in_lineage s l p) as Hq'.
    { unfold active_in_lineage, in_lineage. simpl. by rewrite andb_true_r. }
    rewrite Hq' in H. lia.
Qed.

Lemma in_lineage_true s l p :
  in_lineage s l p = true ↔ Prompt.fsm_state p = s ∧ Prompt.language p = l.
Proof.
  unfold in_lineage. by rewrite andb_true_iff, !bool_decide_eq_true.
Qed.

(** Every write of every handler keeps the invariant. *)
Lemma handler_keeps_at_most_one_active op db :
  at_most_one_active db →
  Forall at_most_one_active (fst (prompt_handler op db)).
Proof.
  intros Hdb. destruct op; cbn [prompt_handler].
  - rewrite create_prompt_eq. simpl. apply Forall_cons_2; [| apply Forall_nil_2].
    by apply at_most_one_active_insert.
  - rewrite update_prompt_eq.
    destruct (first_match _ db) as [p|]; simpl; [| apply Forall_nil_2].
    destruct (bool_decide _); simpl; [apply Forall_nil_2 |].
    apply Forall_cons_2; [| apply Forall_nil_2].
    apply at_most_one_active_update_first; [| done].
    intros s l x. by rewrite set_text_active.
  - rewrite mark_prompt_weak_eq.
    destruct (first_match _ db) as [p|]; simpl; [| apply Forall_nil_2].
    destruct (all_space _); simpl; [apply Forall_nil_2 |].
    assert (at_most_one_active
              (update_first (prompt_has_id prompt_id)
                 (Prompt.set_status PS_WEAK weak_now) db)) as H1.
    { apply at_most_one_active_update_first; [| done].
      intros s l x. by apply set_status_not_active. }
    apply Forall_cons_2; [done |].
    apply Forall_cons_2; [| apply Forall_nil_2].
    by apply at_most_one_active_insert.
  - rewrite publish_prompt_eq.
    destruct (first_match _ db) as [p|] eqn:Hp; simpl; [| apply Forall_nil_2].
    destruct (bool_decide _) eqn:Hd; simpl; [| apply Forall_nil_2].
    apply bool_decide_eq_true in Hd.
    destruct (publish_writes archive_now publish_now prompt_id db p Hp Hd)
      as (_ & Hle & Hzero & Hadd).
    apply Forall_cons_2; [| apply Forall_cons_2; [| apply Forall_nil_2]].
    + intros s l. specialize (Hle s l). specialize (Hdb s l). lia.
    + intros s l. rewrite Hadd.
      destruct (in_lineage s l p) eqn:Hl.
      * apply in_lineage_true in Hl as [<- <-]. rewrite Hzero. lia.
      * specialize (Hle s l). specialize (Hdb s l). lia.
Qed.

Lemma final_cons {D} (db w : D) ws : List.last (w :: ws) db = List.last ws w.
Proof.
  revert db w. induction ws as [|y ws IH]; intros db w; [done |].
  change (List.last (y :: ws) db = List.last (y :: ws) w).
  by rewrite (IH db y), (IH w y).
Qed.

(** The collection a handler leaves is the one it found or one it wrote. *)
Lemma final_cases {D} (db : list D) ws : final db ws = db ∨ In (final db ws) ws.
Proof.
  unfold final. revert db. induction ws as [|w ws IH]; intros db; [by left |].
  right. rewrite final_cons. destruct (IH w) as [-> | H]; [by left | by right].
Qed.

Lemma final_keeps {D} (I : list D -> Prop) db ws :
  I db → Forall I ws → I (final db ws).
Proof.
  intros Hdb Hws. destruct (final_cases db ws) as [-> | H]; [done |].
  rewrite Forall_forall in Hws. by apply Hws, list_elem_of_In.
Qed.

Lemma prompt_writes_keep_at_most_one_active ops db :
  at_most_one_active db → Forall at_most_one_active (prompt_writes ops db).
Proof.
  revert db. induction ops as [|op ops IH]; intros db Hdb; simpl;
    [apply Forall_nil_2 |].
  pose proof (handler_keeps_at_most_one_active op db Hdb) as Hop.
  apply Forall_app. split; [done |].
  apply IH. by apply final_keeps.
Qed.

(** *** Only a publication activates *)

Lemma no_new_active_refl db : no_new_active db db.
Proof. intros i p Hi Hp. eauto. Qed.

Lemma no_new_active_trans db1 db2 db3 :
  no_new_active db1 db2 → no_new_active db2 db3 → no_new_active db1 db3.
Proof.
  intros H12 H23 i p3 Hi Hp.
  destruct (H23 i p3 Hi Hp) as (p2 & Hi2 & Hp2). eauto.
Qed.

Lemma no_new_active_insert db p :
  Prompt.status p ≠ PS_ACTIVE → no_new_active db (db ++ [p]).
Proof.
  intros Hp i p' Hi Hp'.
  destruct (decide (i < length db)%nat) as [Hlt | Hge].
  - rewrite lookup_app_l in Hi by done. eauto.
  - rewrite lookup_app_r in Hi by lia.
    destruct (i - length db)%nat; simpl in Hi; [| done].
    by simplify_eq.
Qed.

Lemma no_new_active_update_first P f db :
  (∀ x, Prompt.status (f x) = PS_ACTIVE → Prompt.status x = PS_ACTIVE) →
  no_new_active db (update_first P f db).
Proof.
  intros Hf i p' Hi Hp'.
  destruct (update_first_lookup P f db i p' Hi) as (x & Hx & [-> | [-> _]]);
    eauto.
Qed.

(** A request other than a publication activates nothing, at any of its
    writes. *)
Lemma only_publish_activates op db :
  is_publish op = false →
  Forall (no_new_active db) (fst (prompt_handler op db)).
Proof.
  intros Hop. destruct op; cbn [prompt_handler]; [| | | done].
  - rewrite create_prompt_eq. simpl. apply Forall_cons_2; [| apply Forall_nil_2].
    by apply no_new_active_insert.
  - rewrite update_prompt_eq.
    destruct (first_match _ db) as [p|]; simpl; [| apply Forall_nil_2].
    destruct (bool_decide _); simpl; [apply Forall_nil_2 |].
    apply Forall_cons_2; [| apply Forall_nil_2].
    by apply no_new_active_update_first.
  - rewrite mark_prompt_weak_eq.
    destruct (first_match _ db) as [p|]; simpl; [| apply Forall_nil_2].
    destruct (all_space _); simpl; [apply Forall_nil_2 |].
    assert (no_new_active db
              (update_first (prompt_has_id prompt_id)
                 (Prompt.set_status PS_WEAK weak_now) db)) as H1.
    { by apply no_new_active_update_first. }
    apply Forall_cons_2; [done |].
    apply Forall_cons_2; [| apply Forall_nil_2].
    eapply no_new_active_trans; [exact H1 |].
    by apply no_new_active_insert.
Qed.

(** C1.  Whatever requests (create, update, mark-weak, publish) are served
    one after the other from a store with at most one active prompt per
    (fsm_state, language), every store that can be observed, between the
    two writes of a publication too, has at most one active prompt per
    pair.  A publication of a draft first archives every active prompt of
    the draft's pair and then activates the draft, which is then the only
    active prompt of its pair; a request that is not a publication leaves
    no prompt active that was not active before. *)
Theorem at_most_one_active_per_lineage :
  (∀ ops db,
     at_most_one_active db →
     Forall at_most_one_active (prompt_instants ops db))
  ∧ (∀ archive_now publish_now prompt_id db p,
       first_match (prompt_has_id prompt_id) db = Some p →
       Prompt.status p = PS_DRAFT →
       ∃ i db1 db2,
         instants (publish_prompt archive_now publish_now prompt_id) db
         = [db; db1; db2]
         ∧ db !! i = Some p
         ∧ (∀ j, db1 !! j
                 = (λ q, if active_in_lineage (Prompt.fsm_state p)
                              (Prompt.language p) q
                         then Prompt.set_status PS_ARCHIVED archive_now q
                         else q) <$> db !! j)
         ∧ active_count (Prompt.fsm_state p) (Prompt.language p) db1 = 0%nat
         ∧ db2 = <[i := Prompt.set_status PS_ACTIVE publish_now p]> db1
         ∧ active_count (Prompt.fsm_state p) (Prompt.language p) db2 = 1%nat)
  ∧ (∀ op db,
       is_publish op = false →
       Forall (no_new_active db) (fst (prompt_handler op db))).
Proof.
  split; [| split].
  - intros ops db Hdb. unfold prompt_instants.
    apply Forall_cons_2; [done |].
    by apply prompt_writes_keep_at_most_one_active.
  - intros archive_now publish_now prompt_id db p Hp Hd.
    destruct (publish_writes archive_now publish_now prompt_id db p Hp Hd)
      as (Hp1 & _ & Hzero & Hadd).
    destruct (first_match_Some _ (Prompt.set_status PS_ACTIVE publish_now)
                _ _ Hp1) as (i & Hi & _ & _ & Hup).
    exists i. eexists. eexists. split.
    { unfold instants. rewrite publish_prompt_eq, Hp.
      rewrite (bool_decide_eq_true_2 _ Hd). reflexivity. }
    split.
    { rewrite update_all_lookup in Hi.
      destruct (db !! i) as [q|] eqn:Hq; simpl in Hi; [| done].
      destruct (active_in_lineage _ _ q) eqn:Hact; by simplify_eq. }
    split; [intros j; apply update_all_lookup |].
    split; [done |]. split; [done |].
    rewrite Hadd, Hzero.
    assert (in_lineage (Prompt.fsm_state p) (Prompt.language p) p = true) as ->;
      [by apply in_lineage_true | done].
  - apply only_publish_activates.
Qed.

(** ** Editing and superseding prompts *)

(** [update_prompt] refuses active prompts only: a prompt of any other
    status is rewritten in place. *)
Lemma update_prompt_rejects_only_active now prompt_id request db p :
  first_match (prompt_has_id prompt_id) db = Some p →
  (Prompt.status p = PS_ACTIVE →
   update_prompt now prompt_id request db
   = ([], Raise {| status_code := 400;
                   detail := "Cannot edit active prompts. Create a new draft instead." |}))
  ∧ (Prompt.status p ≠ PS_ACTIVE →
     ∃ i p', db !! i = Some p
             ∧ Prompt.text p' = up_text request
             ∧ Prompt.updated_at p' = now
             ∧ Prompt.status p' = Prompt.status p
             ∧ Prompt.version p' = Prompt.version p
             ∧ run (update_prompt now prompt_id request) db
               = (<[i := p']> db, Return p')).
Proof.
  intros Hp. unfold run. rewrite update_prompt_eq, Hp. split.
  - intros Ha. by rewrite (bool_decide_eq_true_2 _ Ha).
  - intros Ha. rewrite (bool_decide_eq_false_2 _ Ha).
    destruct (first_match_Some _
                (Prompt.set_text (up_text request) now
                   (if truthy_opt (up_notes request) then up_notes request else None))
                _ _ Hp) as (i & Hi & _ & _ & Hup).
    exists i, (Prompt.set_text (up_text request) now
                 (if truthy_opt (up_notes request) then up_notes request else None)
                 p).
    split; [done |]. simpl. rewrite Hup. repeat split; reflexivity.
Qed.

(** C5 (the code departs from the claim).  [update_prompt] tests for the
    status active, not for a status other than draft.  On the weak prompt
    "p1" of [weak_store], and on the archived prompt "p1" of
    [archived_store], it raises nothing: it returns the prompt with the new
    text and the stored record has changed (text, notes and updated_at). *)
Theorem update_prompt_edits_weak_and_archived :
  let request := {| up_text := "edited"; up_notes := Some "why" |} in
  (∃ p p' db',
     first_match (prompt_has_id "p1") weak_store = Some p
     ∧ Prompt.status p = PS_WEAK
     ∧ run (update_prompt 9 "p1" request) weak_store = (db', Return p')
     ∧ first_match (prompt_has_id "p1") db' = Some p'
     ∧ Prompt.status p' = PS_WEAK
     ∧ (Prompt.text p, Prompt.notes p, Prompt.updated_at p) = ("old", None, 1)
     ∧ (Prompt.text p', Prompt.notes p', Prompt.updated_at p')
       = ("edited", Some "why", 9))
  ∧ (∃ p p' db',
       first_match (prompt_has_id "p1") archived_store = Some p
       ∧ Prompt.status p = PS_ARCHIVED
       ∧ run (update_prompt 9 "p1" request) archived_store = (db', Return p')
       ∧ first_match (prompt_has_id "p1") db' = Some p'
       ∧ Prompt.status p' = PS_ARCHIVED
       ∧ (Prompt.text p, Prompt.notes p, Prompt.updated_at p) = ("old", None, 4)
       ∧ (Prompt.text p', Prompt.notes p', Prompt.updated_at p')
         = ("edited", Some "why", 9)).
Proof.
  split; do 3 eexists; vm_compute; repeat split; reflexivity.
Qed.

(** C9.  [mark_prompt_weak] on an identifier no prompt has raises 404 and
    writes nothing.  On the prompt P found for the identifier, a replacement
    text that is empty or white space only raises 400 ("Replacement text is
    required ...") and writes nothing; any other replacement text X sets
    P's status to weak and its updated_at to the clock reading, leaves every
    other prompt as it was, and appends and returns exactly one prompt: of
    P's fsm_state and language, version P.version + 1, status draft, text X,
    and notes "Replacement for weak prompt <id>" when the caller gives
    none. *)
Theorem mark_prompt_weak_supersedes :
  ∀ weak_now new_id created_now updated_now prompt_id replacement_text notes db,
    let m := mark_prompt_weak weak_now new_id created_now updated_now prompt_id
               {| mw_replacement_text := replacement_text; mw_notes := notes |} in
    ((∀ p, In p db → Prompt.id p ≠ prompt_id) →
     instants m db = [db]
     ∧ run m db
       = (db, Raise {| status_code := 404; detail := "Prompt not found" |}))
    ∧ (∀ P, first_match (prompt_has_id prompt_id) db = Some P →
         all_space replacement_text = true →
         instants m db = [db]
         ∧ run m db
           = (db, Raise {| status_code := 400;
                           detail := "Replacement text is required when marking a prompt as weak" |}))
    ∧ (∀ P, first_match (prompt_has_id prompt_id) db = Some P →
         all_space replacement_text = false →
         ∃ i P' new,
           db !! i = Some P
           ∧ Prompt.id P = prompt_id
           ∧ P' = Prompt.set_status PS_WEAK weak_now P
           ∧ Prompt.status P' = PS_WEAK
           ∧ Prompt.updated_at P' = weak_now
           ∧ run m db = (<[i := P']> db ++ [new], Return new)
           ∧ instants m db = [db; <[i := P']> db; <[i := P']> db ++ [new]]
           ∧ Prompt.id new = new_id
           ∧ Prompt.fsm_state new = Prompt.fsm_state P
           ∧ Prompt.language new = Prompt.language P
           ∧ Prompt.version new = Prompt.version P + 1
           ∧ Prompt.status new = PS_DRAFT
           ∧ Prompt.text new = replacement_text
           ∧ (notes = None →
              Prompt.notes new
              = Some ("Replacement for weak prompt " +:+ prompt_id))).
Proof.
  intros. split; [| split].
  - intros Hno. unfold instants, run, m. rewrite mark_prompt_weak_eq.
    assert (first_match (prompt_has_id prompt_id) db = None) as ->; [| done].
    apply first_match_None. intros d Hd.
    destruct (prompt_has_id prompt_id d) eqn:HP; [| done].
    apply prompt_has_id_true in HP. by destruct (Hno d Hd).
  - intros P HP Hsp. unfold instants, run, m.
    rewrite mark_prompt_weak_eq, HP. simpl. by rewrite Hsp.
  - intros P HP Hsp.
    destruct (first_match_Some _ (Prompt.set_status PS_WEAK weak_now) _ _ HP)
      as (i & Hi & Hid & _ & Hup).
    apply prompt_has_id_true in Hid.
    exists i. do 2 eexists. split; [done |]. split; [done |].
    split; [reflexivity |]. split; [reflexivity |]. split; [reflexivity |].
    unfold instants, run, m. rewrite mark_prompt_weak_eq, HP. simpl.
    rewrite Hsp, Hup. simpl.
    split; [reflexivity |]. split; [reflexivity |].
    repeat split. by intros ->.
Qed.

(** ** Version numbers *)

Lemma sort_version_desc_limit_1_max ps :
  match sort_version_desc_limit_1 ps with
  | [] => ps = []
  | q :: _ => In q ps ∧ ∀ p, In p ps → Prompt.version p ≤ Prompt.version q
  end.
Proof.
  induction ps as [|p ps IH]; simpl; [done |].
  destruct (sort_version_desc_limit_1 ps) as [|q rest].
  - subst ps. split; [by left |]. intros p' [<- | []]. lia.
  - destruct IH as [Hq Hmax].
    destruct (Prompt.version p <? Prompt.version q) eqn:Hlt.
    + apply Z.ltb_lt in Hlt. split; [by right |].
      intros p' [<- | Hp']; [lia | by apply Hmax].
    + apply Z.ltb_ge in Hlt. split; [by left |].
      intros p' [<- | Hp']; [lia |]. specialize (Hmax p' Hp'). lia.
Qed.

Lemma one_to_snoc n : one_to (S n) = one_to n ++ [Z.of_nat (S n)].
Proof. unfold one_to. by rewrite seq_S, List.map_app. Qed.

Lemma In_one_to v n : In v (one_to n) ↔ 1 ≤ v ≤ Z.of_nat n.
Proof.
  unfold one_to. rewrite in_map_iff. split.
  - intros (k & <- & Hk%in_seq). lia.
  - intros Hv. exists (Z.to_nat v). split; [lia |]. apply in_seq. lia.
Qed.

(** In a gapless lineage the greatest version is the number of prompts. *)
Lemma gapless_greatest ps :
  gapless_from_1 (List.map Prompt.version ps) →
  match sort_version_desc_limit_1 ps with
  | [] => ps = []
  | q :: _ => Prompt.version q = Z.of_nat (length ps)
  end.
Proof.
  unfold gapless_from_1. rewrite length_map. intros Hg.
  pose proof (sort_version_desc_limit_1_max ps) as Hmax.
  destruct (sort_version_desc_limit_1 ps) as [|q rest]; [done |].
  destruct Hmax as [Hq Hmax].
  assert (In (Prompt.version q) (one_to (length ps))) as Hin
    by (rewrite <- Hg; by apply in_map).
  apply In_one_to in Hin.
  assert (In (Z.of_nat (length ps)) (List.map Prompt.version ps)) as Hn.
  { rewrite Hg. apply In_one_to. destruct ps; [done | simpl; lia]. }
  apply in_map_iff in Hn as (p & Hp & Hpin). specialize (Hmax p Hpin). lia.
Qed.

Lemma lineage_versions_app s l db db' :
  lineage_versions s l (db ++ db')
  = lineage_versions s l db ++ lineage_versions s l db'.
Proof. unfold lineage_versions. by rewrite List.filter_app, List.map_app. Qed.

Lemma lineage_versions_update_first s l P f db :
  (∀ x, in_lineage s l (f x) = in_lineage s l x
        ∧ Prompt.version (f x) = Prompt.version x) →
  lineage_versions s l (update_first P f db) = lineage_versions s l db.
Proof.
  intros Hf. unfold lineage_versions.
  induction db as [|x db IH]; simpl; [done |].
  destruct (P x); simpl.
  - destruct (Hf x) as [-> Hv]. destruct (in_lineage s l x); simpl; by rewrite ?Hv.
  - destruct (in_lineage s l x); simpl; by rewrite IH.
Qed.

(** Appending to a gapless store a prompt numbered one above the size of
    its lineage keeps the store gapless. *)
Lemma gapless_insert db p :
  gapless_store db →
  Prompt.version p
  = Z.of_nat (S (length (lineage_versions (Prompt.fsm_state p)
                           (Prompt.language p) db))) →
  gapless_store (db ++ [p]).
Proof.
  intros Hdb Hv s l. specialize (Hdb s l). unfold gapless_from_1 in *.
  rewrite lineage_versions_app. unfold lineage_versions at 2 4. simpl.
  destruct (in_lineage s l p) eqn:Hl; simpl.
  - apply in_lineage_true in Hl as [<- <-].
    rewrite length_app. simpl. rewrite Nat.add_1_r, one_to_snoc.
    by rewrite <- Hdb, Hv.
  - by rewrite !app_nil_r.
Qed.

(** [create_prompt] keeps every lineage numbered 1, 2, ..., n. *)
Lemma create_prompt_keeps_gapless new_id created_now updated_now request db :
  gapless_store db →
  gapless_store (fst (run (create_prompt new_id created_now updated_now request) db)).
Proof.
  intros Hdb. unfold run. rewrite create_prompt_eq. simpl.
  apply gapless_insert; [done |]. simpl.
  pose proof (gapless_greatest
                (List.filter (in_lineage (cr_fsm_state request)
                                (cr_language request)) db)
                (Hdb _ _)) as Hmax.
  unfold lineage_versions. rewrite length_map.
  destruct (sort_version_desc_limit_1 _) as [|q rest].
  - rewrite Hmax. reflexivity.
  - rewrite Hmax. lia.
Qed.

(** [mark_prompt_weak] keeps every lineage numbered 1, 2, ..., n when the
    prompt it supersedes is the newest of its lineage. *)
Lemma mark_prompt_weak_newest_keeps_gapless weak_now new_id created_now
    updated_now prompt_id request db p :
  gapless_store db →
  first_match (prompt_has_id prompt_id) db = Some p →
  Prompt.version p
  = Z.of_nat (length (lineage_versions (Prompt.fsm_state p)
                        (Prompt.language p) db)) →
  gapless_store
    (fst (run (mark_prompt_weak weak_now new_id created_now updated_now
                 prompt_id request) db)).
Proof.
  intros Hdb Hp Hv. unfold run. rewrite mark_prompt_weak_eq, Hp.
  destruct (all_space _); simpl; [done |].
  assert (∀ s l,
            lineage_versions s l
              (update_first (prompt_has_id prompt_id)
                 (Prompt.set_status PS_WEAK weak_now) db)
            = lineage_versions s l db) as Hsame.
  { intros s l. by apply lineage_versions_update_first. }
  apply gapless_insert.
  - intros s l. unfold gapless_from_1. rewrite Hsame. apply Hdb.
  - simpl. rewrite Hsame, Hv. lia.
Qed.

Lemma final_app {D} (db : list D) ws ws' :
  final db (ws ++ ws') = final (final db ws) ws'.
Proof.
  unfold final. revert db. induction ws as [|w ws IH]; intros db; [done |].
  rewrite <- app_comm_cons, !final_cons. apply IH.
Qed.

Lemma prompt_run_cons op ops db :
  prompt_run (op :: ops) db = prompt_run ops (fst (run (prompt_handler op) db)).
Proof.
  unfold prompt_run, run. cbn [prompt_writes]. rewrite final_app.
  by destruct (prompt_handler op db).
Qed.

(** Creations alone number every lineage 1, 2, ..., n. *)
Lemma creations_are_gapless ops db :
  Forall (λ op, is_create op = true) ops →
  gapless_store db → gapless_store (prompt_run ops db).
Proof.
  revert db. induction ops as [|op ops IH]; intros db Hops Hdb; [done |].
  apply Forall_cons in Hops as [Hop Hops]. rewrite prompt_run_cons.
  apply IH; [done |].
  destruct op as [i c u r | | |]; try done.
  by apply create_prompt_keeps_gapless.
Qed.

Example three_creations :
  lineage_versions QUALIFICATION ENGLISH
    (prompt_run [ OpCreate "p1" 0 0 (qualification_en "a");
                  OpCreate "p2" 1 1 (qualification_en "b");
                  OpCreate "p3" 2 2 (qualification_en "c") ] [])
  = [1; 2; 3].
Proof. reflexivity. Qed.

(** C2 (the code departs from the claim).  [create_prompt] numbers a new
    prompt one above the greatest version of its lineage, but
    [mark_prompt_weak] numbers the replacement one above the prompt it
    supersedes.  After two creations in (qualification, en), marking the
    first prompt weak gives the versions 1, 2, 2 in creation order: version
    2 is used twice and the numbering is not 1, 2, 3. *)
Theorem mark_weak_reuses_version :
  Forall (λ op, is_create_or_mark_weak op = true) mark_older_weak
  ∧ lineage_versions QUALIFICATION ENGLISH (prompt_run mark_older_weak [])
    = [1; 2; 2]
  ∧ ¬ NoDup (lineage_versions QUALIFICATION ENGLISH
               (prompt_run mark_older_weak []))
  ∧ ¬ gapless_from_1 (lineage_versions QUALIFICATION ENGLISH
                        (prompt_run mark_older_weak [])).
Proof.
  assert (lineage_versions QUALIFICATION ENGLISH (prompt_run mark_older_weak [])
          = [1; 2; 2]) as H by reflexivity.
  split; [repeat constructor |]. split; [done |]. rewrite H. split.
  - intros Hnd. apply NoDup_cons in Hnd as [_ Hnd].
    apply NoDup_cons in Hnd as [Hnd _]. apply Hnd. by left.
  - unfold gapless_from_1. simpl. discriminate.
Qed.

(** ** Sequences of requests to the call session engine *)

Lemma run_tagged {D A B} (m : M D A) (g : A -> B) db :
  run (x ← m; mret (g x)) db
  = (final db (fst (m db)),
     match snd (m db) with
     | Raise e => Raise e
     | Return a => Return (g a)
     end).
Proof.
  unfold_M. destruct (m db) as [ws [e|a]]; simpl; [done |].
  by rewrite app_nil_r.
Qed.

Lemma update_data_id ut at' ns qu fin en c :
  Call.id (update_data ut at' ns qu fin en c) = Call.id c.
Proof. unfold update_data. by destruct fin, (bool_decide _). Qed.

Lemma update_data_turns ut at' ns qu fin en c :
  Call.turns (update_data ut at' ns qu fin en c) = Call.turns c ++ [ut; at'].
Proof. unfold update_data. by destruct fin, (bool_decide _). Qed.

Lemma update_data_state ut at' ns qu fin en c :
  Call.fsm_state (update_data ut at' ns qu fin en c) = ns
  ∧ Call.language (update_data ut at' ns qu fin en c) = Call.language c.
Proof. unfold update_data. by destruct fin, (bool_decide _). Qed.

Lemma update_data_end ut at' ns qu fin en c :
  update_data ut at' ns qu fin en c
  = (if fin then Call.set_ended CS_COMPLETED en ER_COMPLETED else id)
      (update_data ut at' ns qu false en c).
Proof. unfold update_data. by destruct fin. Qed.

Lemma has_id_update_data call_id ut at' ns qu fin en c :
  has_id call_id (update_data ut at' ns qu fin en c) = has_id call_id c.
Proof. unfold has_id. by rewrite update_data_id. Qed.

(** One [submitInput] request, by cases on the call found. *)
Lemma step_input u a un an en call_id utterance db :
  run (call_handler (OpInput u a un an en
         {| in_call_id := call_id; in_user_input := utterance |})) db
  = match first_match (has_id call_id) db with
    | None => (db, Raise {| status_code := 404; detail := "Call not found" |})
    | Some c =>
        if bool_decide (Call.status c = CS_ACTIVE) then
          match get_simulated_response (Call.fsm_state c) utterance (Call.language c) with
          | None => (db, Raise internal_error)
          | Some (text, next_state, is_final) =>
              (update_first (has_id call_id)
                 (update_data (user_turn_of u un utterance (Call.fsm_state c))
                    (aira_turn_of a an text next_state) next_state
                    (qualification_updates_of utterance) is_final en) db,
               Return (Answered
                 {| ir_call_id := call_id;
                    ir_aira_response := text;
                    ir_fsm_state := next_state;
                    ir_audio_url :=
                      Some ("/api/audio/" +:+ call_id +:+ "/"
                            +:+ pretty (length (Call.turns c) + 2 - 1)%nat);
                    ir_is_final := is_final |}))
          end
        else (db, Raise {| status_code := 400; detail := "Call is not active" |})
    end.
Proof.
  cbn [call_handler]. rewrite run_tagged, webcall_input_eq.
  destruct (first_match (has_id call_id) db) as [c|]; [| done].
  destruct (bool_decide _); [| done].
  by destruct (get_simulated_response _ _ _) as [[[text next_state] is_final]|].
Qed.

Lemma step_end now call_id db :
  run (call_handler (OpEnd now call_id)) db
  = match first_match (has_id_active call_id) db with
    | None => (db, Raise {| status_code := 404; detail := "Active call not found" |})
    | Some _ =>
        (update_first (has_id_active call_id)
           (Call.set_ended CS_COMPLETED now ER_USER_HANGUP) db,
         Return (Ended ("Call ended", call_id)))
    end.
Proof.
  cbn [call_handler]. rewrite run_tagged, webcall_end_eq.
  by destruct (first_match (has_id_active call_id) db).
Qed.

(** The turns of a call under successive successful inputs. *)
Lemma inputs_append_turns call_id ops :
  ∀ db c evs db',
    first_match (has_id call_id) db = Some c →
    Forall (is_input_on call_id) ops →
    call_run ops db = (evs, db') →
    Forall succeeded evs →
    ∃ c', first_match (has_id call_id) db' = Some c'
          ∧ Call.turns c' = Call.turns c ++ flat_map (event_turns call_id) evs
          ∧ Forall (served_input_on call_id) evs.
Proof.
  induction ops as [|op ops IH]; intros db c evs db' Hc Hops Hrun Hok.
  - simpl in Hrun. simplify_eq. exists c. simpl. by rewrite app_nil_r.
  - apply Forall_cons in Hops as [(u & a & un & an & en & utt & ->) Hops].
    cbn [call_run] in Hrun. rewrite step_input, Hc in Hrun.
    destruct (bool_decide (Call.status c = CS_ACTIVE)) eqn:Hact.
    2:{ destruct (call_run ops db) as [evs1 db1]. simplify_eq.
        apply Forall_cons in Hok as [[r Hr] _]. simpl in Hr. done. }
    apply bool_decide_eq_true in Hact.
    destruct (get_simulated_response _ _ _) as [[[text ns] fin]|] eqn:Hres.
    2:{ destruct (call_run ops db) as [evs1 db1]. simplify_eq.
        apply Forall_cons in Hok as [[r Hr] _]. simpl in Hr. done. }
    set (upd := update_data _ _ _ _ _ _) in Hrun.
    destruct (call_run ops (update_first (has_id call_id) upd db))
      as [evs1 db1] eqn:Hrest.
    simplify_eq. apply Forall_cons in Hok as [_ Hok].
    assert (first_match (has_id call_id) (update_first (has_id call_id) upd db)
            = Some (upd c)) as Hc1.
    { apply first_match_update_first; [| done].
      intros x. apply has_id_update_data. }
    destruct (IH _ _ _ _ Hc1 Hops Hrest Hok) as (c' & Hc' & Hturns & Hserved).
    exists c'. split; [done |]. split.
    + rewrite Hturns. unfold upd at 1. rewrite update_data_turns.
      cbn [flat_map]. unfold event_turns at 2. simpl. rewrite Hc. simpl.
      by rewrite <- app_assoc.
    + apply Forall_cons. split; [| done].
      exists u, a, un, an, en, utt. do 2 eexists. simpl.
      split; [done |]. split; [done |]. split; [exact Hc |].
      split; [done |]. split; [exact Hres |].
      unfold event_turns. simpl. by rewrite Hc.
Qed.

Lemma call_run_length ops db : length (fst (call_run ops db)) = length ops.
Proof.
  revert db. induction ops as [|op ops IH]; intros db; simpl; [done |].
  destruct (run (call_handler op) db) as [db1 r].
  specialize (IH db1). destruct (call_run ops db1). simpl in *. by rewrite IH.
Qed.

Lemma served_turns_length call_id evs :
  Forall (served_input_on call_id) evs →
  length (flat_map (event_turns call_id) evs) = (2 * length evs)%nat.
Proof.
  induction 1 as [|ev evs Hev _ IH]; simpl; [done |].
  destruct Hev as (u & a & un & an & en & utt & resp & c0 & _ & _ & _ & _ & _ & ->).
  rewrite length_app, IH. simpl. lia.
Qed.

(** C6.  Let [c] be the call the engine finds for [call_id].  If the
    requests [ops], all of them [submitInput] on [call_id], are served one
    after the other and all succeed, then the call's turns at the end are
    its turns at the start followed, request by request in the order of the
    requests, by two turns: the user's turn, tagged with the state the call
    was in when the request arrived, then the agent's turn, tagged with the
    state the resolver returned.  The earlier turns are unchanged and there
    are 2 * N more of them. *)
Theorem submit_input_appends_two_turns :
  ∀ call_id ops db c evs db',
    first_match (has_id call_id) db = Some c →
    Forall (is_input_on call_id) ops →
    call_run ops db = (evs, db') →
    Forall succeeded evs →
    ∃ c', first_match (has_id call_id) db' = Some c'
          ∧ Call.turns c' = Call.turns c ++ flat_map (event_turns call_id) evs
          ∧ Forall (served_input_on call_id) evs
          ∧ length (Call.turns c') = (length (Call.turns c) + 2 * length ops)%nat.
Proof.
  intros call_id ops db c evs db' Hc Hops Hrun Hok.
  destruct (inputs_append_turns call_id ops db c evs db' Hc Hops Hrun Hok)
    as (c' & Hc' & Hturns & Hserved).
  exists c'. repeat split; auto.
  rewrite Hturns, length_app, (served_turns_length _ _ Hserved).
  pose proof (call_run_length ops db) as Hlen. rewrite Hrun in Hlen.
  simpl in Hlen. lia.
Qed.

Lemma submit_input_appends_two_turns_witness :
  ∃ c c',
    first_match (has_id "c1") started_store = Some c
    ∧ first_match (has_id "c1") (snd (call_run two_inputs started_store)) = Some c'
    ∧ length (Call.turns c) = 1%nat
    ∧ length (Call.turns c') = 5%nat
    ∧ List.map CallTurn.fsm_state (Call.turns c')
      = [GREETING; GREETING; QUALIFICATION; QUALIFICATION; QUALIFICATION].
Proof.
  edestruct (submit_input_appends_two_turns "c1" two_inputs started_store)
    as (c' & Hc' & Hturns & Hserved & Hlen).
  - vm_compute. reflexivity.
  - repeat constructor; unfold is_input_on; simpl; eauto 10.
  - vm_compute. reflexivity.
  - repeat constructor; unfold succeeded; simpl; eauto.
  - eexists. exists c'. split; [vm_compute; reflexivity |].
    split; [exact Hc' |]. split; [reflexivity |].
    split; [exact Hlen |]. rewrite Hturns. reflexivity.
Defined.

(** ** When a call is ended *)

Lemma call_run_app ops1 ops2 db :
  call_run (ops1 ++ ops2) db
  = let '(evs1, db1) := call_run ops1 db in
    let '(evs2, db2) := call_run ops2 db1 in
    (evs1 ++ evs2, db2).
Proof.
  revert db. induction ops1 as [|op ops1 IH]; intros db; simpl.
  - by destruct (call_run ops2 db).
  - destruct (run (call_handler op) db) as [db1 r]. rewrite IH.
    destruct (call_run ops1 db1) as [evs1 db2].
    by destruct (call_run ops2 db2).
Qed.

Lemma start_ids_app ops1 ops2 :
  start_ids (ops1 ++ ops2) = start_ids ops1 ++ start_ids ops2.
Proof.
  induction ops1 as [|op ops1 IH]; simpl; [done |].
  destruct op; simpl; by rewrite IH.
Qed.

Lemma update_first_ids (P : Call.t -> bool) f db :
  (∀ x, Call.id (f x) = Call.id x) →
  List.map Call.id (update_first P f db) = List.map Call.id db.
Proof.
  intros Hf. induction db as [|x db IH]; simpl; [done |].
  destruct (P x); simpl; by rewrite ?Hf, ?IH.
Qed.

(** With unique identifiers, an update of the first match changes the
    document found and no document of another identifier. *)
Lemma update_first_unique_Forall {D} (key : D -> string) P f db c
    (Q Q' : D -> Prop) :
  NoDup (List.map key db) →
  first_match P db = Some c →
  (∀ x, In x db → key x ≠ key c → Q x → Q' x) →
  (Q c → Q' (f c)) →
  Forall Q db → Forall Q' (update_first P f db).
Proof.
  intros Hnd Hc Hother Hc' HQ.
  induction db as [|x db IH]; simpl in *; [apply Forall_nil_2 |].
  apply NoDup_cons in Hnd as [Hx Hnd]. apply Forall_cons in HQ as [HQx HQ].
  destruct (P x) eqn:HPx.
  - simplify_eq. apply Forall_cons_2; [auto |].
    rewrite Forall_forall in HQ. apply Forall_forall. intros y Hy.
    apply (Hother y); [right; by apply list_elem_of_In | | by apply HQ].
    intros Heq. apply Hx. rewrite <- Heq. apply list_elem_of_In, in_map.
    by apply list_elem_of_In.
  - apply Forall_cons_2.
    + apply Hother; [by left | | done].
      intros Heq. apply Hx. rewrite Heq.
      apply list_elem_of_In, in_map. by apply (first_match_In P).
    + apply IH; auto.
Qed.

Lemma Exists_snoc {A} (P : A -> Prop) l x :
  Exists P (l ++ [x]) ↔ Exists P l ∨ P x.
Proof. rewrite Exists_app, Exists_cons, Exists_nil. tauto. Qed.

(** A request that is neither a final answer nor an [end] on the call's
    identifier leaves the call's standing as it is. *)
Lemma history_ok_untouched evs ev c :
  ¬ final_input_on (Call.id c) ev → ¬ end_called_on (Call.id c) ev →
  call_history_ok evs c → call_history_ok (evs ++ [ev]) c.
Proof.
  intros Hf He. unfold call_history_ok. rewrite !Exists_snoc. tauto.
Qed.

(** A call that is no longer active keeps its standing under every request
    that is not a final answer on its identifier. *)
Lemma history_ok_ended evs ev c :
  ¬ final_input_on (Call.id c) ev → Call.status c ≠ CS_ACTIVE →
  call_history_ok evs c → call_history_ok (evs ++ [ev]) c.
Proof.
  intros Hf Hs. unfold call_history_ok. rewrite !Exists_snoc. tauto.
Qed.

Ltac not_final :=
  let H := fresh in
  intros H; destruct H as (? & ? & ? & ? & ? & ? & ? & ? & ? & ?);
  simpl in *; simplify_eq.

Ltac not_end :=
  let H := fresh in
  intros H; destruct H as (? & ? & ?); simpl in *; simplify_eq.

Lemma update_data_fields ut at' ns qu fin en c :
  Call.status (update_data ut at' ns qu fin en c)
  = (if fin then CS_COMPLETED else Call.status c)
  ∧ Call.end_time (update_data ut at' ns qu fin en c)
    = (if fin then Some en else Call.end_time c)
  ∧ Call.exit_reason (update_data ut at' ns qu fin en c)
    = (if fin then Some ER_COMPLETED else Call.exit_reason c).
Proof. unfold update_data. by destruct fin, (bool_decide _). Qed.

(** A refused [submitInput] changes nothing. *)
Lemma engine_step_refused ops evs db u a un an en request e :
  engine_invariant ops evs db →
  engine_invariant (ops ++ [OpInput u a un an en request])
    (evs ++ [ {| ev_before := db; ev_op := OpInput u a un an en request;
                 ev_outcome := Raise e |} ])
    db.
Proof.
  intros (Hids & Hok & Hin). unfold engine_invariant.
  rewrite start_ids_app. simpl. rewrite app_nil_r.
  split; [done |]. split.
  - eapply Forall_impl; [exact Hok |]. intros c Hc.
    apply history_ok_untouched; [not_final | not_end | done].
  - intros k'. rewrite !Exists_snoc. intros [[H | H] | [H | H]].
    + apply Hin. by left.
    + revert H. not_final.
    + apply Hin. by right.
    + revert H. not_end.
Qed.

Lemma engine_step ops evs db op :
  NoDup (start_ids (ops ++ [op])) →
  engine_invariant ops evs db →
  engine_invariant (ops ++ [op])
    (evs ++ [ {| ev_before := db; ev_op := op;
                 ev_outcome := snd (run (call_handler op) db) |} ])
    (fst (run (call_handler op) db)).
Proof.
  intros Hnd Hinv. pose proof Hinv as (Hids & Hok & Hin).
  rewrite start_ids_app in Hnd.
  assert (NoDup (List.map Call.id db)) as Hnd_db.
  { rewrite Hids. by apply NoDup_app in Hnd as [? _]. }
  destruct op as [k sid tid tn sn req | u a un an en [k utt] | now k].
  - (* start *)
    cbn [call_handler]. rewrite run_tagged.
    destruct (webcall_start_eq k sid tid tn sn req db) as (text & _ & ->).
    simpl. unfold engine_invariant. rewrite start_ids_app. simpl.
    assert (¬ In k (List.map Call.id db)) as Hfresh.
    { rewrite Hids. simpl in Hnd. apply NoDup_app in Hnd as (_ & Hdisj & _).
      intros Hk%list_elem_of_In. apply (Hdisj k Hk). by left. }
    split; [by rewrite List.map_app, Hids |]. split.
    + apply Forall_app. split.
      * eapply Forall_impl; [exact Hok |]. intros c Hc.
        apply history_ok_untouched; [not_final | not_end | done].
      * apply Forall_cons_2; [| apply Forall_nil_2].
        left. simpl. rewrite !Exists_snoc. repeat split; auto.
        -- intros [H | H]; [apply Hfresh, Hin; by left | revert H; not_final].
        -- intros [H | H]; [apply Hfresh, Hin; by right | revert H; not_end].
    + intros k'. rewrite !Exists_snoc, List.map_app, in_app_iff.
      intros [[H | H] | [H | H]].
      * left. apply Hin. by left.
      * revert H. not_final.
      * left. apply Hin. by right.
      * revert H. not_end.
  - (* input *)
    rewrite step_input.
    destruct (first_match (has_id k) db) as [c0|] eqn:Hc0;
      [| by apply engine_step_refused].
    destruct (bool_decide (Call.status c0 = CS_ACTIVE)) eqn:Hact;
      [| by apply engine_step_refused].
    destruct (get_simulated_response _ _ _) as [[[text ns] fin]|] eqn:Hres;
      [| by apply engine_step_refused].
    apply bool_decide_eq_true in Hact.
    destruct (first_match_In _ _ _ Hc0) as [Hc0in Hk%has_id_true].
    cbn [fst snd]. set (upd := update_data _ _ _ _ _ _).
    set (ev := {| ev_before := db |}).
    unfold engine_invariant. rewrite start_ids_app. simpl. rewrite app_nil_r.
    assert (List.map Call.id (update_first (has_id k) upd db)
            = List.map Call.id db) as Hids'.
    { apply update_first_ids. intros x. apply update_data_id. }
    split; [by rewrite Hids' |]. split.
    + apply (update_first_unique_Forall Call.id _ _ _ c0 (call_history_ok evs));
        auto.
      * intros x Hx Hne Hxok. apply history_ok_untouched; [| not_end | done].
        intros (? & ? & ? & ? & ? & ? & ? & Hop & _). simpl in Hop. congruence.
      * intros [(Hs & He & Hx & Hnf & Hne) | [(Hs & _) | (Hs & _)]];
          [| congruence | congruence].
        unfold call_history_ok, upd.
        destruct (update_data_fields
                    (user_turn_of u un utt (Call.fsm_state c0))
                    (aira_turn_of a an text ns) ns
                    (qualification_updates_of utt) fin en c0)
          as (-> & -> & ->).
        rewrite update_data_id, !Exists_snoc. destruct fin.
        -- right. left. repeat split; eauto.
           right. exists u, a, un, an, en, utt. eexists. simpl.
           rewrite Hk. repeat split; reflexivity.
        -- left. repeat split; auto.
           ++ intros [H | H]; [done | revert H; not_final].
           ++ intros [H | H]; [done | revert H; not_end].
    + intros k'. rewrite Hids', !Exists_snoc. intros [[H | H] | [H | H]].
      * apply Hin. by left.
      * destruct H as (? & ? & ? & ? & ? & ? & ? & Hop & _). simpl in Hop.
        simplify_eq. by apply in_map.
      * apply Hin. by right.
      * revert H. not_end.
  - (* end *)
    rewrite step_end.
    unfold engine_invariant. rewrite start_ids_app. simpl. rewrite app_nil_r.
    destruct (first_match (has_id_active k) db) as [c0|] eqn:Hc0; cbn [fst snd].
    + destruct (first_match_In _ _ _ Hc0) as [Hc0in [Hk Hact]%has_id_active_true].
      assert (List.map Call.id
                (update_first (has_id_active k)
                   (Call.set_ended CS_COMPLETED now ER_USER_HANGUP) db)
              = List.map Call.id db) as Hids'.
      { by apply update_first_ids. }
      split; [by rewrite Hids' |]. split.
      * apply (update_first_unique_Forall Call.id _ _ _ c0 (call_history_ok evs));
          auto.
        -- intros x Hx Hne Hxok. apply history_ok_untouched; [not_final | | done].
           intros (? & Hop & _). simpl in Hop. congruence.
        -- intros [(Hs & He & Hx & Hnf & Hne) | [(Hs & _) | (Hs & _)]];
             [| congruence | congruence].
           right. right. simpl. rewrite !Exists_snoc. repeat split; eauto.
           ++ intros [H | H]; [done | revert H; not_final].
           ++ right. exists now. simpl. split; [by rewrite Hk |].
              by apply in_map.
      * intros k'. rewrite Hids', !Exists_snoc. intros [[H | H] | [H | H]].
        -- apply Hin. by left.
        -- revert H. not_final.
        -- apply Hin. by right.
        -- by destruct H as (? & _ & H).
    + split; [done |]. split.
      * apply Forall_forall. intros c Hc%list_elem_of_In.
        rewrite Forall_forall in Hok.
        pose proof (Hok c (proj2 (list_elem_of_In _ _) Hc)) as Hcok.
        destruct (decide (Call.status c = CS_ACTIVE)) as [Hs | Hs].
        -- apply history_ok_untouched; [not_final | | done].
           intros (? & Hop & _). simpl in Hop. simplify_eq.
           pose proof (proj1 (first_match_None _ _) Hc0 c Hc) as Hno.
           assert (has_id_active (Call.id c) c = true) as Hyes;
             [by apply has_id_active_true | congruence].
        -- apply history_ok_ended; [not_final | done | done].
      * intros k'. rewrite !Exists_snoc. intros [[H | H] | [H | H]].
        -- apply Hin. by left.
        -- revert H. not_final.
        -- apply Hin. by right.
        -- by destruct H as (? & _ & H).
Qed.

(** The invariant holds after every sequence of requests served from the
    empty collection, the [start] requests drawing distinct identifiers. *)
Lemma engine_reachable ops :
  ∀ evs db,
    NoDup (start_ids ops) → call_run ops [] = (evs, db) →
    engine_invariant ops evs db.
Proof.
  induction ops as [|op ops IH] using rev_ind; intros evs db Hnd Hrun.
  - simpl in Hrun. simplify_eq. split; [done |]. split; [apply Forall_nil_2 |].
    intros k [H | H]; by apply Exists_nil in H.
  - rewrite call_run_app in Hrun.
    destruct (call_run ops []) as [evs0 db0] eqn:Hrun0. cbn [call_run] in Hrun.
    pose proof (engine_step ops evs0 db0 op Hnd) as Hstep.
    destruct (run (call_handler op) db0) as [db1 r]. simplify_eq.
    apply Hstep, IH; [| done].
    rewrite start_ids_app in Hnd. by apply NoDup_app in Hnd as [? _].
Qed.

(** C7.  After every sequence of start, submitInput and end requests served
    from the empty collection (the start requests drawing distinct call
    identifiers), every call has its end_time set exactly when its status is
    not active, and likewise its exit_reason.  A call is completed, with
    end_time and exit_reason set, exactly when some earlier submitInput on
    it returned is_final = True or some earlier end was issued on it; its
    exit reason is completed in the first case and user_hangup when no
    submitInput on it returned is_final = True. *)
Theorem ended_exactly_when_final_or_hung_up :
  ∀ ops evs db,
    NoDup (start_ids ops) →
    call_run ops [] = (evs, db) →
    ∀ c, In c db →
      ended_iff_not_active c
      ∧ ((Call.status c = CS_COMPLETED
          ∧ is_Some (Call.end_time c) ∧ is_Some (Call.exit_reason c))
         ↔ (Exists (final_input_on (Call.id c)) evs
            ∨ Exists (end_called_on (Call.id c)) evs))
      ∧ (Exists (final_input_on (Call.id c)) evs →
         Call.exit_reason c = Some ER_COMPLETED)
      ∧ (¬ Exists (final_input_on (Call.id c)) evs →
         Exists (end_called_on (Call.id c)) evs →
         Call.exit_reason c = Some ER_USER_HANGUP).
Proof.
  intros ops evs db Hnd Hrun c Hc.
  destruct (engine_reachable ops evs db Hnd Hrun) as (_ & Hok & _).
  rewrite Forall_forall in Hok.
  specialize (Hok c (proj2 (list_elem_of_In _ _) Hc)).
  unfold ended_iff_not_active.
  destruct Hok as [(Hs & He & Hx & Hnf & Hne)
                  | [(Hs & He & Hx & Hf) | (Hs & He & Hx & Hnf & Hec)]];
    rewrite Hs, Hx; rewrite ?He.
  all: repeat split; intros; try done; try tauto; eauto.
  match goal with H : CS_ACTIVE = CS_COMPLETED ∧ _ |- _ => by destruct H end.
Qed.

(** ** The end-to-end scenario *)

Lemma update_data_qualification ut at' ns qu fin en c :
  Call.qualification_data (update_data ut at' ns qu fin en c)
  = qu ∪ Call.qualification_data c
  ∧ Call.demo_intent (update_data ut at' ns qu fin en c)
    = (if bool_decide (qu !! "demo_intent" = Some true) then true
       else Call.demo_intent c).
Proof. unfold update_data. by destruct fin, (bool_decide _). Qed.

(** A [submitInput] on the call that was started last, when no older call
    has its identifier. *)
Lemma step_input_last db c u a un an en utterance text ns fin :
  ¬ In (Call.id c) (List.map Call.id db) →
  Call.status c = CS_ACTIVE →
  get_simulated_response (Call.fsm_state c) utterance (Call.language c)
  = Some (text, ns, fin) →
  run (call_handler (OpInput u a un an en
         {| in_call_id := Call.id c; in_user_input := utterance |})) (db ++ [c])
  = (db ++ [ update_data (user_turn_of u un utterance (Call.fsm_state c))
               (aira_turn_of a an text ns) ns
               (qualification_updates_of utterance) fin en c ],
     Return (Answered
       {| ir_call_id := Call.id c;
          ir_aira_response := text;
          ir_fsm_state := ns;
          ir_audio_url :=
            Some ("/api/audio/" +:+ Call.id c +:+ "/"
                  +:+ pretty (length (Call.turns c) + 2 - 1)%nat);
          ir_is_final := fin |})).
Proof.
  intros Hfresh Hact Hres.
  assert (first_match (has_id (Call.id c)) db = None) as Hnone.
  { apply first_match_None. intros d Hd.
    destruct (has_id (Call.id c) d) eqn:Hid; [| done].
    apply has_id_true in Hid. destruct Hfresh. rewrite <- Hid. by apply in_map. }
  assert (has_id (Call.id c) c = true) as Hself by by apply has_id_true.
  rewrite step_input, first_match_app_r, Hself by done.
  rewrite (bool_decide_eq_true_2 _ Hact), Hres.
  by rewrite update_first_app_r.
Qed.

Lemma step_start call_id session_id turn_id turn_now start_now request db :
  ∃ text,
    get_simulated_response GREETING "" (start_language request)
    = Some (text, QUALIFICATION, false)
    ∧ run (call_handler (OpStart call_id session_id turn_id turn_now start_now
                           request)) db
      = (db ++ [ {| Call.id := call_id;
                    Call.session_id := session_id;
                    Call.status := CS_ACTIVE;
                    Call.fsm_state := GREETING;
                    Call.language := start_language request;
                    Call.test_mode := start_test_mode request;
                    Call.start_time := start_now;
                    Call.end_time := None;
                    Call.exit_reason := None;
                    Call.turns :=
                      [ aira_turn_of turn_id turn_now text GREETING ];
                    Call.qualification_data := ∅;
                    Call.demo_intent := false;
                    Call.demo_confirmed := false;
                    Call.objections := [] |} ],
         Return (Started
           {| sr_call_id := call_id;
              sr_session_id := session_id;
              sr_initial_message := text;
              sr_fsm_state := GREETING;
              sr_audio_url := Some ("/api/audio/" +:+ call_id +:+ "/0") |})).
Proof.
  destruct (webcall_start_eq call_id session_id turn_id turn_now start_now
              request db) as (text & Ht & Heq).
  exists text. split; [done |].
  cbn [call_handler]. by rewrite run_tagged, Heq.
Qed.

(** C4 (amended).  A session started in English is in the greeting state,
    not in qualification.  Whatever the collection holds, if the call
    identifier is new: "I am interested in a demo" is answered from the
    greeting state with state confirmation and is_final = False, and the
    call then has qualification_data.demo_intent = True and demo_intent =
    True; "yes please" is answered with state confirmation; "no thanks, ok
    bye" is answered with state closing and is_final = True, and the call is
    then completed.  From the qualification state the resolver answers the
    first utterance with demo_offer. *)
Theorem end_to_end_from_greeting :
  ∀ db call_id o0 o1 o2 o3 evs db',
    ¬ In call_id (List.map Call.id db) →
    starts_english call_id o0 →
    says call_id "I am interested in a demo" o1 →
    says call_id "yes please" o2 →
    says call_id "no thanks, ok bye" o3 →
    call_run [o0; o1; o2; o3] db = (evs, db') →
    ∃ r0 r1 r2 r3 c0 c1 c3,
      ev_outcome <$> evs
      = [ Return (Started r0); Return (Answered r1);
          Return (Answered r2); Return (Answered r3) ]
      ∧ sr_fsm_state r0 = GREETING
      ∧ (ev_before <$> evs) !! 1%nat = Some (db ++ [c0])
      ∧ Call.fsm_state c0 = GREETING
      ∧ ir_fsm_state r1 = CONFIRMATION ∧ ir_is_final r1 = false
      ∧ (ev_before <$> evs) !! 2%nat = Some (db ++ [c1])
      ∧ Call.qualification_data c1 !! "demo_intent" = Some true
      ∧ Call.demo_intent c1 = true
      ∧ Call.status c1 = CS_ACTIVE
      ∧ ir_fsm_state r2 = CONFIRMATION ∧ ir_is_final r2 = false
      ∧ ir_fsm_state r3 = CLOSING ∧ ir_is_final r3 = true
      ∧ db' = db ++ [c3]
      ∧ Call.id c3 = call_id
      ∧ Call.status c3 = CS_COMPLETED
      ∧ Call.exit_reason c3 = Some ER_COMPLETED
      ∧ (∀ language, ∃ text,
           get_simulated_response QUALIFICATION "I am interested in a demo" language
           = Some (text, DEMO_OFFER, false)).
Proof.
  intros db call_id o0 o1 o2 o3 evs db' Hfresh
    (sid & tid & tn & sn & tm & ->) (u1 & a1 & un1 & an1 & en1 & ->)
    (u2 & a2 & un2 & an2 & en2 & ->) (u3 & a3 & un3 & an3 & en3 & ->) Hrun.
  cbn [call_run] in Hrun.
  destruct (step_start call_id sid tid tn sn
              {| start_test_mode := tm; start_language := ENGLISH |} db)
    as (text & _ & Heq).
  rewrite Heq in Hrun. clear Heq. cbn [start_language start_test_mode] in Hrun.
  set (c0 := {| Call.id := call_id |}) in Hrun.
  (* first input, from greeting *)
  epose proof (step_input_last db c0 u1 a1 un1 an1 en1
                 "I am interested in a demo" _ CONFIRMATION false
                 Hfresh eq_refl eq_refl) as Hs1.
  change (Call.id c0) with call_id in Hs1. rewrite Hs1 in Hrun. clear Hs1.
  set (c1 := update_data _ _ _ _ _ _ c0) in Hrun.
  assert (Call.id c1 = call_id) as Hid1 by (unfold c1; by rewrite update_data_id).
  assert (Call.status c1 = CS_ACTIVE) as Hact1.
  { unfold c1. by rewrite (proj1 (update_data_fields _ _ _ _ _ _ _)). }
  assert (Call.fsm_state c1 = CONFIRMATION ∧ Call.language c1 = ENGLISH)
    as [Hst1 Hl1].
  { unfold c1. by rewrite !(proj1 (update_data_state _ _ _ _ _ _ _)),
                          !(proj2 (update_data_state _ _ _ _ _ _ _)). }
  (* second input, from confirmation *)
  assert (∃ t, get_simulated_response (Call.fsm_state c1) "yes please"
                 (Call.language c1) = Some (t, CONFIRMATION, false))
    as [t2 Hres2] by (rewrite Hst1, Hl1; eexists; reflexivity).
  assert (¬ In (Call.id c1) (List.map Call.id db)) as Hfresh1 by by rewrite Hid1.
  pose proof (step_input_last db c1 u2 a2 un2 an2 en2 _ _ _ _
                Hfresh1 Hact1 Hres2) as Hs2.
  rewrite Hid1 in Hs2. rewrite Hs2 in Hrun. clear Hs2.
  set (c2 := update_data _ _ _ _ _ _ c1) in Hrun.
  assert (Call.id c2 = call_id) as Hid2
    by (unfold c2; by rewrite update_data_id).
  assert (Call.status c2 = CS_ACTIVE) as Hact2.
  { unfold c2. by rewrite (proj1 (update_data_fields _ _ _ _ _ _ _)). }
  assert (Call.fsm_state c2 = CONFIRMATION ∧ Call.language c2 = ENGLISH)
    as [Hst2 Hl2].
  { unfold c2. by rewrite !(proj1 (update_data_state _ _ _ _ _ _ _)),
                          !(proj2 (update_data_state _ _ _ _ _ _ _)). }
  (* third input *)
  assert (∃ t, get_simulated_response (Call.fsm_state c2) "no thanks, ok bye"
                 (Call.language c2) = Some (t, CLOSING, true))
    as [t3 Hres3] by (rewrite Hst2, Hl2; eexists; reflexivity).
  assert (¬ In (Call.id c2) (List.map Call.id db)) as Hfresh2 by by rewrite Hid2.
  pose proof (step_input_last db c2 u3 a3 un3 an3 en3 _ _ _ _
                Hfresh2 Hact2 Hres3) as Hs3.
  rewrite Hid2 in Hs3. rewrite Hs3 in Hrun. clear Hs3.
  set (c3 := update_data _ _ _ _ _ _ c2) in Hrun.
  pose proof (f_equal fst Hrun) as Hevs. pose proof (f_equal snd Hrun) as Hdb.
  cbn [fst snd] in Hevs, Hdb. subst evs db'. clear Hrun.
  do 4 eexists. exists c0, c1, c3.
  split; [reflexivity |]. split; [reflexivity |]. split; [reflexivity |].
  split; [reflexivity |]. split; [reflexivity |]. split; [reflexivity |].
  split; [reflexivity |].
  split.
  { unfold c1. rewrite (proj1 (update_data_qualification _ _ _ _ _ _ _)).
    apply lookup_union_Some_l. vm_compute. reflexivity. }
  split.
  { unfold c1. rewrite (proj2 (update_data_qualification _ _ _ _ _ _ _)).
    reflexivity. }
  split; [done |].
  split; [reflexivity |]. split; [reflexivity |].
  split; [reflexivity |]. split; [reflexivity |]. split; [reflexivity |].
  split; [unfold c3; by rewrite update_data_id |].
  split; [unfold c3; by rewrite (proj1 (update_data_fields _ _ _ _ _ _ _)) |].
  split.
  { unfold c3.
    destruct (update_data_fields
                (user_turn_of u3 un3 "no thanks, ok bye" (Call.fsm_state c2))
                (aira_turn_of a3 an3 t3 CLOSING) CLOSING
                (qualification_updates_of "no thanks, ok bye") true en3 c2)
      as (_ & _ & ->). reflexivity. }
  intros []; eexists; reflexivity.
Qed.

(** C4 (as stated, refuted).  In the scenario served from the empty
    collection, the answer to "I am interested in a demo" does not carry
    the state demo_offer. *)
Lemma end_to_end_as_claimed_fails :
  ¬ ∃ r1,
      (ev_outcome <$> fst (call_run demo_scenario [])) !! 1%nat
      = Some (Return (Answered r1))
      ∧ ir_fsm_state r1 = DEMO_OFFER
      ∧ ir_is_final r1 = false.
Proof.
  intros (r1 & H & Hs & _). vm_compute in H. injection H as <-.
  discriminate Hs.
Qed.

Lemma end_to_end_from_greeting_witness :
  ∃ r1 r3 c3,
    (ev_outcome <$> fst (call_run demo_scenario [])) !! 1%nat
    = Some (Return (Answered r1))
    ∧ ir_fsm_state r1 = CONFIRMATION
    ∧ (ev_outcome <$> fst (call_run demo_scenario [])) !! 3%nat
      = Some (Return (Answered r3))
    ∧ ir_fsm_state r3 = CLOSING ∧ ir_is_final r3 = true
    ∧ snd (call_run demo_scenario []) = [c3]
    ∧ Call.status c3 = CS_COMPLETED.
Proof.
  destruct (end_to_end_from_greeting [] "c1"
              (start_english "c1" "s1" "t0")
              (say 1 "c1" "I am interested in a demo")
              (say 2 "c1" "yes please")
              (say 3 "c1" "no thanks, ok bye")
              (fst (call_run demo_scenario []))
              (snd (call_run demo_scenario [])))
    as (r0 & r1 & r2 & r3 & c0 & c1 & c3 & Hout & _ & _ & _ & Hs1 & _ & _ & _
        & _ & _ & _ & _ & Hs3 & Hf3 & Hdb & _ & Hst & _).
  - simpl. tauto.
  - unfold starts_english, start_english. eauto 10.
  - unfold says, say. eauto 10.
  - unfold says, say. eauto 10.
  - unfold says, say. eauto 10.
  - exact (surjective_pairing (call_run demo_scenario [])).
  - exists r1, r3, c3. rewrite Hout.
    split; [reflexivity |]. split; [exact Hs1 |]. split; [reflexivity |].
    split; [exact Hs3 |]. split; [exact Hf3 |]. split; [exact Hdb | exact Hst].
Defined.

Lemma at_most_one_active_per_lineage_witness :
  Forall at_most_one_active
    (prompt_instants (publish_then_draft ++ [ OpPublish 4 5 "p2" ]) [])
  ∧ (∃ db1 db2,
       instants (publish_prompt 4 5 "p2") one_active_store
       = [one_active_store; db1; db2]
       ∧ active_count QUALIFICATION ENGLISH one_active_store = 1%nat
       ∧ active_count QUALIFICATION ENGLISH db1 = 0%nat
       ∧ active_count QUALIFICATION ENGLISH db2 = 1%nat)
  ∧ Forall (no_new_active one_active_store)
      (fst (prompt_handler
              (OpMarkWeak 6 "p3" 7 7 "p1"
                 {| mw_replacement_text := "X"; mw_notes := None |})
              one_active_store)).
Proof.
  destruct at_most_one_active_per_lineage as (Hinv & Hpub & Hother).
  split; [| split].
  - apply Hinv. intros s l. unfold active_count. simpl. lia.
  - edestruct (Hpub 4 5 "p2" one_active_store)
      as (i & db1 & db2 & Hinst & _ & _ & Hzero & _ & Hone).
    + vm_compute. reflexivity.
    + reflexivity.
    + exists db1, db2. split; [exact Hinst |].
      split; [vm_compute; reflexivity |].
      split; [exact Hzero | exact Hone].
  - apply Hother. reflexivity.
Defined.

Lemma mark_prompt_weak_supersedes_witness :
  (run (mark_prompt_weak 1 "p9" 2 2 "zz"
          {| mw_replacement_text := "X"; mw_notes := None |}) one_active_store
   = (one_active_store,
      Raise {| status_code := 404; detail := "Prompt not found" |}))
  ∧ (run (mark_prompt_weak 1 "p9" 2 2 "p1"
            {| mw_replacement_text := "   "; mw_notes := None |}) one_active_store
     = (one_active_store,
        Raise {| status_code := 400;
                 detail := "Replacement text is required when marking a prompt as weak" |}))
  ∧ (∃ new,
       snd (run (mark_prompt_weak 1 "p9" 2 2 "p1"
                   {| mw_replacement_text := "X"; mw_notes := None |})
              one_active_store)
       = Return new
       ∧ Prompt.version new = 2
       ∧ Prompt.status new = PS_DRAFT
       ∧ Prompt.text new = "X"
       ∧ Prompt.notes new = Some "Replacement for weak prompt p1").
Proof.
  split; [| split].
  - eapply proj2, (proj1 (mark_prompt_weak_supersedes 1 "p9" 2 2 "zz" "X" None
                              one_active_store)).
    intros p Hp. vm_compute in Hp.
    destruct Hp as [<- | [<- | []]]; discriminate.
  - edestruct (mark_prompt_weak_supersedes 1 "p9" 2 2 "p1" "   " None
                 one_active_store) as (_ & H & _).
    eapply proj2, H; [vm_compute; reflexivity | reflexivity].
  - edestruct (mark_prompt_weak_supersedes 1 "p9" 2 2 "p1" "X" None
                 one_active_store) as (_ & _ & H).
    edestruct H as (i & P' & new & _ & _ & _ & _ & _ & Hrun & _ & _ & _ & _
                    & Hv & Hs & Ht & Hn).
    + vm_compute. reflexivity.
    + reflexivity.
    + exists new. rewrite Hrun. simpl. repeat split; auto.
Defined.

Lemma webcall_end_succeeds_exactly_once_witness :
  (run (webcall_end 9 "c2") started_store
   = (started_store,
      Raise {| status_code := 404; detail := "Active call not found" |}))
  ∧ (∃ db',
       run (webcall_end 9 "c1") started_store
       = (db', Return ("Call ended", "c1"))
       ∧ run (webcall_end 10 "c1") db'
         = (db', Raise {| status_code := 404;
                          detail := "Active call not found" |})).
Proof.
  split.
  - eapply proj2, (proj1 (webcall_end_succeeds_exactly_once 9 10 "c2" started_store)).
    intros c Hc. vm_compute in Hc. destruct Hc as [<- | []]. discriminate.
  - edestruct (proj2 (webcall_end_succeeds_exactly_once 9 10 "c1" started_store))
      as (i & c' & _ & _ & _ & _ & _ & H1 & H2).
    + apply (bool_decide_unpack _). vm_compute. exact I.
    + left. reflexivity.
    + reflexivity.
    + reflexivity.
    + eexists. split; [exact H1 | exact H2].
Defined.

Lemma ended_exactly_when_final_or_hung_up_witness :
  ∃ c, first_match (has_id "c1") (snd (call_run hang_up_session [])) = Some c
       ∧ ended_iff_not_active c
       ∧ Call.status c = CS_COMPLETED
       ∧ Exists (end_called_on "c1") (fst (call_run hang_up_session [])).
Proof.
  eexists. split; [vm_compute; reflexivity |].
  edestruct (ended_exactly_when_final_or_hung_up hang_up_session
               (fst (call_run hang_up_session []))
               (snd (call_run hang_up_session [])))
    as (H1 & H2 & _).
  - apply (bool_decide_unpack _). vm_compute. exact I.
  - exact (surjective_pairing (call_run hang_up_session [])).
  - vm_compute. left. reflexivity.
  - split; [exact H1 |]. split; [reflexivity |].
    apply Exists_cons. right. apply Exists_cons. right.
    apply Exists_cons. right. apply Exists_cons. left.
    exists 2. split; [reflexivity |]. vm_compute. auto.
Defined.

(** * Further properties of the code *)

(** ** The FSM registry *)

(** X1.  Every state of the enumeration has an entry in [FSM_DEFINITIONS],
    so [get_fsm_state] never answers 404; the entry is filed under its own
    state, is terminal exactly when it declares no successor, and never
    declares the state its own successor.  [get_fsm_states] lists the nine
    entries, one per state. *)
Theorem fsm_registry_well_formed :
  (∀ state,
     ∃ info,
       get_fsm_state state = Return info
       ∧ info_state info = state
       ∧ (info_is_terminal info = true ↔ info_transitions info = [])
       ∧ ¬ In state (info_transitions info)
       ∧ In info get_fsm_states)
  ∧ List.map info_state get_fsm_states = fsm_keys
  ∧ NoDup fsm_keys
  ∧ ∀ state, In state fsm_keys.
Proof.
  split; [| split; [reflexivity | split]].
  - intros []; eexists; (split; [reflexivity |]); (split; [reflexivity |]);
      (split; [split; intros; discriminate || reflexivity |]);
      (split; [simpl; intuition discriminate | simpl; tauto]).
  - apply (bool_decide_unpack _). vm_compute. exact I.
  - intros []; simpl; tauto.
Qed.

(** ** The resolver *)

Lemma lower_char_idempotent c : lower_char (lower_char c) = lower_char c.
Proof.
  destruct c as [[] [] [] [] [] [] [] []]; reflexivity.
Qed.

Lemma lower_idempotent s : lower (lower s) = lower s.
Proof.
  induction s as [|c s IH]; simpl; [done |].
  by rewrite lower_char_idempotent, IH.
Qed.

Lemma detect_next_state_cases state user_input language :
  detect_next_state state user_input language
  = if has_affirmative user_input
    then Some (if decide (state = QUALIFICATION) then DEMO_OFFER else CONFIRMATION)
    else if has_negative user_input then Some CLOSING
    else if has_objection user_input then Some OBJECTION_HANDLING
    else match responses state with
         | Some table =>
             match get_or_english table language with
             | Some (_, next_state, _) => Some next_state
             | None => None
             end
         | None => Some state
         end.
Proof. reflexivity. Qed.

(** A resolver answer names one of the five answer states and is final
    exactly for closing. *)
Lemma resolver_answer_inv state user_input language text next_state is_final :
  get_simulated_response state user_input language
  = Some (text, next_state, is_final) →
  In next_state answer_states ∧ (is_final = true ↔ next_state = CLOSING).
Proof.
  unfold get_simulated_response. rewrite detect_next_state_cases.
  destruct (has_affirmative user_input);
    [ destruct state, language; intros [= <- <- <-]; simpl;
      intuition discriminate |].
  destruct (has_negative user_input);
    [ destruct language; intros [= <- <- <-]; simpl; intuition discriminate |].
  destruct (has_objection user_input);
    [ destruct language; intros [= <- <- <-]; simpl; intuition discriminate |].
  destruct state, language; intros [= <- <- <-]; simpl; intuition discriminate.
Qed.

(** X2.  Whatever the state, utterance and language, the resolver answers
    with one of the five states qualification, demo_offer, confirmation,
    closing, objection_handling (never greeting, language_selection,
    transfer or fallback), and its answer is final exactly when that state
    is closing. *)
Theorem resolver_answer_states :
  ∀ state user_input language,
    ∃ text next_state is_final,
      get_simulated_response state user_input language
      = Some (text, next_state, is_final)
      ∧ In next_state answer_states
      ∧ (is_final = true ↔ next_state = CLOSING).
Proof.
  intros state user_input language.
  destruct (get_simulated_response_total state user_input language)
    as (text & next_state & is_final & Hres).
  exists text, next_state, is_final. split; [exact Hres |].
  by eapply resolver_answer_inv.
Qed.

(** X3.  A language without templates is answered in English: French and
    German get exactly the English answer.  The next state and the finality
    of an answer do not depend on the language at all. *)
Theorem resolver_language_fallback :
  ∀ state user_input,
    get_simulated_response state user_input FRENCH
    = get_simulated_response state user_input ENGLISH
    ∧ get_simulated_response state user_input GERMAN
      = get_simulated_response state user_input ENGLISH
    ∧ ∀ l l',
        (λ r : Response, (r.1.2, r.2)) <$> get_simulated_response state user_input l
        = (λ r : Response, (r.1.2, r.2)) <$> get_simulated_response state user_input l'.
Proof.
  intros state user_input.
  unfold get_simulated_response. setoid_rewrite detect_next_state_cases.
  destruct (has_affirmative user_input);
    [ destruct state; (split; [reflexivity |]); (split; [reflexivity |]);
      intros [] []; reflexivity |].
  destruct (has_negative user_input);
    [ (split; [reflexivity |]); (split; [reflexivity |]);
      intros [] []; reflexivity |].
  destruct (has_objection user_input);
    [ (split; [reflexivity |]); (split; [reflexivity |]);
      intros [] []; reflexivity |].
  destruct state; (split; [reflexivity |]); (split; [reflexivity |]);
    intros [] []; reflexivity.
Qed.

(** X4.  The resolver is case-insensitive: two utterances that differ only
    in the case of their ASCII letters get the same answer, and an utterance
    gets the answer of its lower-case form. *)
Theorem resolver_case_insensitive :
  ∀ state u1 u2 language,
    lower u1 = lower u2 →
    get_simulated_response state u1 language
    = get_simulated_response state u2 language
    ∧ get_simulated_response state (lower u1) language
      = get_simulated_response state u1 language.
Proof.
  intros state u1 u2 language Heq.
  unfold get_simulated_response, detect_next_state.
  by rewrite lower_idempotent, Heq.
Qed.

Lemma resolver_case_insensitive_witness :
  get_simulated_response QUALIFICATION "YES, a Demo" ENGLISH
  = get_simulated_response QUALIFICATION "yes, a demo" ENGLISH
  ∧ get_simulated_response QUALIFICATION (lower "YES, a Demo") ENGLISH
    = get_simulated_response QUALIFICATION "YES, a Demo" ENGLISH.
Proof.
  apply (resolver_case_insensitive QUALIFICATION "YES, a Demo" "yes, a demo").
  reflexivity.
Defined.

(** X5.  The generic fallback answer ("I'm here to help. Could you tell me
    more?", next state qualification) is given exactly when the utterance
    has no keyword of any family and the current state is one of the three
    states without templates: language_selection, transfer, fallback. *)
Theorem resolver_fallback_exactly :
  ∀ state user_input language,
    get_simulated_response state user_input language = Some fallback_response
    ↔ no_keyword user_input = true ∧ untemplated state = true.
Proof.
  intros state user_input language.
  unfold get_simulated_response, no_keyword. rewrite detect_next_state_cases.
  destruct (has_affirmative user_input);
    [ destruct state, language; simpl; split; (discriminate || intros []; discriminate) |].
  destruct (has_negative user_input);
    [ destruct language; simpl; split; (discriminate || intros []; discriminate) |].
  destruct (has_objection user_input);
    [ destruct language; simpl; split; (discriminate || intros []; discriminate) |].
  destruct state, language; simpl; split;
    (discriminate || (intros []; discriminate) || done).
Qed.

(** X6.  Without a keyword in the utterance, the resolver follows the
    registry: from a state with templates it moves to a successor that
    [FSM_DEFINITIONS] declares for the state, or stays in the state
    (qualification and closing). *)
Theorem resolver_default_follows_registry :
  ∀ state user_input language,
    no_keyword user_input = true →
    untemplated state = false →
    ∃ text next_state is_final,
      get_simulated_response state user_input language
      = Some (text, next_state, is_final)
      ∧ (declared_transition state next_state ∨ next_state = state).
Proof.
  intros state user_input language Hno Hst.
  unfold get_simulated_response. rewrite detect_next_state_cases.
  unfold no_keyword in Hno.
  destruct (has_affirmative user_input); [done |].
  destruct (has_negative user_input); [done |].
  destruct (has_objection user_input); [done |].
  unfold declared_transition.
  destruct state, language; try done; do 3 eexists;
    (split; [reflexivity |]);
    first [ by right | left; eexists; split; [reflexivity | simpl; tauto] ].
Qed.

Lemma resolver_default_follows_registry_witness :
  ∃ text next_state is_final,
    get_simulated_response DEMO_OFFER "sounds good" SPANISH
    = Some (text, next_state, is_final)
    ∧ (declared_transition DEMO_OFFER next_state ∨ next_state = DEMO_OFFER).
Proof.
  apply (resolver_default_follows_registry DEMO_OFFER "sounds good" SPANISH);
    reflexivity.
Defined.

(** ** Invariants of the call session engine *)

Lemma call_run_cons_snd op ops db :
  snd (call_run (op :: ops) db)
  = snd (call_run ops (fst (run (call_handler op) db))).
Proof.
  cbn [call_run]. destruct (run (call_handler op) db) as [db1 r].
  cbn [fst]. by destruct (call_run ops db1).
Qed.

Lemma Forall_update_first_match {D} (I : D -> Prop) P f db c :
  first_match P db = Some c → (I c → I (f c)) →
  Forall I db → Forall I (update_first P f db).
Proof.
  intros Hc Hf. induction db as [|x db IH]; simpl in *; [done |].
  intros [Hx Hdb]%Forall_cons.
  destruct (P x); simplify_eq; apply Forall_cons_2; auto.
Qed.

(** A property of single calls that the started call has and that a served
    input and an [end] keep holds of every call after every sequence of
    requests. *)
Lemma engine_keeps (I : Call.t -> Prop) :
  (∀ call_id session_id turn_id turn_now start_now request text,
     get_simulated_response GREETING "" (start_language request)
     = Some (text, QUALIFICATION, false) →
     I {| Call.id := call_id;
          Call.session_id := session_id;
          Call.status := CS_ACTIVE;
          Call.fsm_state := GREETING;
          Call.language := start_language request;
          Call.test_mode := start_test_mode request;
          Call.start_time := start_now;
          Call.end_time := None;
          Call.exit_reason := None;
          Call.turns := [ aira_turn_of turn_id turn_now text GREETING ];
          Call.qualification_data := ∅;
          Call.demo_intent := false;
          Call.demo_confirmed := false;
          Call.objections := [] |}) →
  (∀ c u a un an en utterance text ns fin,
     I c → Call.status c = CS_ACTIVE →
     get_simulated_response (Call.fsm_state c) utterance (Call.language c)
     = Some (text, ns, fin) →
     I (update_data (user_turn_of u un utterance (Call.fsm_state c))
          (aira_turn_of a an text ns) ns
          (qualification_updates_of utterance) fin en c)) →
  (∀ c now,
     I c → Call.status c = CS_ACTIVE →
     I (Call.set_ended CS_COMPLETED now ER_USER_HANGUP c)) →
  ∀ ops db, Forall I db → Forall I (snd (call_run ops db)).
Proof.
  intros Hstart Hinput Hend ops.
  induction ops as [|op ops IH]; intros db Hdb; [done |].
  rewrite call_run_cons_snd. apply IH.
  destruct op as [k sid tid tn sn req | u a un an en [k utt] | now k].
  - destruct (step_start k sid tid tn sn req db) as (text & Ht & ->).
    cbn [fst]. apply Forall_app. split; [done |].
    apply Forall_cons_2; [by eapply Hstart | apply Forall_nil_2].
  - rewrite step_input.
    destruct (first_match (has_id k) db) as [c|] eqn:Hc; [| done].
    destruct (bool_decide (Call.status c = CS_ACTIVE)) eqn:Hact; [| done].
    apply bool_decide_eq_true in Hact.
    destruct (get_simulated_response _ _ _) as [[[text ns] fin]|] eqn:Hres;
      [| done].
    cbn [fst]. eapply Forall_update_first_match; eauto.
  - rewrite step_end.
    destruct (first_match (has_id_active k) db) as [c|] eqn:Hc; [| done].
    cbn [fst]. eapply Forall_update_first_match; eauto.
    intros Hi. apply Hend; [done |].
    by destruct (first_match_In _ _ _ Hc) as [_ [_ ?]%has_id_active_true].
Qed.

(** The requests keep [lifecycle_ok] of every call. *)
Lemma lifecycle_ok_kept ops db :
  Forall lifecycle_ok db → Forall lifecycle_ok (snd (call_run ops db)).
Proof.
  apply engine_keeps.
  - intros. split; [left; by repeat split | simpl; tauto].
  - intros c u a un an en utt text ns fin [Hc _] Hact Hres.
    destruct (resolver_answer_inv _ _ _ _ _ _ Hres) as [Hin Hfin].
    unfold lifecycle_ok.
    destruct (update_data_fields
                (user_turn_of u un utt (Call.fsm_state c))
                (aira_turn_of a an text ns) ns
                (qualification_updates_of utt) fin en c) as (-> & -> & ->).
    rewrite (proj1 (update_data_state _ _ _ _ _ _ _)).
    split; [| by right].
    destruct Hc as [(_ & He & Hx & _) | [(? & _) | (? & _)]]; [| congruence ..].
    destruct fin.
    + right. left. repeat split; eauto. by apply Hfin.
    + left. repeat split; auto. intros Hcl. apply Hfin in Hcl. done.
  - intros c now [Hc Hin] Hact. split; [| done].
    destruct Hc as [(_ & _ & _ & Hst) | [(? & _) | (? & _)]]; [| congruence ..].
    right. right. simpl. repeat split; eauto.
Qed.

(** X7.  After every sequence of requests served from the empty collection,
    every call is active, not ended and outside closing; or completed with
    exit reason completed and in closing; or completed with exit reason
    user_hangup and outside closing.  No call is ever failed or transferred,
    and its state is greeting or one of the five states the resolver answers
    with. *)
Theorem engine_lifecycle :
  ∀ ops, Forall lifecycle_ok (snd (call_run ops [])).
Proof.
  intros ops. apply lifecycle_ok_kept. apply Forall_nil_2.
Qed.

Lemma exchanges_snoc language s ts s' u a is_final :
  exchanges language s ts s' →
  CallTurn.speaker u = "user" → CallTurn.fsm_state u = s' →
  CallTurn.speaker a = "aira" →
  get_simulated_response s' (CallTurn.text u) language
  = Some (CallTurn.text a, CallTurn.fsm_state a, is_final) →
  exchanges language s (ts ++ [u; a]) (CallTurn.fsm_state a).
Proof.
  intros Hex Hu Hus Ha Hres.
  induction Hex as [s | s u0 a0 rest s' fin0 H1 H2 H3 H4 Hrest IH]; simpl.
  - eapply exchanges_cons; eauto. apply exchanges_nil.
  - eapply exchanges_cons; eauto.
Qed.

Lemma exchanges_even language s ts s' :
  exchanges language s ts s' → Nat.Even (length ts).
Proof.
  induction 1 as [| ? ? ? ? ? ? _ _ _ _ _ [n IH]]; [by exists 0%nat |].
  exists (S n). simpl. lia.
Qed.

Lemma exchanges_last language s ts s' d :
  exchanges language s ts s' → CallTurn.fsm_state d = s →
  CallTurn.fsm_state (List.last ts d) = s'.
Proof.
  intros Hex. revert d.
  induction Hex as [s | s u a rest s' fin _ _ _ _ Hrest IH]; intros d Hd; [done |].
  rewrite !final_cons. by apply IH.
Qed.

(** The requests keep [transcript_ok] of every call. *)
Lemma transcript_ok_kept ops db :
  Forall transcript_ok db → Forall transcript_ok (snd (call_run ops db)).
Proof.
  apply engine_keeps.
  - intros. eexists _, []. repeat split. apply exchanges_nil.
  - intros c u a un an en utt text ns fin (o & rest & Ht & Ho & Hos & Hex) Hact Hres.
    exists o, (rest ++ [ user_turn_of u un utt (Call.fsm_state c);
                         aira_turn_of a an text ns ]).
    rewrite update_data_turns, Ht.
    destruct (update_data_state
                (user_turn_of u un utt (Call.fsm_state c))
                (aira_turn_of a an text ns) ns
                (qualification_updates_of utt) fin en c) as [-> ->].
    repeat split; auto.
    change ns with (CallTurn.fsm_state (aira_turn_of a an text ns)) at 2.
    by apply (exchanges_snoc _ _ _ (Call.fsm_state c) _ _ fin).
  - intros c now Hc _. exact Hc.
Qed.

(** A transcript has an odd number of turns and ends in the call's state. *)
Lemma transcript_ok_odd c :
  transcript_ok c →
  Nat.Odd (length (Call.turns c))
  ∧ ∀ d, CallTurn.fsm_state (List.last (Call.turns c) d) = Call.fsm_state c.
Proof.
  intros (o & rest & Ht & Ho & Hos & Hex). rewrite Ht. split.
  - destruct (exchanges_even _ _ _ _ Hex) as [n Hn]. exists n. simpl. lia.
  - intros d. rewrite final_cons. by apply (exchanges_last _ _ _ _ _ Hex).
Qed.

(** X8.  After every sequence of requests served from the empty collection,
    the turns of every call are the agent's opening turn, tagged greeting,
    followed by exchanges: a user turn tagged with the state the call was in,
    then the agent's turn whose text and tag are the resolver's answer to
    that user text from that state.  The exchanges lead from greeting to the
    call's current state, so the number of turns is odd and the last turn
    carries the call's current state. *)
Theorem engine_transcript :
  ∀ ops,
    Forall (λ c, transcript_ok c
                 ∧ Nat.Odd (length (Call.turns c))
                 ∧ ∀ d, CallTurn.fsm_state (List.last (Call.turns c) d)
                        = Call.fsm_state c)
      (snd (call_run ops [])).
Proof.
  intros ops.
  eapply Forall_impl; [apply transcript_ok_kept, Forall_nil_2 |].
  intros c Hc. split; [done |]. by apply transcript_ok_odd.
Qed.

Lemma qualification_updates_lookup utterance k :
  qualification_updates_of utterance !! k
  = if decide (k = "demo_intent")
    then (if str_in "demo" (lower utterance) || str_in "yes" (lower utterance)
          then Some true else None)
    else if decide (k = "industry_mentioned")
    then (if str_in "company" (lower utterance)
             || str_in "industry" (lower utterance)
          then Some true else None)
    else None.
Proof.
  unfold qualification_updates_of.
  destruct (str_in "demo" _ || str_in "yes" _),
           (str_in "company" _ || str_in "industry" _);
    repeat case_decide; simplify_map_eq; done.
Qed.

Lemma update_data_rest ut at' ns qu fin en c :
  Call.demo_confirmed (update_data ut at' ns qu fin en c) = Call.demo_confirmed c
  ∧ Call.objections (update_data ut at' ns qu fin en c) = Call.objections c
  ∧ Call.session_id (update_data ut at' ns qu fin en c) = Call.session_id c
  ∧ Call.test_mode (update_data ut at' ns qu fin en c) = Call.test_mode c
  ∧ Call.start_time (update_data ut at' ns qu fin en c) = Call.start_time c.
Proof. unfold update_data. by destruct fin, (bool_decide _). Qed.

Lemma user_said_snoc w1 w2 turns u un utterance s a an text ns :
  user_said w1 w2 (turns ++ [ user_turn_of u un utterance s;
                              aira_turn_of a an text ns ])
  ↔ user_said w1 w2 turns
    ∨ str_in w1 (lower utterance) || str_in w2 (lower utterance) = true.
Proof.
  unfold user_said. rewrite Exists_app, !Exists_cons, Exists_nil. simpl.
  split.
  - intros [H | [[_ H] | [[H _] | []]]]; auto. discriminate.
  - intros [H | H]; auto.
Qed.

(** X9.  After every sequence of requests served from the empty collection,
    for every call: the flag demo_intent is set exactly when
    qualification_data["demo_intent"] is True, which is exactly when some
    user turn contains "demo" or "yes" (any case);
    qualification_data["industry_mentioned"] is True exactly when some user
    turn contains "company" or "industry"; qualification_data holds no other
    key and no other value; demo_confirmed is never set and no objection is
    ever recorded. *)
Theorem engine_qualification :
  ∀ ops, Forall qualification_ok (snd (call_run ops [])).
Proof.
  intros ops. apply engine_keeps; [| | | apply Forall_nil_2].
  - intros k sid tid tn sn req text _. unfold qualification_ok, user_said.
    simpl. rewrite !Exists_cons, !Exists_nil. simpl.
    assert ("aira" ≠ "user") as Hne by discriminate.
    split; [done |]. split; [split; [done | tauto] |].
    split; [split; [done | tauto] |]. split; [| done].
    intros k0 v Hk0. by rewrite lookup_empty in Hk0.
  - intros c u a un an en utt text ns fin (Hd & Hdi & Hind & Hkeys & Hdc & Hobj)
      Hact Hres.
    unfold qualification_ok.
    destruct (update_data_qualification
                (user_turn_of u un utt (Call.fsm_state c))
                (aira_turn_of a an text ns) ns
                (qualification_updates_of utt) fin en c) as [-> ->].
    destruct (update_data_rest
                (user_turn_of u un utt (Call.fsm_state c))
                (aira_turn_of a an text ns) ns
                (qualification_updates_of utt) fin en c) as (-> & -> & _).
    rewrite update_data_turns, !user_said_snoc, !lookup_union,
      !qualification_updates_lookup. simpl.
    rewrite Hdc, Hobj.
    assert (∀ o : option bool, (Some true ∪ o = Some true) ∧ (None ∪ o = o))
      as Hun by (by intros [[]|]).
    split_and!; [| | | | done | done].
    + destruct (str_in "demo" (lower utt) || str_in "yes" (lower utt)); simpl.
      * by rewrite (proj1 (Hun _)).
      * by rewrite (proj2 (Hun _)).
    + destruct (str_in "demo" (lower utt) || str_in "yes" (lower utt)); simpl.
      * rewrite (proj1 (Hun _)). tauto.
      * rewrite (proj2 (Hun _)), Hdi. intuition discriminate.
    + destruct (str_in "company" (lower utt) || str_in "industry" (lower utt));
        simpl.
      * rewrite (proj1 (Hun _)). tauto.
      * rewrite (proj2 (Hun _)), Hind. intuition discriminate.
    + intros k v. rewrite lookup_union, qualification_updates_lookup.
      repeat case_decide; subst.
      * destruct (_ || _); [rewrite (proj1 (Hun _)) | rewrite (proj2 (Hun _))];
          [intros [= <-]; auto | apply Hkeys].
      * destruct (_ || _); [rewrite (proj1 (Hun _)) | rewrite (proj2 (Hun _))];
          [intros [= <-]; auto | apply Hkeys].
      * rewrite (proj2 (Hun _)). apply Hkeys.
  - intros c now Hc _. exact Hc.
Qed.

(** ** What the engine never changes *)

Lemma update_first_at {D} (P : D -> bool) f db i x :
  db !! i = Some x →
  update_first P f db !! i = Some x
  ∨ (first_match P db = Some x ∧ update_first P f db !! i = Some (f x)).
Proof.
  revert i. induction db as [|y db IH]; intros i Hi; simpl in *; [done |].
  destruct (P y) eqn:HP.
  - destruct i; simpl in *; simplify_eq; auto.
  - destruct i; simpl in *; simplify_eq; auto.
Qed.

Lemma call_evolves_refl c : call_evolves c c.
Proof.
  repeat split; auto. exists []. by rewrite app_nil_r.
Qed.

Lemma call_evolves_trans c1 c2 c3 :
  call_evolves c1 c2 → call_evolves c2 c3 → call_evolves c1 c3.
Proof.
  intros (H1 & H2 & H3 & H4 & H5 & [m Hm] & H7 & H8 & H9)
         (G1 & G2 & G3 & G4 & G5 & [m' Hm'] & G7 & G8 & G9).
  repeat split; try congruence; auto.
  - exists (m ++ m'). by rewrite Hm', Hm, app_assoc.
  - intros Hs. rewrite G9; [by apply H9 |]. by rewrite (H9 Hs).
Qed.

Lemma call_evolves_step op db i c :
  db !! i = Some c →
  ∃ c', fst (run (call_handler op) db) !! i = Some c' ∧ call_evolves c c'.
Proof.
  intros Hi.
  destruct op as [k sid tid tn sn req | u a un an en [k utt] | now k].
  - destruct (step_start k sid tid tn sn req db) as (text & _ & ->).
    exists c. split; [| apply call_evolves_refl].
    cbn [fst]. rewrite lookup_app_l; [done |]. by eapply lookup_lt_Some.
  - rewrite step_input.
    destruct (first_match (has_id k) db) as [c0|] eqn:Hc0;
      [| exists c; split; [done | apply call_evolves_refl]].
    destruct (bool_decide (Call.status c0 = CS_ACTIVE)) eqn:Hact;
      [| exists c; split; [done | apply call_evolves_refl]].
    apply bool_decide_eq_true in Hact.
    destruct (get_simulated_response _ _ _) as [[[text ns] fin]|];
      [| exists c; split; [done | apply call_evolves_refl]].
    cbn [fst]. set (upd := update_data _ _ _ _ _ _).
    destruct (update_first_at (has_id k) upd db i c Hi) as [H | [Hfm H]];
      [exists c; split; [done | apply call_evolves_refl] |].
    exists (upd c). split; [done |].
    assert (c0 = c) as -> by congruence. unfold upd.
    destruct (update_data_rest
                (user_turn_of u un utt (Call.fsm_state c))
                (aira_turn_of a an text ns) ns
                (qualification_updates_of utt) fin en c)
      as (_ & _ & Hsid & Htm & Hst).
    destruct (update_data_qualification
                (user_turn_of u un utt (Call.fsm_state c))
                (aira_turn_of a an text ns) ns
                (qualification_updates_of utt) fin en c) as [Hq Hd].
    split; [apply update_data_id |]. split; [done |].
    split; [apply update_data_state |]. split; [done |]. split; [done |].
    split; [eexists; apply update_data_turns |].
    split; [rewrite Hd; intros ->; by destruct (bool_decide _) |].
    split; [| done].
    intros key [v Hv]. rewrite Hq, lookup_union, Hv.
    by destruct (qualification_updates_of utt !! key).
  - rewrite step_end.
    destruct (first_match (has_id_active k) db) as [c0|] eqn:Hc0;
      [| exists c; split; [done | apply call_evolves_refl]].
    cbn [fst].
    destruct (update_first_at (has_id_active k)
                (Call.set_ended CS_COMPLETED now ER_USER_HANGUP) db i c Hi)
      as [H | [Hfm H]];
      [exists c; split; [done | apply call_evolves_refl] |].
    eexists. split; [exact H |]. assert (c0 = c) as -> by congruence.
    destruct (first_match_In _ _ _ Hc0) as [_ [_ Hact]%has_id_active_true].
    repeat split; auto; [exists []; by rewrite app_nil_r | done].
Qed.

(** X10.  No request removes or moves a call, and whatever requests follow,
    a stored call keeps its identifier, session, language, test mode and
    start time; its turns are only ever appended to; a set demo_intent flag
    and a present qualification key stay; and a call that is no longer
    active is never changed again. *)
Theorem stored_calls_evolve :
  ∀ ops db i c,
    db !! i = Some c →
    ∃ c', snd (call_run ops db) !! i = Some c' ∧ call_evolves c c'.
Proof.
  induction ops as [|op ops IH]; intros db i c Hi.
  - exists c. split; [done | apply call_evolves_refl].
  - rewrite call_run_cons_snd.
    destruct (call_evolves_step op db i c Hi) as (c1 & Hi1 & H1).
    destruct (IH _ i c1 Hi1) as (c2 & Hi2 & H2).
    exists c2. split; [done |]. by eapply call_evolves_trans.
Qed.

Lemma stored_calls_evolve_witness :
  ∃ c c',
    started_store !! 0%nat = Some c
    ∧ snd (call_run (two_inputs ++ [OpEnd 9 "c1"; say 10 "c1" "yes"])
             started_store) !! 0%nat = Some c'
    ∧ call_evolves c c'
    ∧ length (Call.turns c') = 5%nat.
Proof.
  edestruct (stored_calls_evolve
               (two_inputs ++ [OpEnd 9 "c1"; say 10 "c1" "yes"])
               started_store 0%nat) as (c' & Hc' & Hev).
  - vm_compute. reflexivity.
  - eexists. exists c'. split; [vm_compute; reflexivity |].
    split; [exact Hc' |]. split; [exact Hev |].
    vm_compute in Hc'. injection Hc' as <-. reflexivity.
Defined.

(** ** Failures *)

(** X11.  A request that fails writes nothing and fails with 404 or 400:
    no handler of the call engine or of the prompt store answers 500 (the
    dictionary lookups of the resolver and the read-back of an updated
    prompt cannot fail), and none fails after it has written. *)
Theorem failed_request_writes_nothing :
  (∀ op db e,
     snd (run (call_handler op) db) = Raise e →
     fst (run (call_handler op) db) = db
     ∧ (status_code e = 404 ∨ status_code e = 400))
  ∧ (∀ op db e,
       snd (prompt_handler op db) = Raise e →
       fst (prompt_handler op db) = []
       ∧ (status_code e = 404 ∨ status_code e = 400)).
Proof.
  split.
  - intros [k sid tid tn sn req | u a un an en [k utt] | now k] db e.
    + destruct (step_start k sid tid tn sn req db) as (text & _ & ->). done.
    + rewrite step_input.
      destruct (first_match (has_id k) db) as [c|];
        [| intros [= <-]; auto].
      destruct (bool_decide _); [| intros [= <-]; auto].
      destruct (get_simulated_response_total (Call.fsm_state c) utt
                  (Call.language c)) as (t & n & f & ->). done.
    + rewrite step_end.
      destruct (first_match (has_id_active k) db); [done |].
      intros [= <-]; auto.
  - intros [i c u r | n pid r | w i c u pid r | a n pid] db e;
      cbn [prompt_handler].
    + by rewrite create_prompt_eq.
    + rewrite update_prompt_eq.
      destruct (first_match _ db); [| intros [= <-]; auto].
      destruct (bool_decide _); [intros [= <-]; auto | done].
    + rewrite mark_prompt_weak_eq.
      destruct (first_match _ db); [| intros [= <-]; auto].
      destruct (all_space _); [intros [= <-]; auto | done].
    + rewrite publish_prompt_eq.
      destruct (first_match _ db); [| intros [= <-]; auto].
      destruct (bool_decide _); [done | intros [= <-]; auto].
Qed.

Lemma failed_request_writes_nothing_witness :
  fst (run (call_handler (say 1 "nobody" "hello")) started_store) = started_store
  ∧ fst (prompt_handler (OpPublish 1 2 "p1") one_active_store) = [].
Proof.
  destruct failed_request_writes_nothing as [Hc Hp]. split.
  - eapply proj1, Hc. vm_compute. reflexivity.
  - eapply proj1, Hp. vm_compute. reflexivity.
Defined.

Lemma first_match_stronger {D} (P Q : D -> bool) db c :
  first_match Q db = Some c → P c = true →
  (∀ x, P x = true → Q x = true) →
  first_match P db = Some c.
Proof.
  intros HQ HPc Himp. induction db as [|x db IH]; simpl in *; [done |].
  destruct (Q x) eqn:HQx.
  - simplify_eq. by rewrite HPc.
  - destruct (P x) eqn:HPx; [| auto].
    rewrite (Himp x HPx) in HQx. done.
Qed.

Lemma first_match_after_update {D} (P Q : D -> bool) f db c :
  first_match P db = Some c → first_match Q db = Some c →
  Q (f c) = true →
  first_match Q (update_first P f db) = Some (f c).
Proof.
  intros HP HQ Hf. induction db as [|x db IH]; simpl in *; [done |].
  destruct (P x) eqn:HPx.
  - simplify_eq. simpl. by rewrite Hf.
  - simpl. destruct (Q x) eqn:HQx; [| auto].
    simplify_eq. destruct (first_match_In _ _ _ HP) as [_ HPc]. congruence.
Qed.

(** X12.  An ended session accepts no further turn.  Once the call found
    for an identifier is ended by [end], or completed by a final answer,
    every further [submitInput] on the identifier is refused with 400
    ("Call is not active") and writes nothing. *)
Theorem ended_call_refuses_input :
  ∀ db call_id c u a un an en utterance,
    first_match (has_id call_id) db = Some c →
    Call.status c = CS_ACTIVE →
    (∀ now,
       let db1 := fst (run (webcall_end now call_id) db) in
       snd (run (webcall_end now call_id) db) = Return ("Call ended", call_id)
       ∧ run (webcall_input u a un an en
                {| in_call_id := call_id; in_user_input := utterance |}) db1
         = (db1, Raise {| status_code := 400; detail := "Call is not active" |}))
    ∧ (∀ u0 a0 un0 an0 en0 utterance0 resp,
         let m := webcall_input u0 a0 un0 an0 en0
                    {| in_call_id := call_id; in_user_input := utterance0 |} in
         snd (run m db) = Return resp →
         ir_is_final resp = true →
         let db1 := fst (run m db) in
         run (webcall_input u a un an en
                {| in_call_id := call_id; in_user_input := utterance |}) db1
         = (db1, Raise {| status_code := 400; detail := "Call is not active" |})).
Proof.
  intros db call_id c u a un an en utterance Hc Hact. split.
  - intros now db1.
    assert (first_match (has_id_active call_id) db = Some c) as Hca.
    { apply (first_match_stronger _ (has_id call_id)); auto.
      - apply has_id_active_true. split; [| done].
        by destruct (first_match_In _ _ _ Hc) as [_ ?%has_id_true].
      - by intros x [?%has_id_true _]%has_id_active_true. }
    unfold db1, run. rewrite !webcall_end_eq, Hca. cbn [fst snd final List.last].
    split; [done |].
    rewrite webcall_input_eq.
    rewrite (first_match_after_update _ _ _ _ c Hca Hc).
    + reflexivity.
    + simpl. by destruct (first_match_In _ _ _ Hc) as [_ ?].
  - intros u0 a0 un0 an0 en0 utterance0 resp m Hret Hfin db1.
    pose proof (webcall_input_eq u0 a0 un0 an0 en0 call_id utterance0 db) as Hm.
    rewrite Hc, (bool_decide_eq_true_2 _ Hact) in Hm.
    destruct (get_simulated_response _ _ _) as [[[text ns] fin]|];
      [| unfold m, run in Hret; by rewrite Hm in Hret].
    unfold db1. unfold m, run in *. rewrite Hm in *. clear Hm.
    cbn [fst snd final List.last] in *. simplify_eq. simpl in Hfin. subst fin.
    rewrite webcall_input_eq.
    rewrite (first_match_update_first _ _ _ c); [| | done].
    + destruct (update_data_fields
                  (user_turn_of u0 un0 utterance0 (Call.fsm_state c))
                  (aira_turn_of a0 an0 text ns) ns
                  (qualification_updates_of utterance0) true en0 c) as (-> & _).
      reflexivity.
    + intros x. apply has_id_update_data.
Qed.

Lemma ended_call_refuses_input_witness :
  run (webcall_input "u" "a" 5 5 5
         {| in_call_id := "c1"; in_user_input := "hello again" |})
    (fst (run (webcall_end 4 "c1") started_store))
  = (fst (run (webcall_end 4 "c1") started_store),
     Raise {| status_code := 400; detail := "Call is not active" |}).
Proof.
  edestruct (ended_call_refuses_input started_store "c1") as [H _].
  - vm_compute. reflexivity.
  - reflexivity.
  - apply (H 4).
Defined.

(** ** Statistics and listings *)

Lemma call_run_ids ops db :
  List.map Call.id (snd (call_run ops db))
  = List.map Call.id db ++ start_ids ops.
Proof.
  revert db. induction ops as [|op ops IH]; intros db.
  - simpl. by rewrite app_nil_r.
  - rewrite call_run_cons_snd, IH.
    destruct op as [k sid tid tn sn req | u a un an en [k utt] | now k].
    + destruct (step_start k sid tid tn sn req db) as (text & _ & ->).
      cbn [fst]. rewrite List.map_app. simpl. by rewrite <- app_assoc.
    + rewrite step_input. simpl.
      destruct (first_match (has_id k) db) as [c|]; [| done].
      destruct (bool_decide _); [| done].
      destruct (get_simulated_response _ _ _) as [[[text ns] fin]|]; [| done].
      cbn [fst]. rewrite update_first_ids; [done |].
      intros x. apply update_data_id.
    + rewrite step_end. simpl.
      destruct (first_match (has_id_active k) db) as [c|]; [| done].
      cbn [fst]. by rewrite update_first_ids.
Qed.

Lemma count_active_completed db :
  Forall lifecycle_ok db →
  (length (List.filter is_active db) + length (List.filter is_completed db)
   = length db)%nat.
Proof.
  induction 1 as [|c db [Hc _] _ IH]; simpl; [done |].
  unfold is_active at 1, is_completed at 1.
  destruct Hc as [(-> & _) | [(-> & _) | (-> & _)]]; simpl; lia.
Qed.

(** X13.  After every sequence of requests served from the empty
    collection, [get_stats] reports as total the number of sessions
    started, every call is counted either active or completed (total =
    active + completed), and the calls with demo intent are at most the
    total. *)
Theorem stats_add_up :
  ∀ ops,
    let stats := get_stats (snd (call_run ops [])) in
    total_calls stats = Z.of_nat (length (start_ids ops))
    ∧ total_calls stats = active_calls stats + completed_calls stats
    ∧ 0 ≤ demo_intents stats ≤ total_calls stats.
Proof.
  intros ops stats. unfold stats, get_stats, count_documents. simpl.
  set (db := snd (call_run ops [])).
  assert (List.filter (λ _ : Call.t, true) db = db) as ->.
  { induction db as [|x l IH]; simpl; by rewrite ?IH. }
  split.
  - rewrite <- (length_map Call.id db). unfold db. by rewrite call_run_ids.
  - split.
    + rewrite <- (count_active_completed db)
        by apply lifecycle_ok_kept, Forall_nil_2.
      lia.
    + pose proof (List.filter_length_le
                    (λ c, bool_decide (Call.demo_intent c = true)) db). lia.
Qed.

Lemma insert_by_Permutation {D} (le : D -> D -> bool) x l :
  insert_by le x l ≡ₚ x :: l.
Proof.
  induction l as [|y l IH]; simpl; [done |].
  destruct (le x y); [done |]. rewrite IH. apply Permutation_swap.
Qed.

Lemma sort_by_Permutation {D} (le : D -> D -> bool) l : sort_by le l ≡ₚ l.
Proof.
  induction l as [|x l IH]; simpl; [done |].
  unfold sort_by in *. simpl. by rewrite insert_by_Permutation, IH.
Qed.

Lemma ordered_tail {D} (le : D -> D -> bool) x l :
  ordered le (x :: l) → ordered le l.
Proof. destruct l; simpl; tauto. Qed.

Lemma insert_by_ordered {D} (le : D -> D -> bool) x l :
  (∀ a b, le a b = true ∨ le b a = true) →
  ordered le l → ordered le (insert_by le x l).
Proof.
  intros Htot. induction l as [|y l IH]; intros Hl; simpl; [done |].
  destruct (le x y) eqn:Hxy; [done |].
  specialize (IH (ordered_tail _ _ _ Hl)).
  destruct l as [|z l]; simpl in *.
  - split; [| done]. destruct (Htot x y); congruence.
  - destruct (le x z); simpl.
    + split; [destruct (Htot x y); congruence |]. done.
    + split; [tauto | done].
Qed.

Lemma sort_by_ordered {D} (le : D -> D -> bool) l :
  (∀ a b, le a b = true ∨ le b a = true) → ordered le (sort_by le l).
Proof.
  intros Htot. induction l as [|x l IH]; [done |].
  by apply insert_by_ordered.
Qed.

Lemma ordered_take {D} (le : D -> D -> bool) n l :
  ordered le l → ordered le (take n l).
Proof.
  revert n. induction l as [|x l IH]; intros [|n] Hl; simpl; try done.
  specialize (IH n (ordered_tail _ _ _ Hl)).
  destruct l as [|y l]; [by destruct n |].
  destruct n; simpl in *; [done | tauto].
Qed.

Lemma ordered_drop {D} (le : D -> D -> bool) n l :
  ordered le l → ordered le (drop n l).
Proof.
  revert l. induction n as [|n IH]; intros [|x l] Hl; simpl; try done.
  apply IH. by eapply ordered_tail.
Qed.

Lemma later_first_total isoformat a b :
  later_first isoformat a b = true ∨ later_first isoformat b a = true.
Proof. unfold later_first. apply String.leb_total. Qed.

Lemma Forall_sort_by {D} (I : D -> Prop) le l :
  Forall I l → Forall I (sort_by le l).
Proof. intros H. by rewrite sort_by_Permutation. Qed.

Lemma Forall_filter_true {D} (P : D -> bool) l :
  Forall (λ x, P x = true) (List.filter P l).
Proof.
  apply Forall_forall. intros x Hx%list_elem_of_In%filter_In. tauto.
Qed.

Lemma Forall_filter_keeps {D} (I : D -> Prop) (P : D -> bool) l :
  Forall I l → Forall I (List.filter P l).
Proof.
  rewrite !Forall_forall. intros H x Hx%list_elem_of_In%filter_In.
  apply H, list_elem_of_In. tauto.
Qed.

(** X14.  After every sequence of requests served from the empty
    collection, [get_live_calls] lists at most 100 calls, the one started
    latest (by the stored start-time text) first; every call listed is
    active, has neither end time nor exit reason, is not in closing, and
    its turn count is odd. *)
Theorem live_calls_are_running :
  ∀ isoformat ops,
    ∃ calls,
      get_live_calls isoformat (snd (call_run ops []))
      = List.map call_list_item calls
      ∧ (length calls ≤ 100)%nat
      ∧ ordered (later_first isoformat) calls
      ∧ Forall (λ c, In c (snd (call_run ops []))) calls
      ∧ Forall (λ item, li_status item = CS_ACTIVE
                        ∧ li_end_time item = None
                        ∧ li_exit_reason item = None
                        ∧ li_fsm_state item ≠ CLOSING
                        ∧ Z.Odd (li_turn_count item))
          (get_live_calls isoformat (snd (call_run ops []))).
Proof.
  intros isoformat ops. unfold get_live_calls.
  set (db := snd (call_run ops [])).
  eexists. split; [reflexivity |]. split; [rewrite length_take; lia |].
  split; [apply ordered_take, sort_by_ordered, later_first_total |].
  split.
  - apply Forall_take, Forall_sort_by, Forall_forall.
    intros x Hx%list_elem_of_In%filter_In. tauto.
  - apply Forall_forall. intros item Hitem%list_elem_of_In%in_map_iff.
    destruct Hitem as (c & <- & Hc%list_elem_of_In).
    assert (Forall (λ c, (lifecycle_ok c ∧ Nat.Odd (length (Call.turns c)))
                         ∧ is_active c = true)
              (take 100 (sort_by (later_first isoformat)
                           (List.filter is_active db)))) as Hall.
    { apply Forall_take, Forall_sort_by, Forall_and. split.
      - apply Forall_filter_keeps, Forall_and. split.
        + apply lifecycle_ok_kept, Forall_nil_2.
        + eapply Forall_impl; [apply transcript_ok_kept, Forall_nil_2 |].
          intros c0 H. by apply transcript_ok_odd.
      - apply Forall_filter_true. }
    rewrite Forall_forall in Hall.
    destruct (Hall c Hc) as [[[Hl _] [n Hn]] Hact].
    apply bool_decide_eq_true in Hact. simpl.
    destruct Hl as [(_ & He & Hx & Hst) | [(? & _) | (? & _)]]; [| congruence ..].
    repeat split; auto. exists (Z.of_nat n). lia.
Qed.

Lemma total_pages_ceiling total page_size :
  0 ≤ total → 1 ≤ page_size →
  let total_pages := (total + page_size - 1) / page_size in
  (total_pages - 1) * page_size < total ≤ total_pages * page_size
  ∧ 0 ≤ total_pages.
Proof.
  intros Ht Hp total_pages.
  pose proof (Z.mul_div_le (total + page_size - 1) page_size ltac:(lia)).
  pose proof (Z.mul_succ_div_gt (total + page_size - 1) page_size ltac:(lia)).
  fold total_pages in H, H0.
  assert (0 ≤ total_pages) by (apply Z.div_pos; lia). nia.
Qed.

(** X15.  For a page number and a page size of at least 1, [get_calls]
    reports as total the number of calls that match the filters and as
    total_pages that number divided by the page size, rounded up.  The page
    holds min(page_size, total - (page - 1) * page_size) calls (none when
    that is negative, so none beyond the last page), each of them a stored
    call that matches the filters, the one started latest first. *)
Theorem get_calls_page :
  ∀ isoformat page page_size exit_reason demo_intent date_from date_to status db,
    1 ≤ page → 1 ≤ page_size →
    let r := get_calls isoformat page page_size exit_reason demo_intent
               date_from date_to status db in
    let query := call_query isoformat exit_reason demo_intent date_from
                   date_to status in
    lr_total r = Z.of_nat (length (List.filter query db))
    ∧ (lr_total_pages r - 1) * page_size < lr_total r ≤ lr_total_pages r * page_size
    ∧ Z.of_nat (length (lr_calls r))
      = Z.max 0 (Z.min page_size (lr_total r - (page - 1) * page_size))
    ∧ (lr_total_pages r < page → lr_calls r = [])
    ∧ ∃ calls,
        lr_calls r = List.map call_list_item calls
        ∧ Forall (λ c, In c db ∧ query c = true) calls
        ∧ ordered (later_first isoformat) calls.
Proof.
  intros isoformat page page_size er di df dt st db Hpage Hsize r query.
  unfold r, get_calls, count_documents. cbn [lr_total lr_total_pages lr_calls].
  fold query. set (matching := List.filter query db).
  destruct (total_pages_ceiling (Z.of_nat (length matching)) page_size
              ltac:(lia) Hsize) as [Hceil Hpos].
  cbn zeta in Hceil, Hpos.
  set (total_pages := (Z.of_nat (length matching) + page_size - 1) / page_size)
    in *.
  assert (length (sort_by (later_first isoformat) matching) = length matching)
    as Hlen by (by rewrite sort_by_Permutation).
  assert (0 ≤ (page - 1) * page_size) as Hskip by nia.
  split; [done |]. split; [done |]. split.
  - rewrite length_map, length_take, length_drop, Hlen.
    set (skip := (page - 1) * page_size) in *. lia.
  - split.
    + intros Hbeyond. rewrite drop_ge; [by rewrite take_nil |]. rewrite Hlen.
      assert (total_pages * page_size ≤ (page - 1) * page_size) by nia.
      set (skip := (page - 1) * page_size) in *. lia.
    + eexists. split; [reflexivity |]. split.
      * apply Forall_take, Forall_drop, Forall_sort_by, Forall_forall.
        intros x Hx%list_elem_of_In%filter_In. done.
      * apply ordered_take, ordered_drop, sort_by_ordered, later_first_total.
Qed.



Lemma get_calls_page_witness :
  lr_total (get_calls (λ _, "t") 2 1 None None None None None
              (snd (call_run hang_up_session []))) = 2
  ∧ Z.of_nat (length (lr_calls (get_calls (λ _, "t") 2 1 None None None None
                                   None (snd (call_run hang_up_session [])))))
    = 1.
Proof.
  destruct (get_calls_page (λ _, "t") 2 1 None None None None None
              (snd (call_run hang_up_session [])))
    as (Ht & _ & Hl & _); [lia | lia |].
  split.
  - rewrite Ht. vm_compute. reflexivity.
  - rewrite Hl, Ht. vm_compute. reflexivity.
Defined.


(** ** Reading back what was written *)

Lemma no_id_first_match {D} (key : D -> string) (P : D -> bool) k db :
  (∀ x, P x = true → key x = k) →
  ¬ In k (List.map key db) → first_match P db = None.
Proof.
  intros HP Hk. apply first_match_None. intros d Hd.
  destruct (P d) eqn:HPd; [| done].
  destruct Hk. rewrite <- (HP d HPd). by apply in_map.
Qed.

(** X17.  What is written under a new identifier is read back: a prompt
    created under an identifier no stored prompt has is what [get_prompt]
    returns for it, and a session started under an identifier no stored
    call has is what [get_call_detail] returns for it, with an empty
    qualification snapshot.  An identifier nothing is stored under is
    answered with 404. *)
Theorem written_is_read_back :
  (∀ new_id created_now updated_now request db,
     ¬ In new_id (List.map Prompt.id db) →
     snd (run (get_prompt new_id) db)
     = Raise {| status_code := 404; detail := "Prompt not found" |}
     ∧ ∃ p,
         run (create_prompt new_id created_now updated_now request) db
         = (db ++ [p], Return p)
         ∧ run (get_prompt new_id) (db ++ [p]) = (db ++ [p], Return p))
  ∧ (∀ call_id session_id turn_id turn_now start_now request db,
       ¬ In call_id (List.map Call.id db) →
       snd (run (get_call_detail call_id) db)
       = Raise {| status_code := 404; detail := "Call not found" |}
       ∧ ∃ c response,
           run (webcall_start call_id session_id turn_id turn_now start_now
                  request) db
           = (db ++ [c], Return response)
           ∧ run (get_call_detail call_id) (db ++ [c]) = (db ++ [c], Return c)
           ∧ run (get_call_qualification call_id) (db ++ [c])
             = (db ++ [c],
                Return {| qs_call_id := call_id;
                          qs_captured_answers := ∅;
                          qs_objections := [];
                          qs_demo_intent := false;
                          qs_demo_confirmed := false;
                          qs_language := start_language request;
                          qs_timestamp := start_now |})).
Proof.
  split.
  - intros new_id cn un request db Hfresh.
    assert (first_match (prompt_has_id new_id) db = None) as Hnone.
    { apply (no_id_first_match Prompt.id _ new_id); [| done].
      by intros x ?%prompt_has_id_true. }
    split; [unfold get_prompt; unfold_M; by rewrite Hnone |].
    eexists. split; [unfold run; rewrite create_prompt_eq; reflexivity |].
    unfold get_prompt. unfold_M. rewrite first_match_app_r by done.
    unfold prompt_has_id at 1. simpl.
    by rewrite bool_decide_eq_true_2.
  - intros call_id sid tid tn sn request db Hfresh.
    assert (first_match (has_id call_id) db = None) as Hnone.
    { apply (no_id_first_match Call.id _ call_id); [| done].
      by intros x ?%has_id_true. }
    split; [unfold get_call_detail; unfold_M; by rewrite Hnone |].
    destruct (webcall_start_eq call_id sid tid tn sn request db)
      as (text & _ & Heq).
    do 2 eexists. split; [unfold run; rewrite Heq; reflexivity |].
    unfold get_call_detail, get_call_qualification. unfold_M.
    rewrite !first_match_app_r by done.
    unfold has_id. simpl. by rewrite bool_decide_eq_true_2.
Qed.

Lemma written_is_read_back_witness :
  (∃ p, run (get_prompt "p7") (one_active_store ++ [p])
        = (one_active_store ++ [p], Return p)
        ∧ Prompt.version p = 3)
  ∧ (∃ c, run (get_call_detail "c7") (started_store ++ [c])
          = (started_store ++ [c], Return c)
          ∧ Call.status c = CS_ACTIVE).
Proof.
  destruct written_is_read_back as [Hp Hc]. split.
  - edestruct (Hp "p7" 8 8 (qualification_en "x") one_active_store)
      as (_ & p & Hcreate & Hget).
    + vm_compute. intuition discriminate.
    + exists p. split; [exact Hget |].
      vm_compute in Hcreate. injection Hcreate as <-. reflexivity.
  - edestruct (Hc "c7" "s7" "t7" 8 8
                 {| start_test_mode := false; start_language := GERMAN |}
                 started_store)
      as (_ & c & resp & Hstart & Hget & _).
    + vm_compute. intuition discriminate.
    + exists c. split; [exact Hget |].
      vm_compute in Hstart. injection Hstart as <- _. reflexivity.
Defined.

(** ** The prompt store: numbering and life cycle *)

(** X18.  [create_prompt] never fails: it appends one draft, with the
    requested lineage, text and notes, numbered strictly above every
    version already stored in that lineage, and 1 when the lineage is
    empty. *)
Theorem create_prompt_numbers_above :
  ∀ new_id created_now updated_now request db,
    ∃ p,
      run (create_prompt new_id created_now updated_now request) db
      = (db ++ [p], Return p)
      ∧ Prompt.id p = new_id
      ∧ Prompt.status p = PS_DRAFT
      ∧ Prompt.fsm_state p = cr_fsm_state request
      ∧ Prompt.language p = cr_language request
      ∧ Prompt.text p = cr_text request
      ∧ Prompt.notes p = cr_notes request
      ∧ Forall (λ q, in_lineage (cr_fsm_state request) (cr_language request) q
                     = true → Prompt.version q < Prompt.version p) db
      ∧ ((∀ q, In q db →
               in_lineage (cr_fsm_state request) (cr_language request) q = false) →
         Prompt.version p = 1).
Proof.
  intros new_id cn un request db. eexists.
  split; [unfold run; rewrite create_prompt_eq; reflexivity |].
  do 6 (split; [reflexivity |]). simpl.
  pose proof (sort_version_desc_limit_1_max
                (List.filter (in_lineage (cr_fsm_state request)
                                (cr_language request)) db)) as Hmax.
  destruct (sort_version_desc_limit_1 _) as [|e rest]; split.
  - apply Forall_forall. intros q Hq%list_elem_of_In Hl.
    assert (In q (List.filter (in_lineage (cr_fsm_state request)
                                 (cr_language request)) db)) as Hin
      by (by apply filter_In).
    rewrite Hmax in Hin. done.
  - done.
  - destruct Hmax as [_ Hmax].
    apply Forall_forall. intros q Hq%list_elem_of_In Hl.
    assert (Prompt.version q ≤ Prompt.version e); [| lia].
    apply Hmax. by apply filter_In.
  - intros Hempty. destruct Hmax as [He _]. apply filter_In in He as [He Hl].
    rewrite (Hempty e He) in Hl. done.
Qed.

Lemma prompt_evolves_refl p : prompt_evolves p p.
Proof. repeat split; auto. by destruct (Prompt.status p). Qed.

Lemma prompt_evolves_trans p1 p2 p3 :
  prompt_evolves p1 p2 → prompt_evolves p2 p3 → prompt_evolves p1 p3.
Proof.
  intros (H1 & H2 & H3 & H4 & H5 & H6 & H7) (G1 & G2 & G3 & G4 & G5 & G6 & G7).
  repeat split; try congruence.
  revert H7 G7.
  destruct (Prompt.status p1), (Prompt.status p2), (Prompt.status p3);
    simpl; intros; congruence.
Qed.

Lemma prompt_evolves_update_first P f db i p :
  (∀ x, first_match P db = Some x → prompt_evolves x (f x)) →
  db !! i = Some p →
  ∃ p', update_first P f db !! i = Some p' ∧ prompt_evolves p p'.
Proof.
  intros Hf Hi.
  destruct (update_first_at P f db i p Hi) as [H | [Hfm H]].
  - exists p. split; [done | apply prompt_evolves_refl].
  - exists (f p). split; [done | by apply Hf].
Qed.

Lemma prompt_evolves_step op db i p :
  db !! i = Some p →
  ∃ p', fst (run (prompt_handler op) db) !! i = Some p' ∧ prompt_evolves p p'.
Proof.
  intros Hi. pose proof (lookup_lt_Some _ _ _ Hi) as Hlt.
  destruct op as [id c u r | n pid r | w id c u pid r | a n pid];
    unfold run; cbn [prompt_handler].
  - rewrite create_prompt_eq. cbn [fst final List.last].
    exists p. split; [by rewrite lookup_app_l | apply prompt_evolves_refl].
  - rewrite update_prompt_eq.
    destruct (first_match _ db) as [p0|] eqn:Hp0;
      [| exists p; split; [done | apply prompt_evolves_refl]].
    destruct (bool_decide _);
      [exists p; split; [done | apply prompt_evolves_refl] |].
    cbn [fst final List.last]. apply prompt_evolves_update_first; [| done].
    intros x _. repeat split. simpl. by destruct (Prompt.status x).
  - rewrite mark_prompt_weak_eq.
    destruct (first_match _ db) as [p0|] eqn:Hp0;
      [| exists p; split; [done | apply prompt_evolves_refl]].
    destruct (all_space _);
      [exists p; split; [done | apply prompt_evolves_refl] |].
    cbn [fst final List.last].
    destruct (prompt_evolves_update_first (prompt_has_id pid)
                (Prompt.set_status PS_WEAK w) db i p) as (p' & Hp' & He);
      [| done |].
    + intros x _. repeat split. simpl. by destruct (Prompt.status x).
    + exists p'. split; [| done].
      rewrite lookup_app_l; [done |]. by rewrite update_first_length.
  - rewrite publish_prompt_eq.
    destruct (first_match _ db) as [p0|] eqn:Hp0;
      [| exists p; split; [done | apply prompt_evolves_refl]].
    destruct (bool_decide _) eqn:Hd;
      [| exists p; split; [done | apply prompt_evolves_refl]].
    apply bool_decide_eq_true in Hd.
    cbn [fst final List.last].
    destruct (publish_writes a n pid db p0 Hp0 Hd) as (Hp1 & _).
    set (db1 := update_all _ _ db) in *.
    assert (∃ q, db1 !! i = Some q ∧ prompt_evolves p q) as (q & Hq & Hpq).
    { unfold db1. rewrite update_all_lookup, Hi. simpl.
      destruct (active_in_lineage _ _ p) eqn:Hact.
      - eexists. split; [reflexivity |]. repeat split. simpl.
        apply active_in_lineage_true in Hact as (_ & _ & ->). done.
      - exists p. split; [done | apply prompt_evolves_refl]. }
    destruct (prompt_evolves_update_first (prompt_has_id pid)
                (Prompt.set_status PS_ACTIVE n) db1 i q) as (q' & Hq' & He);
      [| done |].
    + intros x Hx. assert (x = p0) as -> by congruence.
      repeat split. simpl. by rewrite Hd.
    + exists q'. split; [done |]. by eapply prompt_evolves_trans.
Qed.

(** X19.  No request removes or moves a prompt, and whatever requests
    follow, a stored prompt keeps its identifier, fsm_state, language,
    version, creation time and author.  Its status only moves draft ->
    active -> archived, or to weak from anywhere: a prompt that is weak or
    archived is never active again, and no prompt returns to draft. *)
Theorem stored_prompts_evolve :
  ∀ ops db i p,
    db !! i = Some p →
    ∃ p',
      prompt_run ops db !! i = Some p'
      ∧ prompt_evolves p p'
      ∧ (Prompt.status p = PS_WEAK → Prompt.status p' = PS_WEAK)
      ∧ (Prompt.status p = PS_ARCHIVED →
         Prompt.status p' = PS_ARCHIVED ∨ Prompt.status p' = PS_WEAK)
      ∧ (Prompt.status p' = PS_DRAFT → Prompt.status p = PS_DRAFT).
Proof.
  assert (∀ ops db i p, db !! i = Some p →
            ∃ p', prompt_run ops db !! i = Some p' ∧ prompt_evolves p p') as H.
  { induction ops as [|op ops IH]; intros db i p Hi.
    - exists p. split; [done | apply prompt_evolves_refl].
    - rewrite prompt_run_cons.
      destruct (prompt_evolves_step op db i p Hi) as (p1 & Hi1 & H1).
      destruct (IH _ i p1 Hi1) as (p2 & Hi2 & H2).
      exists p2. split; [done |]. by eapply prompt_evolves_trans. }
  intros ops db i p Hi. destruct (H ops db i p Hi) as (p' & Hp' & He).
  exists p'. split; [done |]. split; [done |].
  destruct He as (_ & _ & _ & _ & _ & _ & Hs). revert Hs.
  destruct (Prompt.status p), (Prompt.status p'); simpl; intros Hs;
    repeat split; intros; try done; auto.
Qed.

Lemma stored_prompts_evolve_witness :
  ∃ p p',
    archived_store !! 0%nat = Some p
    ∧ prompt_run [ OpPublish 8 9 "p1";
                   OpUpdate 10 "p1" {| up_text := "z"; up_notes := None |} ]
        archived_store !! 0%nat = Some p'
    ∧ Prompt.status p = PS_ARCHIVED
    ∧ Prompt.status p' = PS_ARCHIVED
    ∧ Prompt.version p' = Prompt.version p.
Proof.
  edestruct (stored_prompts_evolve
               [ OpPublish 8 9 "p1";
                 OpUpdate 10 "p1" {| up_text := "z"; up_notes := None |} ]
               archived_store 0%nat)
    as (p' & Hp' & (_ & _ & _ & Hv & _) & _).
  - vm_compute. reflexivity.
  - eexists. exists p'. split; [vm_compute; reflexivity |].
    split; [exact Hp' |]. split; [reflexivity |]. split; [| exact Hv].
    vm_compute in Hp'. injection Hp' as <-. reflexivity.
Defined.

(** X20.  [publish_prompt] refuses every prompt that is not a draft with 400
    ("Only draft prompts can be published") and writes nothing; so a prompt
    is published at most once: after a successful publication, publishing
    the same identifier again is refused and changes nothing. *)
Theorem publish_only_once :
  ∀ archive_now publish_now prompt_id db p,
    first_match (prompt_has_id prompt_id) db = Some p →
    (Prompt.status p ≠ PS_DRAFT →
     publish_prompt archive_now publish_now prompt_id db
     = ([], Raise {| status_code := 400;
                     detail := "Only draft prompts can be published" |}))
    ∧ (Prompt.status p = PS_DRAFT →
       let db2 := fst (run (publish_prompt archive_now publish_now prompt_id) db) in
       snd (run (publish_prompt archive_now publish_now prompt_id) db)
       = Return (Prompt.set_status PS_ACTIVE publish_now p)
       ∧ ∀ archive_now' publish_now',
           run (publish_prompt archive_now' publish_now' prompt_id) db2
           = (db2, Raise {| status_code := 400;
                            detail := "Only draft prompts can be published" |})).
Proof.
  intros a n pid db p Hp. split.
  - intros Hnd. rewrite publish_prompt_eq, Hp.
    by rewrite (bool_decide_eq_false_2 _ Hnd).
  - intros Hd db2. unfold db2, run.
    rewrite (publish_prompt_eq a n), Hp, (bool_decide_eq_true_2 _ Hd).
    cbn [fst snd final List.last]. split; [done |].
    intros a' n'. rewrite publish_prompt_eq.
    destruct (publish_writes a n pid db p Hp Hd) as (Hp1 & _).
    rewrite (first_match_update_first _ _ _ p); [reflexivity | | done].
    intros x. unfold prompt_has_id. reflexivity.
Qed.

Lemma publish_only_once_witness :
  run (publish_prompt 8 9 "p2")
    (fst (run (publish_prompt 4 5 "p2") one_active_store))
  = (fst (run (publish_prompt 4 5 "p2") one_active_store),
     Raise {| status_code := 400;
              detail := "Only draft prompts can be published" |}).
Proof.
  edestruct (publish_only_once 4 5 "p2" one_active_store) as [_ H].
  - vm_compute. reflexivity.
  - apply H. reflexivity.
Defined.

(** X21.  [mark_prompt_weak] does not look at the status of the prompt it
    supersedes: applied to the active prompt of a lineage (in a store with
    at most one active prompt per lineage) it leaves the lineage without
    any active prompt, the replacement being a draft. *)
Theorem mark_weak_of_active_leaves_none :
  ∀ weak_now new_id created_now updated_now prompt_id request db p,
    at_most_one_active db →
    first_match (prompt_has_id prompt_id) db = Some p →
    Prompt.status p = PS_ACTIVE →
    all_space (mw_replacement_text request) = false →
    active_count (Prompt.fsm_state p) (Prompt.language p)
      (fst (run (mark_prompt_weak weak_now new_id created_now updated_now
                   prompt_id request) db))
    = 0%nat.
Proof.
  intros w id c u pid request db p Hinv Hp Hact Hsp.
  unfold run. rewrite mark_prompt_weak_eq, Hp, Hsp.
  cbn [fst final List.last]. rewrite active_count_app.
  unfold active_count.
  pose proof (count_update_first (prompt_has_id pid)
                (active_in_lineage (Prompt.fsm_state p) (Prompt.language p))
                (Prompt.set_status PS_WEAK w) db p Hp) as Hcount.
  assert (active_in_lineage (Prompt.fsm_state p) (Prompt.language p) p = true)
    as Hyes by (by apply active_in_lineage_true).
  assert (active_in_lineage (Prompt.fsm_state p) (Prompt.language p)
            (Prompt.set_status PS_WEAK w p) = false) as Hno.
  { unfold active_in_lineage. simpl. by rewrite andb_false_r. }
  rewrite Hyes, Hno in Hcount.
  specialize (Hinv (Prompt.fsm_state p) (Prompt.language p)).
  unfold active_count in Hinv. simpl.
  unfold active_in_lineage at 2. simpl. rewrite andb_false_r. simpl. lia.
Qed.

Lemma mark_weak_of_active_leaves_none_witness :
  active_count QUALIFICATION ENGLISH one_active_store = 1%nat
  ∧ active_count QUALIFICATION ENGLISH
      (fst (run (mark_prompt_weak 8 "p9" 9 9 "p1"
                   {| mw_replacement_text := "X"; mw_notes := None |})
              one_active_store))
    = 0%nat.
Proof.
  split; [vm_compute; reflexivity |].
  assert (∃ p, first_match (prompt_has_id "p1") one_active_store = Some p
               ∧ Prompt.status p = PS_ACTIVE
               ∧ Prompt.fsm_state p = QUALIFICATION
               ∧ Prompt.language p = ENGLISH) as (p & Hp & Ha & Hs & Hl)
    by (eexists; vm_compute; repeat split; reflexivity).
  rewrite <- Hs, <- Hl.
  apply (mark_weak_of_active_leaves_none 8 "p9" 9 9 "p1"
           {| mw_replacement_text := "X"; mw_notes := None |}
           one_active_store p); [| exact Hp | exact Ha | reflexivity].
  intros s l. apply (bool_decide_unpack _). destruct s, l; vm_compute; exact I.
Defined.

(** X22.  [update_prompt] on a prompt that is not active rewrites exactly
    that prompt: the text and updated_at are replaced, the notes are
    replaced only by non-empty notes (notes that are absent or empty leave
    the stored notes, so notes cannot be cleared), and identifier, lineage,
    version, status and creation data stay. *)
Theorem update_prompt_keeps_notes :
  ∀ now prompt_id text notes db p,
    first_match (prompt_has_id prompt_id) db = Some p →
    Prompt.status p ≠ PS_ACTIVE →
    ∃ i p',
      db !! i = Some p
      ∧ run (update_prompt now prompt_id {| up_text := text; up_notes := notes |}) db
        = (<[i := p']> db, Return p')
      ∧ Prompt.text p' = text
      ∧ Prompt.updated_at p' = now
      ∧ Prompt.notes p' = (if truthy_opt notes then notes else Prompt.notes p)
      ∧ Prompt.status p' = Prompt.status p
      ∧ prompt_evolves p p'.
Proof.
  intros now pid text notes db p Hp Hna.
  unfold run. rewrite update_prompt_eq, Hp, (bool_decide_eq_false_2 _ Hna).
  cbn [up_text up_notes].
  destruct (first_match_Some _
              (Prompt.set_text text now
                 (if truthy_opt notes then notes else None)) _ _ Hp)
    as (i & Hi & _ & _ & Hup).
  exists i. eexists. split; [done |].
  cbn zeta. rewrite Hup. split; [reflexivity |].
  split; [reflexivity |]. split; [reflexivity |]. split.
  - simpl. destruct notes as [[|ch rest]|]; reflexivity.
  - split; [reflexivity |]. repeat split. simpl. by destruct (Prompt.status p).
Qed.

Lemma update_prompt_keeps_notes_witness :
  ∃ p',
    snd (run (update_prompt 9 "p1" {| up_text := "t"; up_notes := Some "" |})
           weak_store) = Return p'
    ∧ Prompt.text p' = "t"
    ∧ Prompt.notes p' = None.
Proof.
  edestruct (update_prompt_keeps_notes 9 "p1" "t" (Some "") weak_store)
    as (i & p' & _ & Hrun & Ht & _ & Hn & _).
  - vm_compute. reflexivity.
  - discriminate.
  - exists p'. rewrite Hrun. split; [reflexivity |]. split; [exact Ht |].
    exact Hn.
Defined.

Lemma lineage_versions_update_all s l P f db :
  (∀ x, in_lineage s l (f x) = in_lineage s l x
        ∧ Prompt.version (f x) = Prompt.version x) →
  lineage_versions s l (update_all P f db) = lineage_versions s l db.
Proof.
  intros Hf. unfold lineage_versions, update_all.
  induction db as [|x db IH]; simpl; [done |].
  destruct (P x); simpl.
  - destruct (Hf x) as [-> Hv]. destruct (in_lineage s l x); simpl;
      by rewrite ?Hv, IH.
  - destruct (in_lineage s l x); simpl; by rewrite IH.
Qed.

Lemma gapless_same db db' :
  (∀ s l, lineage_versions s l db' = lineage_versions s l db) →
  gapless_store db → gapless_store db'.
Proof. intros H Hdb s l. unfold gapless_from_1. rewrite H. apply Hdb. Qed.

(** X23.  The versions of every lineage stay 1, 2, ..., n in creation
    order under every sequence of create, update, publish and mark-weak
    requests in which each mark-weak supersedes the newest prompt of its
    lineage. *)
Theorem versions_stay_gapless :
  ∀ ops db,
    gapless_store db → marks_newest_only ops db →
    gapless_store (prompt_run ops db).
Proof.
  induction ops as [|op ops IH]; intros db Hdb Hops; [done |].
  destruct Hops as [Hop Hrest]. rewrite prompt_run_cons.
  apply IH; [| done]. clear IH Hrest.
  destruct op as [id c u r | n pid r | w id c u pid r | a n pid].
  - by apply create_prompt_keeps_gapless.
  - unfold run. cbn [prompt_handler]. rewrite update_prompt_eq.
    destruct (first_match _ db) as [p|]; [| done].
    destruct (bool_decide _); [done |]. cbn [fst final List.last].
    eapply gapless_same; [| done].
    intros s l. by apply lineage_versions_update_first.
  - cbn [prompt_handler].
    destruct (first_match (prompt_has_id pid) db) as [p|] eqn:Hp.
    + by eapply mark_prompt_weak_newest_keeps_gapless.
    + unfold run. by rewrite mark_prompt_weak_eq, Hp.
  - unfold run. cbn [prompt_handler]. rewrite publish_prompt_eq.
    destruct (first_match _ db) as [p|]; [| done].
    destruct (bool_decide _); [| done]. cbn [fst final List.last].
    eapply gapless_same; [| done].
    intros s l. rewrite lineage_versions_update_first by done.
    by apply lineage_versions_update_all.
Qed.

Lemma versions_stay_gapless_witness :
  lineage_versions QUALIFICATION ENGLISH
    (prompt_run (publish_then_draft
                 ++ [ OpMarkWeak 6 "p3" 7 7 "p2"
                        {| mw_replacement_text := "X"; mw_notes := None |} ]) [])
  = one_to 3.
Proof.
  pose proof (versions_stay_gapless
                (publish_then_draft
                 ++ [ OpMarkWeak 6 "p3" 7 7 "p2"
                        {| mw_replacement_text := "X"; mw_notes := None |} ]) [])
    as H.
  rewrite (H ltac:(by intros s l) ltac:(vm_compute; tauto)
             QUALIFICATION ENGLISH).
  vm_compute. reflexivity.
Defined.

(** ** Listing prompts *)

Lemma string_compare_refl s : String.compare s s = Eq.
Proof.
  induction s as [|c s IH]; simpl; [done |].
  unfold Ascii.compare. by rewrite N.compare_refl.
Qed.

Lemma prompt_order_total p q : prompt_order p q = true ∨ prompt_order q p = true.
Proof.
  unfold prompt_order.
  rewrite (String.compare_antisym (FSMState_value (Prompt.fsm_state p))),
          (String.compare_antisym (Language_value (Prompt.language p))).
  destruct (String.compare (FSMState_value (Prompt.fsm_state q)) _); simpl; auto.
  destruct (String.compare (Language_value (Prompt.language q)) _); simpl; auto.
  destruct (Z.leb_spec (Prompt.version q) (Prompt.version p)); auto.
  right. apply Z.leb_le. lia.
Qed.

Lemma ordered_lookup {D} (le : D -> D -> bool) l i x y :
  ordered le l → l !! i = Some x → l !! S i = Some y → le x y = true.
Proof.
  revert i. induction l as [|a l IH]; intros i Hl Hx Hy; [done |].
  destruct l as [|b l]; [done |]. destruct Hl as [Hab Hl].
  destruct i; simpl in *; simplify_eq; [done |]. by eapply IH.
Qed.

(** X24.  [get_prompts] lists at most 1000 prompts, each a stored prompt
    that matches the given filters, and all of them when at most 1000
    match.  The list is ordered by fsm_state, then language, then version
    downwards: of two neighbours of one lineage the first has the greater
    or equal version, so a lineage is listed newest first. *)
Theorem get_prompts_listing :
  ∀ fsm_state language status db,
    let listed := get_prompts fsm_state language status db in
    let query := prompt_query fsm_state language status in
    (length listed ≤ 1000)%nat
    ∧ Forall (λ p, In p db ∧ query p = true) listed
    ∧ ((length (List.filter query db) ≤ 1000)%nat →
       listed ≡ₚ List.filter query db)
    ∧ ordered prompt_order listed
    ∧ ∀ i p q,
        listed !! i = Some p → listed !! S i = Some q →
        Prompt.fsm_state p = Prompt.fsm_state q →
        Prompt.language p = Prompt.language q →
        Prompt.version q ≤ Prompt.version p.
Proof.
  intros fs lg st db listed query. unfold listed, get_prompts. fold query.
  assert (ordered prompt_order
            (take 1000 (sort_by prompt_order (List.filter query db)))) as Hord
    by apply ordered_take, sort_by_ordered, prompt_order_total.
  split; [rewrite length_take; lia |]. split.
  - apply Forall_take, Forall_sort_by, Forall_forall.
    intros x Hx%list_elem_of_In%filter_In. done.
  - split.
    + intros Hle. rewrite take_ge; [apply sort_by_Permutation |].
      by rewrite sort_by_Permutation.
    + split; [done |].
      intros i p q Hp Hq Hs Hl.
      pose proof (ordered_lookup _ _ _ _ _ Hord Hp Hq) as Hpq.
      unfold prompt_order in Hpq.
      rewrite Hs, Hl, !string_compare_refl in Hpq. by apply Z.leb_le.
Qed.

(** X25.  After every sequence of requests served from the empty store,
    listing the active prompts of one (fsm_state, language) pair with
    [get_prompts] returns at most one prompt. *)
Theorem active_listing_at_most_one :
  ∀ ops s l,
    (length (get_prompts (Some s) (Some l) (Some PS_ACTIVE) (prompt_run ops []))
     ≤ 1)%nat.
Proof.
  intros ops s l. unfold get_prompts.
  rewrite length_take, sort_by_Permutation.
  assert (at_most_one_active (prompt_run ops [])) as Hinv.
  { unfold prompt_run. apply final_keeps; [apply at_most_one_active_nil |].
    apply prompt_writes_keep_at_most_one_active, at_most_one_active_nil. }
  specialize (Hinv s l). unfold active_count in Hinv.
  assert (List.filter (prompt_query (Some s) (Some l) (Some PS_ACTIVE))
            (prompt_run ops [])
          = List.filter (active_in_lineage s l) (prompt_run ops [])) as ->.
  { apply filter_ext. intros p. reflexivity. }
  lia.
Qed.

Lemma create_prompt_numbers_above_witness :
  ∃ p, run (create_prompt "p9" 8 8 (qualification_en "x")) one_active_store
       = (one_active_store ++ [p], Return p)
       ∧ Prompt.version p = 3
       ∧ Forall (λ q, in_lineage QUALIFICATION ENGLISH q = true →
                      Prompt.version q < Prompt.version p) one_active_store.
Proof.
  destruct (create_prompt_numbers_above "p9" 8 8 (qualification_en "x")
              one_active_store)
    as (p & Hrun & _ & _ & _ & _ & _ & _ & Habove & _).
  exists p. split; [exact Hrun |]. split; [| exact Habove].
  vm_compute in Hrun. injection Hrun as <-. reflexivity.
Defined.

Lemma get_prompts_listing_witness :
  List.map Prompt.version (get_prompts (Some QUALIFICATION) None None weak_store)
  = [2; 1]
  ∧ get_prompts (Some QUALIFICATION) None None weak_store
    ≡ₚ List.filter (prompt_query (Some QUALIFICATION) None None) weak_store.
Proof.
  destruct (get_prompts_listing (Some QUALIFICATION) None None weak_store)
    as (_ & _ & Hall & _).
  split; [vm_compute; reflexivity |].
  apply Hall. vm_compute. lia.
Defined.

(** ** What [submitInput] returns *)

(** X26.  What a successful [submitInput] returns is what it stored: the
    state returned is the call's new state, the text returned is the text
    of the call's last turn, the audio URL carries the index of that last
    turn, and the answer is final exactly when the call is now completed. *)
Theorem input_response_matches_store :
  ∀ u a un an en call_id utterance db c resp,
    first_match (has_id call_id) db = Some c →
    snd (run (webcall_input u a un an en
                {| in_call_id := call_id; in_user_input := utterance |}) db)
    = Return resp →
    ∃ c',
      first_match (has_id call_id)
        (fst (run (webcall_input u a un an en
                     {| in_call_id := call_id; in_user_input := utterance |}) db))
      = Some c'
      ∧ ir_call_id resp = call_id
      ∧ Call.fsm_state c' = ir_fsm_state resp
      ∧ List.last (Call.turns c') (user_turn_of u un utterance GREETING)
        = aira_turn_of a an (ir_aira_response resp) (ir_fsm_state resp)
      ∧ ir_audio_url resp
        = Some ("/api/audio/" +:+ call_id +:+ "/"
                +:+ pretty (length (Call.turns c') - 1)%nat)
      ∧ (ir_is_final resp = true ↔ Call.status c' = CS_COMPLETED).
Proof.
  intros u a un an en call_id utterance db c resp Hc Hret.
  unfold run in *. rewrite webcall_input_eq, Hc in *.
  destruct (bool_decide (Call.status c = CS_ACTIVE)) eqn:Hact; [| done].
  apply bool_decide_eq_true in Hact.
  destruct (get_simulated_response _ _ _) as [[[text ns] fin]|]; [| done].
  cbn [fst snd final List.last] in *. simplify_eq.
  set (upd := update_data _ _ _ _ _ _).
  exists (upd c). split.
  { apply first_match_update_first; [| done]. intros x. apply has_id_update_data. }
  split; [done |]. unfold upd.
  destruct (update_data_fields (user_turn_of u un utterance (Call.fsm_state c))
              (aira_turn_of a an text ns) ns
              (qualification_updates_of utterance) fin en c) as (-> & _).
  rewrite update_data_turns, (proj1 (update_data_state _ _ _ _ _ _ _)).
  split; [done |]. split.
  - assert (∀ (l : list CallTurn.t) x y d, List.last (l ++ [x; y]) d = y) as Hl.
    { intros l x y d. change [x; y] with ([x] ++ [y]).
      by rewrite app_assoc, List.last_last. }
    by rewrite Hl.
  - split.
    + simpl. rewrite length_app. simpl. repeat f_equal; lia.
    + simpl. destruct fin; [done |]. rewrite Hact. done.
Qed.

Lemma input_response_matches_store_witness :
  ∃ c' resp,
    snd (run (webcall_input "u" "a" 1 2 3
                {| in_call_id := "c1"; in_user_input := "no" |}) started_store)
    = Return resp
    ∧ first_match (has_id "c1")
        (fst (run (webcall_input "u" "a" 1 2 3
                     {| in_call_id := "c1"; in_user_input := "no" |})
                started_store)) = Some c'
    ∧ ir_audio_url resp = Some "/api/audio/c1/2"
    ∧ Call.fsm_state c' = CLOSING.
Proof.
  edestruct (input_response_matches_store "u" "a" 1 2 3 "c1" "no" started_store)
    as (c' & Hc' & _ & Hs & _ & Hurl & _).
  - vm_compute. reflexivity.
  - vm_compute. reflexivity.
  - exists c'. eexists. split; [vm_compute; reflexivity |].
    split; [exact Hc' |]. split; [vm_compute; reflexivity |].
    rewrite Hs. reflexivity.
Defined.
